(** * SSO migration: the per-team migration and restore orchestration

    A shallow embedding of [src/services/migration-service.ts] and of the
    transport client [src/client/uniform-client.ts] it drives, with the
    data declarations of [src/types/uniform-api.ts].

    - Asynchronous methods run strictly one after the other, so an [await]
      is a sequencing point: every method is a computation in a state and
      exception monad [M].
    - The host (HTTP server behind axios, clock, file-system faults) is a
      record of oracles indexed by the history of calls made so far, which
      covers every deterministic environment.
    - The result object a method mutates in place is a cell of the monad
      state, so that an exception raised half way keeps the mutations made
      before it, as in JavaScript.
    - [console.log] and [console.error] are a side channel and are left out. *)

From Stdlib Require Import ZArith Lia Ascii String.
From stdpp Require Import base strings list gmap.

Local Open Scope Z_scope.
Local Open Scope string_scope.
Local Open Scope list_scope.

(** ** Data model: [src/types/uniform-api.ts] *)

Inductive UniformPermission :=
  | OPT_CREATE_ENRICHMENTS | OPT_CREATE_INTENTS | OPT_CREATE_QUIRKS
  | OPT_CREATE_SIGNALS | OPT_CREATE_TESTS | OPT_DELETE_ENRICHMENTS
  | OPT_DELETE_INTENTS | OPT_DELETE_QUIRKS | OPT_DELETE_SIGNALS
  | OPT_DELETE_TESTS | OPT_PUB | OPT_PUBLISH | OPT_READ
  | OPT_WRITE_ENRICHMENTS | OPT_WRITE_INTENTS | OPT_WRITE_QUIRKS
  | OPT_WRITE_SIGNALS | OPT_WRITE_TESTS | PRM_SCHEMA | PROJECT
  | RDT_ADVANCED | RDT_CREATE | RDT_DELETE | RDT_UPDATE | UPM_CREATE
  | UPM_DATACONN | UPM_DATATYPE | UPM_DELETE | UPM_PUB | UPM_PUBLISH
  | UPM_READ | UPM_RELEASE_CREATE | UPM_RELEASE_DELETE | UPM_RELEASE_LAUNCH
  | UPM_RELEASE_UPDATE | UPM_SCHEMA | UPM_WRITE | UTM_PUB | UTM_WRITE.

Inductive MemberType := member | apiKey.

(** [customPermissions?] and [name?] are optional properties. *)
Record ProjectRoles := {
  roles : list string;
  customPermissions : option (list UniformPermission);
  pr_name : option string;
}.

(** [projects : Record<string, ProjectRoles>] is kept as the list of its
    entries in the order [Object.entries] enumerates them. *)
Record Member := {
  subject : string;
  name : string;
  email : string;
  picture : option string;
  isTeamAdmin : bool;
  projects : list (string * ProjectRoles);
  type : MemberType;
  memberSince : string;
}.

Record ProjectInvite := {
  projectId : string;
  useCustom : option bool;
  pi_roles : list string;
  permissions : option (list UniformPermission);
}.

Record InviteMemberRequest := {
  inv_projects : list ProjectInvite;
  inv_isAdmin : bool;
  inv_email : string;
  inv_teamId : string;
  sendEmail : bool;
  inv_name : option string;
}.

Record UpdateMemberRequest := {
  identity_subject : string;
  upd_teamId : string;
  upd_name : option string;
  upd_isAdmin : option bool;
  upd_projects : option (list ProjectInvite);
}.

Record DeleteMemberRequest := {
  del_teamId : string;
  del_subject : string;
}.

(** [ApiResponse<T>]; [status] is the HTTP status code. *)
Record ApiResponse (T : Type) := {
  data : T;
  status : Z;
  statusText : string;
}.
Arguments data {T} _.
Arguments status {T} _.
Arguments statusText {T} _.

Record TeamConfig := {
  teamId : string;
  tc_apiKey : string;
}.

(** [BackupOptions]; the field [path] of the source is [bo_path] here. *)
Record BackupOptions := {
  enabled : bool;
  bo_path : string;
}.

(** ** Data model: [src/services/migration-service.ts] *)

Record MigrationOptions := {
  markObsolete : bool;
  deleteMembers : bool;
  dryRun : bool;
  backup : BackupOptions;
  ignoredEmails : option (list string);
}.

Record MigrationResult := {
  mr_teamId : string;
  membersFound : nat;
  membersMarkedObsolete : nat;
  membersDeleted : nat;
  invitationsSent : nat;
  skippedMembers : nat;
  backupCreated : bool;
  backupPath : option string;
  errors : list string;
}.

(** The anonymous result type of [restoreFromBackup]. *)
Record RestoreResult := {
  success : bool;
  membersRestored : nat;
  rr_errors : list string;
}.

(** The result type of [backupMembers]. *)
Record BackupResult := {
  br_success : bool;
  br_path : option string;
  br_error : option string;
}.

(** ** The host *)

(** The body of an HTTP answer is [any] in the source and only ever logged;
    [None] stands for a falsy body. *)
Definition Payload := option string.

(** What a call on the axios instance does: it resolves with a response,
    rejects with an [AxiosError] that carries a response, or rejects with
    any other error (no response at all), of which only the message is
    observed. *)
Inductive AxiosOutcome (T : Type) :=
  | AxResolve (r : ApiResponse T)
  | AxRejectResponse (r : ApiResponse Payload)
  | AxReject (message : string).
Arguments AxResolve {T} _.
Arguments AxRejectResponse {T} _.
Arguments AxReject {T} _.

(** The calls that leave the process, in the order they are made. *)
Inductive Event :=
  | EvGetMembers (team key : string)
  | EvInviteMember (req : InviteMemberRequest) (key : string)
  | EvUpdateMember (req : UpdateMemberRequest) (key : string)
  | EvDeleteMember (req : DeleteMemberRequest) (key : string)
  | EvMkdir (dir : string)
  | EvWriteFile (file content : string).

(** How [fs.writeFileSync] fails: the file cannot be opened, and nothing
    changes; or it is opened (created or truncated) and the write fails,
    and the file holds what was written before the failure. *)
Inductive WriteFault :=
  | OpenFails (message : string)
  | WriteFails (message : string) (written : string).

(** The outside world: each oracle sees the calls made before the one it
    answers. *)
Record World := {
  http_get : list Event -> string -> string -> AxiosOutcome (list Member);
  http_post : list Event -> InviteMemberRequest -> string -> AxiosOutcome Payload;
  http_patch : list Event -> UpdateMemberRequest -> string -> AxiosOutcome Payload;
  http_delete : list Event -> DeleteMemberRequest -> string -> AxiosOutcome Payload;
  (** [Some msg]: [fs.mkdirSync] throws an error with that message. *)
  mkdir_fault : list Event -> string -> option string;
  (** [Some fault]: [fs.writeFileSync] throws the error of that fault. *)
  write_fault : list Event -> string -> option WriteFault;
  (** [new Date().toISOString()] *)
  now : list Event -> string;
}.

(** The library functions of the JavaScript runtime the code calls.
    [JSON_parse] gives the message of the [SyntaxError] on the left. *)
Record Builtins := {
  toLowerCase : string -> string;
  JSON_stringify : list Member -> string;
  JSON_parse : string -> string + list Member;
  path_resolve : string -> string;
  path_join : string -> string -> string;
}.

(** The state outside the result objects: the calls made so far and the
    file system (regular files with their content, and directories). *)
Record Sys := {
  trace : list Event;
  files : gmap string string;
  dirs : gset string;
}.

Definition log (e : Event) (s : Sys) : Sys :=
  {| trace := trace s ++ [e]; files := files s; dirs := dirs s |}.

(** ** The monad: state and exceptions *)

(** A thrown value is observed through its message only
    ([error instanceof Error ? error.message : String(error)]). *)
Inductive Outcome (A : Type) :=
  | Ok (a : A)
  | Throw (message : string).
Arguments Ok {A} _.
Arguments Throw {A} _.

Definition M (S A : Type) : Type := S -> Outcome A * S.

Definition ret {S A} (a : A) : M S A := fun s => (Ok a, s).

Definition bind {S A B} (m : M S A) (k : A -> M S B) : M S B :=
  fun s => match m s with
           | (Ok a, s') => k a s'
           | (Throw e, s') => (Throw e, s')
           end.

Definition throw {S A} (e : string) : M S A := fun s => (Throw e, s).

(** [try { m } catch (error) { h errorMessage }] *)
Definition try_catch {S A} (m : M S A) (h : string -> M S A) : M S A :=
  fun s => match m s with
           | (Ok a, s') => (Ok a, s')
           | (Throw e, s') => h e s'
           end.

Definition modify {S} (f : S -> S) : M S unit := fun s => (Ok tt, f s).

Declare Scope js_scope.
Delimit Scope js_scope with js.
Notation "x <- m ;; k" := (bind m (fun x => k))
  (at level 100, m at next level, right associativity) : js_scope.
Notation "m ;; k" := (bind m (fun _ => k))
  (at level 100, right associativity) : js_scope.
Local Open Scope js_scope.

(** [for (const x of l) { body x }] *)
Fixpoint forEach {S A} (l : list A) (body : A -> M S unit) : M S unit :=
  match l with
  | [] => ret tt
  | x :: l' => body x ;; forEach l' body
  end.

(** A method that mutates a result object of type [R] runs on the pair of
    the system state and that object. *)
Definition liftSys {R A} (m : M Sys A) : M (Sys * R) A :=
  fun '(s, r) => match m s with (o, s') => (o, (s', r)) end.

Definition update {R} (f : R -> R) : M (Sys * R) unit :=
  modify (fun '(s, r) => (s, f r)).

Definition getResult {R} : M (Sys * R) R := fun '(s, r) => (Ok r, (s, r)).

Section Program.

Context (js : Builtins) (w : World).

(** ** The transport client: [src/client/uniform-client.ts] *)

(** [statusText || 'Unknown Error'] *)
Definition orUnknownError (text : string) : string :=
  if decide (text = "") then "Unknown Error" else text.

(** [data || {}] *)
Definition orEmptyObject (d : Payload) : Payload :=
  match d with Some x => Some x | None => Some "{}" end.

Definition getMembers (team key : string) : M Sys (ApiResponse (list Member)) :=
  fun s =>
    let s' := log (EvGetMembers team key) s in
    match http_get w (trace s) team key with
    | AxResolve r =>
        (Ok {| data := data r; status := status r; statusText := statusText r |}, s')
    | AxRejectResponse r =>
        (Ok {| data := []; status := status r; statusText := statusText r |}, s')
    | AxReject e => (Throw e, s')
    end.

(** The three mutating calls share one shape: the response of a resolved
    call is handed on, an error that carries a response becomes a response,
    any other error is thrown again. *)
Definition handOn (o : AxiosOutcome Payload) : Outcome (ApiResponse Payload) :=
  match o with
  | AxResolve r =>
      Ok {| data := data r; status := status r; statusText := statusText r |}
  | AxRejectResponse r =>
      Ok {| data := orEmptyObject (data r); status := status r;
            statusText := orUnknownError (statusText r) |}
  | AxReject e => Throw e
  end.

Definition inviteMember (request : InviteMemberRequest) (key : string)
  : M Sys (ApiResponse Payload) :=
  fun s => (handOn (http_post w (trace s) request key),
            log (EvInviteMember request key) s).

Definition updateMember (request : UpdateMemberRequest) (key : string)
  : M Sys (ApiResponse Payload) :=
  fun s => (handOn (http_patch w (trace s) request key),
            log (EvUpdateMember request key) s).

(** [UniformClient.deleteMember]; the name [deleteMember] is kept for the
    method of the service. *)
Definition deleteMember_client (request : DeleteMemberRequest) (key : string)
  : M Sys (ApiResponse Payload) :=
  fun s => (handOn (http_delete w (trace s) request key),
            log (EvDeleteMember request key) s).

(** [!!projectRoles.customPermissions?.length] *)
Definition nonEmpty (ps : option (list UniformPermission)) : bool :=
  match ps with
  | Some (_ :: _) => true
  | _ => false
  end.

Definition convertMemberProjectsToInvites (m : Member) : list ProjectInvite :=
  map (fun '(project, projectRoles) =>
         {| projectId := project;
            pi_roles := roles projectRoles;
            permissions := customPermissions projectRoles;
            useCustom := Some (nonEmpty (customPermissions projectRoles)) |})
      (projects m).

(** ** The file system calls of [fs] *)

Definition existsSync (p : string) : M Sys bool :=
  fun s => (Ok (bool_decide (is_Some (files s !! p)) || bool_decide (p ∈ dirs s)), s).

(** [fs.mkdirSync(p, { recursive: true })] *)
Definition mkdirSync (p : string) : M Sys unit :=
  fun s =>
    match mkdir_fault w (trace s) p with
    | Some e => (Throw e, log (EvMkdir p) s)
    | None => (Ok tt, {| trace := trace s ++ [EvMkdir p];
                         files := files s;
                         dirs := {[p]} ∪ dirs s |})
    end.

Definition writeFileSync (p content : string) : M Sys unit :=
  fun s =>
    match write_fault w (trace s) p with
    | Some (OpenFails e) => (Throw e, log (EvWriteFile p content) s)
    | Some (WriteFails e written) =>
        (Throw e, {| trace := trace s ++ [EvWriteFile p content];
                     files := <[p := written]> (files s);
                     dirs := dirs s |})
    | None => (Ok tt, {| trace := trace s ++ [EvWriteFile p content];
                         files := <[p := content]> (files s);
                         dirs := dirs s |})
    end.

Definition readFileSync (p : string) : M Sys string :=
  fun s =>
    match files s !! p with
    | Some content => (Ok content, s)
    | None =>
        if bool_decide (p ∈ dirs s)
        then (Throw "EISDIR: illegal operation on a directory, read", s)
        else (Throw ("ENOENT: no such file or directory, open '" +:+ p +:+ "'"), s)
    end.

(** [new Date().toISOString()] *)
Definition toISOString : M Sys string := fun s => (Ok (now w (trace s)), s).

(** [.replace(/[:.]/g, '-')] *)
Fixpoint dashed (t : string) : string :=
  match t with
  | EmptyString => EmptyString
  | String c t' =>
      String (if decide (c = ":"%char) then "-"%char
              else if decide (c = "."%char) then "-"%char else c)
             (dashed t')
  end.

(** [JSON.parse(text) as Member[]] *)
Definition parseMembers (text : string) : M Sys (list Member) :=
  fun s => match JSON_parse js text with
           | inr members => (Ok members, s)
           | inl e => (Throw e, s)
           end.

(** ** The service: [src/services/migration-service.ts] *)

Definition defaultIgnoredEmails : list string := [].

(** The constructor: [this.options] is the options given, with the default
    ignored emails appended to [options.ignoredEmails || []]. *)
Definition MigrationService (options : MigrationOptions) : MigrationOptions :=
  {| markObsolete := markObsolete options;
     deleteMembers := deleteMembers options;
     dryRun := dryRun options;
     backup := backup options;
     ignoredEmails :=
       Some (default [] (ignoredEmails options) ++ defaultIgnoredEmails) |}.

(** *** Mutations of the result objects *)

Definition setMembersFound (n : nat) (r : MigrationResult) : MigrationResult :=
  {| mr_teamId := mr_teamId r; membersFound := n;
     membersMarkedObsolete := membersMarkedObsolete r;
     membersDeleted := membersDeleted r; invitationsSent := invitationsSent r;
     skippedMembers := skippedMembers r; backupCreated := backupCreated r;
     backupPath := backupPath r; errors := errors r |}.

Definition incMembersMarkedObsolete (r : MigrationResult) : MigrationResult :=
  {| mr_teamId := mr_teamId r; membersFound := membersFound r;
     membersMarkedObsolete := S (membersMarkedObsolete r);
     membersDeleted := membersDeleted r; invitationsSent := invitationsSent r;
     skippedMembers := skippedMembers r; backupCreated := backupCreated r;
     backupPath := backupPath r; errors := errors r |}.

Definition incMembersDeleted (r : MigrationResult) : MigrationResult :=
  {| mr_teamId := mr_teamId r; membersFound := membersFound r;
     membersMarkedObsolete := membersMarkedObsolete r;
     membersDeleted := S (membersDeleted r); invitationsSent := invitationsSent r;
     skippedMembers := skippedMembers r; backupCreated := backupCreated r;
     backupPath := backupPath r; errors := errors r |}.

Definition incInvitationsSent (r : MigrationResult) : MigrationResult :=
  {| mr_teamId := mr_teamId r; membersFound := membersFound r;
     membersMarkedObsolete := membersMarkedObsolete r;
     membersDeleted := membersDeleted r; invitationsSent := S (invitationsSent r);
     skippedMembers := skippedMembers r; backupCreated := backupCreated r;
     backupPath := backupPath r; errors := errors r |}.

Definition incSkippedMembers (r : MigrationResult) : MigrationResult :=
  {| mr_teamId := mr_teamId r; membersFound := membersFound r;
     membersMarkedObsolete := membersMarkedObsolete r;
     membersDeleted := membersDeleted r; invitationsSent := invitationsSent r;
     skippedMembers := S (skippedMembers r); backupCreated := backupCreated r;
     backupPath := backupPath r; errors := errors r |}.

Definition setBackup (created : bool) (p : option string) (r : MigrationResult)
  : MigrationResult :=
  {| mr_teamId := mr_teamId r; membersFound := membersFound r;
     membersMarkedObsolete := membersMarkedObsolete r;
     membersDeleted := membersDeleted r; invitationsSent := invitationsSent r;
     skippedMembers := skippedMembers r; backupCreated := created;
     backupPath := p; errors := errors r |}.

(** [result.errors.push(e)] *)
Definition pushError (e : string) (r : MigrationResult) : MigrationResult :=
  {| mr_teamId := mr_teamId r; membersFound := membersFound r;
     membersMarkedObsolete := membersMarkedObsolete r;
     membersDeleted := membersDeleted r; invitationsSent := invitationsSent r;
     skippedMembers := skippedMembers r; backupCreated := backupCreated r;
     backupPath := backupPath r; errors := errors r ++ [e] |}.

Definition emptyResult (team : string) : MigrationResult :=
  {| mr_teamId := team; membersFound := 0; membersMarkedObsolete := 0;
     membersDeleted := 0; invitationsSent := 0; skippedMembers := 0;
     backupCreated := false; backupPath := None; errors := [] |}.

(** [response.status >= 200 && response.status < 300] *)
Definition isSuccess (code : Z) : bool := (200 <=? code)%Z && (code <? 300)%Z.

(** *** Methods; [opts] is [this.options] *)

Definition shouldIgnoreMember (opts : MigrationOptions) (m : Member) : bool :=
  match ignoredEmails opts with
  | Some l =>
      existsb (fun e => bool_decide (toLowerCase js e = toLowerCase js (email m))) l
  | None => false
  end.

(** Lines 154-181. Every statement is inside the [try], so the method
    itself never throws. *)
Definition backupMembers (opts : MigrationOptions) (team : string)
    (members : list Member) : M Sys BackupResult :=
  try_catch
    (let backupDir := path_resolve js (bo_path (backup opts)) in
     there <- existsSync backupDir;;
     (if negb there then mkdirSync backupDir else ret tt);;
     iso <- toISOString;;
     let timestamp := dashed iso in
     let backupFileName := "team-" +:+ team +:+ "-backup-" +:+ timestamp +:+ ".json" in
     let backupFilePath := path_join js backupDir backupFileName in
     writeFileSync backupFilePath (JSON_stringify js members);;
     ret {| br_success := true; br_path := Some backupFilePath; br_error := None |})
    (fun errorMessage =>
       ret {| br_success := false; br_path := None; br_error := Some errorMessage |}).

(** The request objects the three operations build (lines 236 and 249-257,
    289 and 301-308, 345-348). *)
Definition updateRequest (m : Member) (teamConfig : TeamConfig) : UpdateMemberRequest :=
  let obsoleteName := "OBSOLETE - " +:+ name m in
  let projects := convertMemberProjectsToInvites m in
  {| identity_subject := subject m;
     upd_teamId := teamId teamConfig;
     upd_name := Some obsoleteName;
     upd_isAdmin := Some (isTeamAdmin m);
     upd_projects := Some projects |}.

Definition inviteRequest (m : Member) (teamConfig : TeamConfig) : InviteMemberRequest :=
  let projects := convertMemberProjectsToInvites m in
  {| inv_email := email m;
     inv_name := Some (name m);
     inv_isAdmin := isTeamAdmin m;
     inv_teamId := teamId teamConfig;
     inv_projects := projects;
     sendEmail := true |}.

Definition deleteRequest (m : Member) (teamConfig : TeamConfig) : DeleteMemberRequest :=
  {| del_teamId := teamId teamConfig; del_subject := subject m |}.

(** Lines 230-275. *)
Definition markMemberAsObsolete (opts : MigrationOptions) (m : Member)
    (teamConfig : TeamConfig) : M (Sys * MigrationResult) unit :=
  if dryRun opts then update incMembersMarkedObsolete
  else
    response <- liftSys (updateMember (updateRequest m teamConfig)
                                      (tc_apiKey teamConfig));;
    if isSuccess (status response) then update incMembersMarkedObsolete
    else update (pushError ("Failed to mark " +:+ email m +:+ " as obsolete: "
                            +:+ statusText response)).

(** Lines 283-326. *)
Definition sendNewInvitation (opts : MigrationOptions) (m : Member)
    (teamConfig : TeamConfig) : M (Sys * MigrationResult) unit :=
  if dryRun opts then update incInvitationsSent
  else
    response <- liftSys (inviteMember (inviteRequest m teamConfig)
                                      (tc_apiKey teamConfig));;
    if isSuccess (status response) then update incInvitationsSent
    else update (pushError ("Failed to send invitation to " +:+ email m +:+ ": "
                            +:+ statusText response)).

(** Lines 334-363. *)
Definition deleteMember (opts : MigrationOptions) (m : Member)
    (teamConfig : TeamConfig) : M (Sys * MigrationResult) unit :=
  if dryRun opts then update incMembersDeleted
  else
    response <- liftSys (deleteMember_client (deleteRequest m teamConfig)
                                             (tc_apiKey teamConfig));;
    if isSuccess (status response) then update incMembersDeleted
    else update (pushError ("Failed to delete " +:+ email m +:+ ": "
                            +:+ statusText response)).

(** Lines 202-222. *)
Definition processMember (opts : MigrationOptions) (m : Member)
    (teamConfig : TeamConfig) : M (Sys * MigrationResult) unit :=
  (if deleteMembers opts then deleteMember opts m teamConfig
   else if markObsolete opts then markMemberAsObsolete opts m teamConfig
   else ret tt);;
  sendNewInvitation opts m teamConfig.

Definition abortMessage : string :=
  "Migration aborted because backup failed and delete members is enabled".

(** [`...: ${backupResult.error}`] *)
Definition shown (e : option string) : string := default "undefined" e.

(** Lines 100-106 and 112-118: [true] when the method returns there. *)
Definition abortIfDeleting (opts : MigrationOptions) : M (Sys * MigrationResult) bool :=
  if deleteMembers opts && negb (dryRun opts)
  then update (pushError abortMessage);; ret true
  else ret false.

(** Lines 89-120, the backup step of [migrateTeam]; the value is [true] when
    the method returns from inside it. [save] is the snapshot operation
    called at line 91. *)
Definition backupStep (save : string -> list Member -> M Sys BackupResult)
    (opts : MigrationOptions) (team : string) (members : list Member)
  : M (Sys * MigrationResult) bool :=
  if enabled (backup opts) && bool_decide (0 < length members)%nat then
    try_catch
      (backupResult <- liftSys (save team members);;
       update (setBackup (br_success backupResult) (br_path backupResult));;
       if br_success backupResult then ret false
       else
         update (pushError ("Failed to create backup: " +:+ shown (br_error backupResult)));;
         abortIfDeleting opts)
      (fun errorMessage =>
         update (pushError ("Error creating backup: " +:+ errorMessage));;
         abortIfDeleting opts)
  else ret false.

(** Lines 124-137, the body of the loop over the members. *)
Definition memberStep (opts : MigrationOptions) (teamConfig : TeamConfig)
    (m : Member) : M (Sys * MigrationResult) unit :=
  try_catch
    (if shouldIgnoreMember opts m then update incSkippedMembers
     else processMember opts m teamConfig)
    (fun errorMessage =>
       update (pushError ("Error processing member " +:+ email m +:+ ": "
                          +:+ errorMessage))).

(** Lines 74-143, the outer [try] of [migrateTeam]. *)
Definition migrateTeamBody (save : string -> list Member -> M Sys BackupResult)
    (opts : MigrationOptions) (teamConfig : TeamConfig)
  : M (Sys * MigrationResult) unit :=
  try_catch
    (membersResponse <- liftSys (getMembers (teamId teamConfig) (tc_apiKey teamConfig));;
     if negb (bool_decide (status membersResponse = 200)) then
       update (pushError ("Failed to get members: " +:+ statusText membersResponse))
     else
       let members := data membersResponse in
       update (setMembersFound (length members));;
       returned <- backupStep save opts (teamId teamConfig) members;;
       if returned then ret tt
       else forEach members (memberStep opts teamConfig))
    (fun errorMessage =>
       update (pushError ("Error migrating team " +:+ teamId teamConfig +:+ ": "
                          +:+ errorMessage))).

(** Lines 55-146, with the snapshot operation as an argument: the [catch]
    of lines 108-119 handles a snapshot operation that throws, which
    [backupMembers] never does. *)
Definition migrateTeamWith (save : string -> list Member -> M Sys BackupResult)
    (opts : MigrationOptions) (teamConfig : TeamConfig) : M Sys MigrationResult :=
  fun s =>
    match migrateTeamBody save opts teamConfig (s, emptyResult (teamId teamConfig)) with
    | (_, (s', result)) => (Ok result, s')
    end.

(** [migrateTeam] of the source. *)
Definition migrateTeam (opts : MigrationOptions) (teamConfig : TeamConfig)
  : M Sys MigrationResult :=
  migrateTeamWith (backupMembers opts) opts teamConfig.

(** *** Restore *)

Definition pushRestoreError (e : string) (r : RestoreResult) : RestoreResult :=
  {| success := success r; membersRestored := membersRestored r;
     rr_errors := rr_errors r ++ [e] |}.

Definition incMembersRestored (r : RestoreResult) : RestoreResult :=
  {| success := success r; membersRestored := S (membersRestored r);
     rr_errors := rr_errors r |}.

Definition setSuccess (b : bool) (r : RestoreResult) : RestoreResult :=
  {| success := b; membersRestored := membersRestored r; rr_errors := rr_errors r |}.

(** Lines 417-426: the method is called on a result object made for this
    call, which nothing reads afterwards. *)
Definition onFreshResult {R A} (team : string) (m : M (Sys * MigrationResult) A)
  : M (Sys * R) A :=
  fun '(s, r) => match m (s, emptyResult team) with
                 | (o, (s', _)) => (o, (s', r))
                 end.

(** Lines 409-433, the body of the loop of [restoreFromBackup]. *)
Definition restoreStep (opts : MigrationOptions) (teamConfig : TeamConfig)
    (m : Member) : M (Sys * RestoreResult) unit :=
  try_catch
    (if shouldIgnoreMember opts m then ret tt
     else
       onFreshResult (teamId teamConfig) (sendNewInvitation opts m teamConfig);;
       update incMembersRestored)
    (fun errorMessage =>
       update (pushRestoreError ("Error restoring member " +:+ email m +:+ ": "
                                 +:+ errorMessage))).

(** Lines 386-441, the outer [try] of [restoreFromBackup]. *)
Definition restoreBody (opts : MigrationOptions) (backupFilePath : string)
    (teamConfig : TeamConfig) : M (Sys * RestoreResult) unit :=
  try_catch
    (there <- liftSys (existsSync backupFilePath);;
     if negb there then
       update (pushRestoreError ("Backup file not found: " +:+ backupFilePath))
     else
       backupData <- liftSys (readFileSync backupFilePath);;
       members <- liftSys (parseMembers backupData);;
       if dryRun opts then update (setSuccess true)
       else
         forEach members (restoreStep opts teamConfig);;
         result <- getResult;;
         update (setSuccess (bool_decide (0 < membersRestored result)%nat)))
    (fun errorMessage =>
       update (pushRestoreError ("Error restoring from backup: " +:+ errorMessage))).

(** Lines 371-444. *)
Definition restoreFromBackup (opts : MigrationOptions) (backupFilePath : string)
    (teamConfig : TeamConfig) : M Sys RestoreResult :=
  fun s =>
    match restoreBody opts backupFilePath teamConfig
            (s, {| success := false; membersRestored := 0; rr_errors := [] |}) with
    | (_, (s', result)) => (Ok result, s')
    end.

End Program.


(** ** The driver: [src/index.ts]

    The script reads the environment and the command line, builds the
    options and the team list, and runs the service on each team. What is
    modelled: the team list taken from the environment, the ignore list,
    the options, and the two loops with their totals. The command-line
    parser, the check of [UNIFORM_API_URL], the teams file and the
    printing are left out; a [process.exit(1)] is the message printed
    before it. *)

(** [process.env], as far as the script reads it (the defaults of the
    command line apart). *)
Record Environment := {
  UNIFORM_API_KEY : option string;
  TEAM_IDS : option string;
  IGNORED_EMAILS : option string;
}.

(** [program.opts()]. *)
Record CommandLine := {
  teamsFile : string;
  cl_markObsolete : bool;
  cl_deleteMembers : bool;
  cl_backup : bool;
  backupDir : string;
  restoreFrom : string;
  cl_dryRun : bool;
  ignoreEmails : string;
}.

(** The totals of [runMigration]. *)
Record MigrationTotals := {
  totalMembers : nat;
  totalSkipped : nat;
  totalMarkedObsolete : nat;
  totalDeleted : nat;
  totalInvitations : nat;
  totalBackups : nat;
  totalErrors : nat;
}.

(** The totals of [runRestore]. *)
Record RestoreTotals := {
  totalRestored : nat;
  totalRestoreErrors : nat;
}.

(** [s.split(sep)] for a one-character separator. *)
Fixpoint split (sep : ascii) (s : string) : list string :=
  match s with
  | EmptyString => [EmptyString]
  | String c s' =>
      if Ascii.eqb c sep then EmptyString :: split sep s'
      else match split sep s' with
           | piece :: pieces => String c piece :: pieces
           | [] => [String c EmptyString]
           end
  end.

(** [[...new Set(l)]]: the elements in the order they are first met. *)
Definition unique (l : list string) : list string :=
  fold_left (fun seen x => if existsb (String.eqb x) seen then seen else seen ++ [x])
            l [].

Section Driver.

Context (js : Builtins) (w : World).

(** [String.prototype.trim] of the runtime. *)
Context (trim : string -> string).

(** [s.split(',').map(x => x.trim()).filter(Boolean)] *)
Definition commaList (s : string) : list string :=
  List.filter (fun x => negb (String.eqb x "")) (map trim (split "," s)).

(** Lines 120-137: the team list from [TEAM_IDS] and [UNIFORM_API_KEY]. *)
Definition teamConfigsFromEnvironment (env : Environment) : string + list TeamConfig :=
  let teamIds := match TEAM_IDS env with
                 | Some ids => commaList ids
                 | None => []
                 end in
  if bool_decide (length teamIds = 0%nat) then
    inl "Error: No team configurations provided. Use --teams-file option or set TEAM_IDS and UNIFORM_API_KEY in .env file"
  else
    match UNIFORM_API_KEY env with
    | None => inl "Error: UNIFORM_API_KEY environment variable is required when using TEAM_IDS"
    | Some key =>
        if String.eqb key ""
        then inl "Error: UNIFORM_API_KEY environment variable is required when using TEAM_IDS"
        else inr (map (fun team => {| teamId := team; tc_apiKey := key |}) teamIds)
    end.

(** Lines 139-149. *)
Definition combinedIgnoredEmails (env : Environment) (cl : CommandLine) : list string :=
  let envIgnoredEmails :=
    match IGNORED_EMAILS env with
    | Some list => if String.eqb list "" then [] else commaList list
    | None => []
    end in
  let additionalIgnoredEmails :=
    if String.eqb (ignoreEmails cl) "" then [] else commaList (ignoreEmails cl) in
  unique (envIgnoredEmails ++ additionalIgnoredEmails).

(** Lines 151-164. *)
Definition migrationOptions (env : Environment) (cl : CommandLine) : MigrationOptions :=
  {| markObsolete := cl_markObsolete cl && negb (cl_deleteMembers cl);
     deleteMembers := cl_deleteMembers cl;
     dryRun := cl_dryRun cl;
     backup := {| enabled := cl_backup cl; bo_path := backupDir cl |};
     ignoredEmails := Some (combinedIgnoredEmails env cl) |}.

(** Lines 266-274: the loop of [runMigration]; [service] is the options
    of [migrationService]. The object mutated is the array [results]. *)
Definition migrateTeams (service : MigrationOptions) (teamConfigs : list TeamConfig)
  : M (Sys * list MigrationResult) unit :=
  forEach teamConfigs (fun teamConfig =>
    try_catch
      (result <- liftSys (migrateTeam js w service teamConfig);;
       update (fun results => results ++ [result]))
      (fun _ => ret tt)).

(** Lines 281-317: the totals, one result after the other. *)
Definition migrationTotals (results : list MigrationResult) : MigrationTotals :=
  fold_left
    (fun t result =>
       {| totalMembers := totalMembers t + membersFound result;
          totalSkipped := totalSkipped t + skippedMembers result;
          totalMarkedObsolete := totalMarkedObsolete t + membersMarkedObsolete result;
          totalDeleted := totalDeleted t + membersDeleted result;
          totalInvitations := totalInvitations t + invitationsSent result;
          totalBackups := totalBackups t + (if backupCreated result then 1 else 0);
          totalErrors := totalErrors t + length (errors result) |})
    results
    {| totalMembers := 0; totalSkipped := 0; totalMarkedObsolete := 0;
       totalDeleted := 0; totalInvitations := 0; totalBackups := 0;
       totalErrors := 0 |}.

(** Lines 246-333, [runMigration]: the array [results] and the totals as
    they are when the function ends. *)
Definition runMigration (env : Environment) (cl : CommandLine)
    (teamConfigs : list TeamConfig)
  : M Sys (list MigrationResult * MigrationTotals) :=
  fun s =>
    match migrateTeams (MigrationService (migrationOptions env cl)) teamConfigs (s, []) with
    | (Ok _, (s', results)) => (Ok (results, migrationTotals results), s')
    | (Throw e, (s', _)) => (Throw e, s')
    end.

(** Lines 196-207: the loop of [runRestore]; a result is kept with the
    team it belongs to. *)
Definition restoreTeams (service : MigrationOptions) (file : string)
    (teamConfigs : list TeamConfig)
  : M (Sys * list (string * RestoreResult)) unit :=
  forEach teamConfigs (fun teamConfig =>
    try_catch
      (result <- liftSys (restoreFromBackup js w service file teamConfig);;
       update (fun results => results ++ [(teamId teamConfig, result)]))
      (fun _ => ret tt)).

(** Lines 214-223. *)
Definition restoreTotals (results : list (string * RestoreResult)) : RestoreTotals :=
  fold_left
    (fun t result =>
       {| totalRestored := totalRestored t + membersRestored (snd result);
          totalRestoreErrors := totalRestoreErrors t + length (rr_errors (snd result)) |})
    results
    {| totalRestored := 0; totalRestoreErrors := 0 |}.

(** Lines 180-243, [runRestore]. *)
Definition runRestore (env : Environment) (cl : CommandLine)
    (teamConfigs : list TeamConfig)
  : M Sys (list (string * RestoreResult) * RestoreTotals) :=
  fun s =>
    match restoreTeams (MigrationService (migrationOptions env cl)) (restoreFrom cl)
            teamConfigs (s, []) with
    | (Ok _, (s', results)) => (Ok (results, restoreTotals results), s')
    | (Throw e, (s', _)) => (Throw e, s')
    end.

(** Lines 171-177, [run]: restore when [--restore-from] is given. *)
Definition run (env : Environment) (cl : CommandLine) (teamConfigs : list TeamConfig)
  : M Sys (list MigrationResult * MigrationTotals
           + list (string * RestoreResult) * RestoreTotals) :=
  if String.eqb (restoreFrom cl) "" then
    fun s => match runMigration env cl teamConfigs s with
             | (Ok x, s') => (Ok (inl x), s')
             | (Throw e, s') => (Throw e, s')
             end
  else
    fun s => match runRestore env cl teamConfigs s with
             | (Ok x, s') => (Ok (inr x), s')
             | (Throw e, s') => (Throw e, s')
             end.

End Driver.
(** * Notions used in the statements *)

(** The three calls that mutate or invite a member. *)
Definition isMemberCall (e : Event) : bool :=
  match e with
  | EvInviteMember _ _ | EvUpdateMember _ _ | EvDeleteMember _ _ => true
  | _ => false
  end.

Definition isUpdateCall (e : Event) : bool :=
  match e with
  | EvUpdateMember _ _ => true
  | _ => false
  end.

(** The calls [processMember] can make for member [m]: the delete call only
    when deleting, the update call only when marking obsolete and not
    deleting, and the invitation. *)
Inductive MemberCall (opts : MigrationOptions) (tc : TeamConfig) (m : Member)
  : Event -> Prop :=
  | CallDelete :
      deleteMembers opts = true ->
      MemberCall opts tc m (EvDeleteMember (deleteRequest m tc) (tc_apiKey tc))
  | CallUpdate :
      deleteMembers opts = false ->
      markObsolete opts = true ->
      MemberCall opts tc m (EvUpdateMember (updateRequest m tc) (tc_apiKey tc))
  | CallInvite :
      MemberCall opts tc m (EvInviteMember (inviteRequest m tc) (tc_apiKey tc)).

(** A snapshot operation failed: it returned [success: false] or threw. *)
Definition saveFailed (o : Outcome BackupResult) : bool :=
  match o with
  | Ok b => negb (br_success b)
  | Throw _ => true
  end.

(** The error [migrateTeam] records for a failed snapshot operation. *)
Definition saveError (o : Outcome BackupResult) : string :=
  match o with
  | Ok b => "Failed to create backup: " +:+ shown (br_error b)
  | Throw e => "Error creating backup: " +:+ e
  end.

(** The error strings of the three operations. *)
Definition inviteError (m : Member) (resp : ApiResponse Payload) : string :=
  "Failed to send invitation to " +:+ email m +:+ ": " +:+ statusText resp.

Definition updateError (m : Member) (resp : ApiResponse Payload) : string :=
  "Failed to mark " +:+ email m +:+ " as obsolete: " +:+ statusText resp.

Definition deleteError (m : Member) (resp : ApiResponse Payload) : string :=
  "Failed to delete " +:+ email m +:+ ": " +:+ statusText resp.

(** What an operation does to the result object once the response is in. *)
Definition settle (counted : MigrationResult -> MigrationResult) (e : string)
    (resp : ApiResponse Payload) (r : MigrationResult) : MigrationResult :=
  if isSuccess (status resp) then counted r else pushError e r.

(** The members of a list the ignore check lets through, and those it
    stops. *)
Definition kept (js : Builtins) (opts : MigrationOptions) (ms : list Member)
  : list Member :=
  List.filter (fun m => negb (shouldIgnoreMember js opts m)) ms.

Definition ignored (js : Builtins) (opts : MigrationOptions) (ms : list Member)
  : list Member :=
  List.filter (shouldIgnoreMember js opts) ms.

(** The first argument when the second holds, else 0. *)
Definition onlyIf (n : nat) (b : bool) : nat := if b then n else 0%nat.

(** Every call of the axios instance that mutates or invites resolves with
    a 2xx response. *)
Definition allSucceed (w : World) : Prop :=
  (forall tr req key, exists resp,
      http_post w tr req key = AxResolve resp /\ isSuccess (status resp) = true)
  /\ (forall tr req key, exists resp,
      http_patch w tr req key = AxResolve resp /\ isSuccess (status resp) = true)
  /\ (forall tr req key, exists resp,
      http_delete w tr req key = AxResolve resp /\ isSuccess (status resp) = true).

(** Every invite call returns a response with a success status. *)
Definition invitesSucceed (w : World) : Prop :=
  forall tr req key, exists resp,
    http_post w tr req key = AxResolve resp /\ isSuccess (status resp) = true.

(** The members [migrateTeam] works on when started in state [s]: the data
    of the fetch when it answers with status 200, and none when it answers
    with another status or throws. *)
Definition fetchedMembers (w : World) (tc : TeamConfig) (s : Sys) : list Member :=
  match getMembers w (teamId tc) (tc_apiKey tc) s with
  | (Ok resp, _) => if bool_decide (status resp = 200%Z) then data resp else []
  | (Throw _, _) => []
  end.

(** The condition of line 89: the snapshot operation is called. *)
Definition backupRuns (opts : MigrationOptions) (ms : list Member) : bool :=
  enabled (backup opts) && bool_decide (0 < length ms)%nat.

(** [migrateTeam] returns at line 105 or 117: the snapshot operation was
    called on the members and failed, with [deleteMembers] set and [dryRun]
    unset. [o] is what the snapshot operation did. *)
Definition abortsAtBackup (opts : MigrationOptions) (ms : list Member)
    (o : Outcome BackupResult) : bool :=
  backupRuns opts ms && saveFailed o && deleteMembers opts && negb (dryRun opts).

(** The same for [migrateTeam] with the snapshot operation of the class,
    started in state [s]. *)
Definition migrationAborts (js : Builtins) (w : World) (opts : MigrationOptions)
    (tc : TeamConfig) (s : Sys) : bool :=
  abortsAtBackup opts (fetchedMembers w tc s)
    (backupMembers js w opts (teamId tc) (fetchedMembers w tc s)
       (log (EvGetMembers (teamId tc) (tc_apiKey tc)) s)).1.

(** The same options for a live pass. *)
Definition live (opts : MigrationOptions) : MigrationOptions :=
  {| markObsolete := markObsolete opts;
     deleteMembers := deleteMembers opts;
     dryRun := false;
     backup := backup opts;
     ignoredEmails := ignoredEmails opts |}.

(** The result object [restoreFromBackup] starts from. *)
Definition emptyRestore : RestoreResult :=
  {| success := false; membersRestored := 0; rr_errors := [] |}.

(** The error [restoreFromBackup] records when the invitation of a member
    throws. *)
Definition restoreError (m : Member) (e : string) : string :=
  "Error restoring member " +:+ email m +:+ ": " +:+ e.

(** What the client hands back for the invitation of each member of [ms]
    in turn, when they are invited one after the other and [tr] holds the
    calls made before. *)
Fixpoint inviteOutcomes (w : World) (tc : TeamConfig) (tr : list Event)
    (ms : list Member) : list (Member * Outcome (ApiResponse Payload)) :=
  match ms with
  | [] => []
  | m :: ms' =>
      (m, handOn (http_post w tr (inviteRequest m tc) (tc_apiKey tc)))
      :: inviteOutcomes w tc (tr ++ [EvInviteMember (inviteRequest m tc) (tc_apiKey tc)]) ms'
  end.

(** The invite call completed without a raised fault: the client handed
    back a response, of whatever status. *)
Definition answered (x : Member * Outcome (ApiResponse Payload)) : bool :=
  match snd x with
  | Ok _ => true
  | Throw _ => false
  end.

(** The errors [restoreFromBackup] records for the invitations that
    threw, in order. *)
Fixpoint faultErrors (l : list (Member * Outcome (ApiResponse Payload)))
  : list string :=
  match l with
  | [] => []
  | (m, Throw e) :: l' => restoreError m e :: faultErrors l'
  | (_, Ok _) :: l' => faultErrors l'
  end.

(** * Further notions *)

(** The calls a live turn of the member loop makes for a member the ignore
    check lets through, when no call throws: the delete or the update
    according to the flags, then the invitation. *)
Definition callsFor (opts : MigrationOptions) (tc : TeamConfig) (m : Member)
  : list Event :=
  (if deleteMembers opts
   then [EvDeleteMember (deleteRequest m tc) (tc_apiKey tc)]
   else if markObsolete opts
        then [EvUpdateMember (updateRequest m tc) (tc_apiKey tc)]
        else [])
  ++ [EvInviteMember (inviteRequest m tc) (tc_apiKey tc)].

(** The server answers every mutating call: no call of the axios instance
    is rejected without a response. *)
Definition answersAll (w : World) : Prop :=
  (forall tr req key, exists resp, handOn (http_post w tr req key) = Ok resp)
  /\ (forall tr req key, exists resp, handOn (http_patch w tr req key) = Ok resp)
  /\ (forall tr req key, exists resp, handOn (http_delete w tr req key) = Ok resp).

(** The disk accepts every directory creation and every write. *)
Definition noDiskFault (w : World) : Prop :=
  (forall tr p, mkdir_fault w tr p = None)
  /\ (forall tr p, write_fault w tr p = None).

(** Line 164: the name of the backup file for a timestamp. *)
Definition backupFileNameFor (team iso : string) : string :=
  "team-" +:+ team +:+ "-backup-" +:+ dashed iso +:+ ".json".

Definition isDiskCall (e : Event) : bool :=
  match e with
  | EvMkdir _ | EvWriteFile _ _ => true
  | _ => false
  end.

Definition isInviteCall (e : Event) : bool :=
  match e with
  | EvInviteMember _ _ => true
  | _ => false
  end.

Definition isDeleteCall (e : Event) : bool :=
  match e with
  | EvDeleteMember _ _ => true
  | _ => false
  end.

(** The error [migrateTeam] records when processing a member throws. *)
Definition memberError (m : Member) (e : string) : string :=
  "Error processing member " +:+ email m +:+ ": " +:+ e.

(** The invitation [restoreFromBackup] and [migrateTeam] send for a
    member. *)
Definition inviteCall (tc : TeamConfig) (m : Member) : Event :=
  EvInviteMember (inviteRequest m tc) (tc_apiKey tc).

(** [statusText || 'Unknown Error'] of an error response, as the error
    strings show it. *)
Definition shownStatus (resp : ApiResponse Payload) : string :=
  if decide (statusText resp = "") then "Unknown Error" else statusText resp.

(** What the flags allow a call to be: no delete call without
    [deleteMembers], no update call with [deleteMembers] or without
    [markObsolete], no update, delete or invite call in a dry run. *)
Definition callRespects (opts : MigrationOptions) (e : Event) : Prop :=
  (deleteMembers opts = false -> isDeleteCall e = false)
  /\ (deleteMembers opts = true \/ markObsolete opts = false -> isUpdateCall e = false)
  /\ (dryRun opts = true -> isMemberCall e = false).

(** What the flags allow the counters of a result to be. *)
Definition resultRespects (opts : MigrationOptions) (r : MigrationResult) : Prop :=
  (skippedMembers r + invitationsSent r <= membersFound r)%nat
  /\ (deleteMembers opts = false -> membersDeleted r = 0%nat)
  /\ (deleteMembers opts = true \/ markObsolete opts = false ->
      membersMarkedObsolete r = 0%nat).

(** * A sample runtime, for the closed examples

    A JSON printer and parser for member lists, in the layout of
    [JSON.stringify(members, null, 2)]; ASCII lower-casing; POSIX paths
    with a fixed working directory. The theorems below hold for every
    runtime; this one is used to run the program on concrete inputs. *)

Module Sample.

#[warnings="-register-all"]
Inductive JSONValue :=
  | JNull
  | JBool (b : bool)
  | JString (s : string)
  | JArray (items : list JSONValue)
  | JObject (fields : list (string * JSONValue)).

Definition dquote : ascii := "034"%char.
Definition backslash : ascii := "092"%char.
Definition newline : ascii := "010"%char.

Definition str (c : ascii) : string := String c EmptyString.

Fixpoint escape (s : string) : string :=
  match s with
  | EmptyString => EmptyString
  | String c s' =>
      if Ascii.eqb c dquote then String backslash (String dquote (escape s'))
      else if Ascii.eqb c backslash then String backslash (String backslash (escape s'))
      else if Ascii.eqb c newline then String backslash (String "n" (escape s'))
      else String c (escape s')
  end.

Definition quote (s : string) : string := str dquote +:+ escape s +:+ str dquote.

Fixpoint join (sep : string) (l : list string) : string :=
  match l with
  | [] => ""
  | [x] => x
  | x :: l' => x +:+ sep +:+ join sep l'
  end.

(** [print ind v]: the text of [v] when its first line starts at
    indentation [ind]. *)
Fixpoint print (ind : string) (v : JSONValue) : string :=
  let ind' := ind +:+ "  " in
  match v with
  | JNull => "null"
  | JBool true => "true"
  | JBool false => "false"
  | JString s => quote s
  | JArray [] => "[]"
  | JArray items =>
      "[" +:+ str newline
      +:+ join ("," +:+ str newline) (map (fun x => ind' +:+ print ind' x) items)
      +:+ str newline +:+ ind +:+ "]"
  | JObject [] => "{}"
  | JObject fields =>
      "{" +:+ str newline
      +:+ join ("," +:+ str newline)
            (map (fun '(k, x) => ind' +:+ quote k +:+ ": " +:+ print ind' x) fields)
      +:+ str newline +:+ ind +:+ "}"
  end.

Fixpoint skipWs (s : string) : string :=
  match s with
  | String c s' =>
      if Ascii.eqb c " " || Ascii.eqb c newline || Ascii.eqb c "009" || Ascii.eqb c "013"
      then skipWs s' else s
  | EmptyString => s
  end.

(** The characters of a string literal after its opening quote, and what
    follows its closing quote. *)
Fixpoint readString (s : string) : option (string * string) :=
  match s with
  | EmptyString => None
  | String c s' =>
      if Ascii.eqb c dquote then Some (EmptyString, s')
      else if Ascii.eqb c backslash then
        match s' with
        | String e s'' =>
            let c' := if Ascii.eqb e "n" then newline else e in
            match readString s'' with
            | Some (t, rest) => Some (String c' t, rest)
            | None => None
            end
        | EmptyString => None
        end
      else
        match readString s' with
        | Some (t, rest) => Some (String c t, rest)
        | None => None
        end
  end.

Definition expect (word : string) (v : JSONValue) (s : string)
  : option (JSONValue * string) :=
  if String.prefix word s
  then Some (v, String.substring (String.length word)
                                 (String.length s - String.length word) s)
  else None.

Fixpoint readValue (fuel : nat) (s : string) : option (JSONValue * string) :=
  match fuel with
  | O => None
  | S fuel' =>
      match skipWs s with
      | String c rest =>
          if Ascii.eqb c dquote then
            match readString rest with
            | Some (t, rest') => Some (JString t, rest')
            | None => None
            end
          else if Ascii.eqb c "[" then
            match skipWs rest with
            | String "]" rest' => Some (JArray [], rest')
            | _ =>
                match readItems fuel' rest with
                | Some (items, rest') => Some (JArray items, rest')
                | None => None
                end
            end
          else if Ascii.eqb c "{" then
            match skipWs rest with
            | String "}" rest' => Some (JObject [], rest')
            | _ =>
                match readFields fuel' rest with
                | Some (fields, rest') => Some (JObject fields, rest')
                | None => None
                end
            end
          else if Ascii.eqb c "t" then expect "rue" (JBool true) rest
          else if Ascii.eqb c "f" then expect "alse" (JBool false) rest
          else if Ascii.eqb c "n" then expect "ull" JNull rest
          else None
      | EmptyString => None
      end
  end
with readItems (fuel : nat) (s : string) : option (list JSONValue * string) :=
  match fuel with
  | O => None
  | S fuel' =>
      match readValue fuel' s with
      | Some (v, rest) =>
          match skipWs rest with
          | String "," rest' =>
              match readItems fuel' rest' with
              | Some (vs, rest'') => Some (v :: vs, rest'')
              | None => None
              end
          | String "]" rest' => Some ([v], rest')
          | _ => None
          end
      | None => None
      end
  end
with readFields (fuel : nat) (s : string)
  : option (list (string * JSONValue) * string) :=
  match fuel with
  | O => None
  | S fuel' =>
      match skipWs s with
      | String c rest =>
          if Ascii.eqb c dquote then
            match readString rest with
            | Some (k, rest1) =>
                match skipWs rest1 with
                | String ":" rest2 =>
                    match readValue fuel' rest2 with
                    | Some (v, rest3) =>
                        match skipWs rest3 with
                        | String "," rest4 =>
                            match readFields fuel' rest4 with
                            | Some (fs, rest5) => Some ((k, v) :: fs, rest5)
                            | None => None
                            end
                        | String "}" rest4 => Some ([(k, v)], rest4)
                        | _ => None
                        end
                    | None => None
                    end
                | _ => None
                end
            | None => None
            end
          else None
      | EmptyString => None
      end
  end.

(** The whole text is one value. *)
Definition parse (s : string) : option JSONValue :=
  match readValue (S (String.length s)) s with
  | Some (v, rest) => if decide (skipWs rest = "") then Some v else None
  | None => None
  end.

(** ** Members as JSON *)

Definition permissionName (p : UniformPermission) : string :=
  match p with
  | OPT_CREATE_ENRICHMENTS => "OPT_CREATE_ENRICHMENTS"
  | OPT_CREATE_INTENTS => "OPT_CREATE_INTENTS"
  | OPT_CREATE_QUIRKS => "OPT_CREATE_QUIRKS"
  | OPT_CREATE_SIGNALS => "OPT_CREATE_SIGNALS"
  | OPT_CREATE_TESTS => "OPT_CREATE_TESTS"
  | OPT_DELETE_ENRICHMENTS => "OPT_DELETE_ENRICHMENTS"
  | OPT_DELETE_INTENTS => "OPT_DELETE_INTENTS"
  | OPT_DELETE_QUIRKS => "OPT_DELETE_QUIRKS"
  | OPT_DELETE_SIGNALS => "OPT_DELETE_SIGNALS"
  | OPT_DELETE_TESTS => "OPT_DELETE_TESTS"
  | OPT_PUB => "OPT_PUB"
  | OPT_PUBLISH => "OPT_PUBLISH"
  | OPT_READ => "OPT_READ"
  | OPT_WRITE_ENRICHMENTS => "OPT_WRITE_ENRICHMENTS"
  | OPT_WRITE_INTENTS => "OPT_WRITE_INTENTS"
  | OPT_WRITE_QUIRKS => "OPT_WRITE_QUIRKS"
  | OPT_WRITE_SIGNALS => "OPT_WRITE_SIGNALS"
  | OPT_WRITE_TESTS => "OPT_WRITE_TESTS"
  | PRM_SCHEMA => "PRM_SCHEMA"
  | PROJECT => "PROJECT"
  | RDT_ADVANCED => "RDT_ADVANCED"
  | RDT_CREATE => "RDT_CREATE"
  | RDT_DELETE => "RDT_DELETE"
  | RDT_UPDATE => "RDT_UPDATE"
  | UPM_CREATE => "UPM_CREATE"
  | UPM_DATACONN => "UPM_DATACONN"
  | UPM_DATATYPE => "UPM_DATATYPE"
  | UPM_DELETE => "UPM_DELETE"
  | UPM_PUB => "UPM_PUB"
  | UPM_PUBLISH => "UPM_PUBLISH"
  | UPM_READ => "UPM_READ"
  | UPM_RELEASE_CREATE => "UPM_RELEASE_CREATE"
  | UPM_RELEASE_DELETE => "UPM_RELEASE_DELETE"
  | UPM_RELEASE_LAUNCH => "UPM_RELEASE_LAUNCH"
  | UPM_RELEASE_UPDATE => "UPM_RELEASE_UPDATE"
  | UPM_SCHEMA => "UPM_SCHEMA"
  | UPM_WRITE => "UPM_WRITE"
  | UTM_PUB => "UTM_PUB"
  | UTM_WRITE => "UTM_WRITE"
  end.

Definition allPermissions : list UniformPermission :=
  [ OPT_CREATE_ENRICHMENTS; OPT_CREATE_INTENTS; OPT_CREATE_QUIRKS; OPT_CREATE_SIGNALS;
    OPT_CREATE_TESTS; OPT_DELETE_ENRICHMENTS; OPT_DELETE_INTENTS; OPT_DELETE_QUIRKS;
    OPT_DELETE_SIGNALS; OPT_DELETE_TESTS; OPT_PUB; OPT_PUBLISH;
    OPT_READ; OPT_WRITE_ENRICHMENTS; OPT_WRITE_INTENTS; OPT_WRITE_QUIRKS;
    OPT_WRITE_SIGNALS; OPT_WRITE_TESTS; PRM_SCHEMA; PROJECT;
    RDT_ADVANCED; RDT_CREATE; RDT_DELETE; RDT_UPDATE;
    UPM_CREATE; UPM_DATACONN; UPM_DATATYPE; UPM_DELETE;
    UPM_PUB; UPM_PUBLISH; UPM_READ; UPM_RELEASE_CREATE;
    UPM_RELEASE_DELETE; UPM_RELEASE_LAUNCH; UPM_RELEASE_UPDATE; UPM_SCHEMA;
    UPM_WRITE; UTM_PUB; UTM_WRITE ].

Definition permissionOfName (s : string) : option UniformPermission :=
  List.find (fun p => String.eqb (permissionName p) s) allPermissions.

Definition optional (k : string) (v : option JSONValue) : list (string * JSONValue) :=
  match v with
  | Some x => [(k, x)]
  | None => []
  end.

Definition rolesToJSON (pr : ProjectRoles) : JSONValue :=
  JObject
    ([("roles", JArray (map JString (roles pr)))]
     ++ optional "customPermissions"
          (option_map (fun ps => JArray (map (fun p => JString (permissionName p)) ps))
                      (customPermissions pr))
     ++ optional "name" (option_map JString (pr_name pr))).

Definition memberToJSON (m : Member) : JSONValue :=
  JObject
    ([("subject", JString (subject m));
      ("name", JString (name m));
      ("email", JString (email m))]
     ++ optional "picture" (option_map JString (picture m))
     ++ [("isTeamAdmin", JBool (isTeamAdmin m));
         ("projects", JObject (map (fun '(k, pr) => (k, rolesToJSON pr)) (projects m)));
         ("type", JString (match type m with member => "member" | apiKey => "apiKey" end));
         ("memberSince", JString (memberSince m))]).

Definition stringify (members : list Member) : string :=
  print "" (JArray (map memberToJSON members)).

Definition andThen {A B} (o : option A) (f : A -> option B) : option B :=
  match o with
  | Some x => f x
  | None => None
  end.

Fixpoint traverse {A B} (f : A -> option B) (l : list A) : option (list B) :=
  match l with
  | [] => Some []
  | x :: l' =>
      andThen (f x) (fun y => andThen (traverse f l') (fun ys => Some (y :: ys)))
  end.

Definition field (k : string) (v : JSONValue) : option JSONValue :=
  match v with
  | JObject fields =>
      match List.find (fun kv => String.eqb (fst kv) k) fields with
      | Some kv => Some (snd kv)
      | None => None
      end
  | _ => None
  end.

Definition asString (v : JSONValue) : option string :=
  match v with JString s => Some s | _ => None end.

Definition asBool (v : JSONValue) : option bool :=
  match v with JBool b => Some b | _ => None end.

Definition asArray (v : JSONValue) : option (list JSONValue) :=
  match v with JArray l => Some l | _ => None end.

Definition asObject (v : JSONValue) : option (list (string * JSONValue)) :=
  match v with JObject l => Some l | _ => None end.

Definition stringField (k : string) (v : JSONValue) : option string :=
  andThen (field k v) asString.

(** An absent [customPermissions] is [undefined]. *)
Definition permissionsOfJSON (v : JSONValue)
  : option (option (list UniformPermission)) :=
  match field "customPermissions" v with
  | Some x =>
      match andThen (asArray x)
              (traverse (fun y => andThen (asString y) permissionOfName)) with
      | Some ps => Some (Some ps)
      | None => None
      end
  | None => Some None
  end.

Definition rolesOfJSON (v : JSONValue) : option ProjectRoles :=
  andThen (andThen (andThen (field "roles" v) asArray) (traverse asString)) (fun rs =>
  andThen (permissionsOfJSON v) (fun ps =>
  Some {| roles := rs; customPermissions := ps; pr_name := stringField "name" v |})).

Definition entryOfJSON (kv : string * JSONValue) : option (string * ProjectRoles) :=
  andThen (rolesOfJSON (snd kv)) (fun pr => Some (fst kv, pr)).

Definition typeOfName (t : string) : option MemberType :=
  if String.eqb t "member" then Some member
  else if String.eqb t "apiKey" then Some apiKey else None.

Definition memberOfJSON (v : JSONValue) : option Member :=
  andThen (stringField "subject" v) (fun sub =>
  andThen (stringField "name" v) (fun nm =>
  andThen (stringField "email" v) (fun em =>
  andThen (andThen (field "isTeamAdmin" v) asBool) (fun adm =>
  andThen (andThen (andThen (field "projects" v) asObject) (traverse entryOfJSON))
          (fun prj =>
  andThen (andThen (stringField "type" v) typeOfName) (fun ty =>
  andThen (stringField "memberSince" v) (fun since =>
  Some {| subject := sub; name := nm; email := em;
          picture := stringField "picture" v;
          isTeamAdmin := adm; projects := prj; type := ty;
          memberSince := since |}))))))).

Definition parseMemberList (text : string) : string + list Member :=
  match andThen (andThen (parse text) asArray) (traverse memberOfJSON) with
  | Some members => inr members
  | None => inl "Unexpected token in JSON"
  end.

(** ** Strings and paths *)

Definition lowerChar (c : ascii) : ascii :=
  let n := nat_of_ascii c in
  if (65 <=? n)%nat && (n <=? 90)%nat then ascii_of_nat (n + 32) else c.

Fixpoint lower (s : string) : string :=
  match s with
  | EmptyString => EmptyString
  | String c s' => String (lowerChar c) (lower s')
  end.

(** [path.resolve] with working directory [/work]. *)
Definition resolve (p : string) : string :=
  if String.prefix "/" p then p
  else if String.prefix "./" p
       then "/work/" +:+ String.substring 2 (String.length p - 2) p
       else "/work/" +:+ p.

Definition js : Builtins :=
  {| toLowerCase := lower;
     JSON_stringify := stringify;
     JSON_parse := parseMemberList;
     path_resolve := resolve;
     path_join := fun a b => a +:+ "/" +:+ b |}.

(** ** A team, and hosts that answer in various ways *)

Definition ann : Member :=
  {| subject := "auth0|ann"; name := "Ann Lee"; email := "Ann.Lee@example.com";
     picture := None; isTeamAdmin := true;
     projects :=
       [("p-1", {| roles := ["editor"; "publisher"];
                   customPermissions := Some [UPM_READ; UPM_WRITE];
                   pr_name := Some "Site" |});
        ("p-2", {| roles := []; customPermissions := None; pr_name := None |})];
     type := member; memberSince := "2021-03-04T10:00:00.000Z" |}.

Definition bob : Member :=
  {| subject := "auth0|bob"; name := "Bob"; email := "bob@example.com";
     picture := Some "https://example.com/bob.png"; isTeamAdmin := false;
     projects := [];
     type := member; memberSince := "2022-11-30T08:15:00.000Z" |}.

(** A member whose email is on the ignore list of [options], in another
    case. *)
Definition root : Member :=
  {| subject := "auth0|root"; name := "Root"; email := "Root@Example.com";
     picture := None; isTeamAdmin := true;
     projects := [("p-1", {| roles := ["admin"]; customPermissions := Some [];
                             pr_name := None |})];
     type := member; memberSince := "2020-01-01T00:00:00.000Z" |}.

Definition team : TeamConfig := {| teamId := "team-7"; tc_apiKey := "key-7" |}.

Definition options (obsolete delete dry : bool) : MigrationOptions :=
  MigrationService
    {| markObsolete := obsolete; deleteMembers := delete; dryRun := dry;
       backup := {| enabled := true; bo_path := "./backups" |};
       ignoredEmails := Some ["root@example.COM"] |}.

(** Options for a restore: live, nothing ignored. *)
Definition restoreOptions : MigrationOptions :=
  MigrationService
    {| markObsolete := false; deleteMembers := false; dryRun := false;
       backup := {| enabled := true; bo_path := "./backups" |};
       ignoredEmails := None |}.

Definition answer {T} (d : T) (code : Z) (text : string) : ApiResponse T :=
  {| data := d; status := code; statusText := text |}.

(** Every call succeeds and the disk takes every write. *)
Definition calm : World :=
  {| http_get := fun _ _ _ => AxResolve (answer [ann; root; bob] 200 "OK");
     http_post := fun _ _ _ => AxResolve (answer (Some "{}") 201 "Created");
     http_patch := fun _ _ _ => AxResolve (answer (Some "{}") 200 "OK");
     http_delete := fun _ _ _ => AxResolve (answer None 204 "No Content");
     mkdir_fault := fun _ _ => None;
     write_fault := fun _ _ => None;
     now := fun _ => "2023-05-01T12:00:00.000Z" |}.

(** The disk refuses every write. *)
Definition readOnlyDisk : World :=
  {| http_get := http_get calm; http_post := http_post calm;
     http_patch := http_patch calm; http_delete := http_delete calm;
     mkdir_fault := mkdir_fault calm;
     write_fault := fun _ _ => Some (OpenFails "EROFS: read-only file system, open");
     now := now calm |}.

(** The fetch is refused. *)
Definition forbidden : World :=
  {| http_get := fun _ _ _ => AxRejectResponse (answer None 403 "Forbidden");
     http_post := http_post calm; http_patch := http_patch calm;
     http_delete := http_delete calm; mkdir_fault := mkdir_fault calm;
     write_fault := write_fault calm; now := now calm |}.

(** Every mutating call is answered with a redirection. *)
Definition redirecting : World :=
  {| http_get := http_get calm;
     http_post := fun _ _ _ => AxRejectResponse (answer None 302 "Found");
     http_patch := fun _ _ _ => AxRejectResponse (answer None 302 "Found");
     http_delete := fun _ _ _ => AxRejectResponse (answer None 302 "Found");
     mkdir_fault := mkdir_fault calm; write_fault := write_fault calm;
     now := now calm |}.

(** Every invitation is answered with a server error. *)
Definition failingInvites : World :=
  {| http_get := http_get calm;
     http_post := fun _ _ _ =>
       AxRejectResponse (answer (Some "{}") 500 "Internal Server Error");
     http_patch := http_patch calm; http_delete := http_delete calm;
     mkdir_fault := mkdir_fault calm; write_fault := write_fault calm;
     now := now calm |}.

(** A fresh process on an empty disk. *)
Definition boot : Sys := {| trace := []; files := ∅; dirs := ∅ |}.

(** The path of the backup the sample clock leads to. *)
Definition backupFile : string :=
  "/work/backups/team-team-7-backup-2023-05-01T12-00-00-000Z.json".

(** A disk that holds a backup of [ann] alone, one of nobody, and one that
    is not JSON. *)
Definition disk : Sys :=
  {| trace := [];
     files := {[ "/b/one.json" := stringify [ann];
                 "/b/none.json" := "[]";
                 "/b/bad.json" := "oops" ]};
     dirs := {[ "/b" ]} |}.

(** ** More hosts, and the inputs of the driver *)

(** No network: the fetch is rejected without a response. *)
Definition offline : World :=
  {| http_get := fun _ _ _ => AxReject "connect ECONNREFUSED";
     http_post := http_post calm; http_patch := http_patch calm;
     http_delete := http_delete calm; mkdir_fault := mkdir_fault calm;
     write_fault := write_fault calm; now := now calm |}.

(** The connection drops on every delete and every update. *)
Definition dropping : World :=
  {| http_get := http_get calm; http_post := http_post calm;
     http_patch := fun _ _ _ => AxReject "socket hang up";
     http_delete := fun _ _ _ => AxReject "socket hang up";
     mkdir_fault := mkdir_fault calm; write_fault := write_fault calm;
     now := now calm |}.

(** Every invitation is refused by a gateway that gives no status text. *)
Definition silent : World :=
  {| http_get := http_get calm;
     http_post := fun _ _ _ => AxRejectResponse (answer None 502 "");
     http_patch := http_patch calm; http_delete := http_delete calm;
     mkdir_fault := mkdir_fault calm; write_fault := write_fault calm;
     now := now calm |}.

(** [options] with backup disabled. *)
Definition optionsWithoutBackup (obsolete delete dry : bool) : MigrationOptions :=
  MigrationService
    {| markObsolete := obsolete; deleteMembers := delete; dryRun := dry;
       backup := {| enabled := false; bo_path := "./backups" |};
       ignoredEmails := Some ["root@example.COM"] |}.

Fixpoint trimRight (s : string) : string :=
  match s with
  | EmptyString => EmptyString
  | String c s' =>
      let t := trimRight s' in
      if (Ascii.eqb c " " || Ascii.eqb c newline || Ascii.eqb c "009" || Ascii.eqb c "013")
         && String.eqb t ""
      then EmptyString else String c t
  end.

(** [trim] on ASCII white space. *)
Definition trim (s : string) : string := trimRight (skipWs s).

Definition environment : Environment :=
  {| UNIFORM_API_KEY := Some "key-7";
     TEAM_IDS := Some "team-7, team-8,,";
     IGNORED_EMAILS := Some "root@example.COM, ops@example.com" |}.

(** Both [--mark-obsolete] and [--delete-members], live. *)
Definition commandLine : CommandLine :=
  {| teamsFile := ""; cl_markObsolete := true; cl_deleteMembers := true;
     cl_backup := true; backupDir := "./backups"; restoreFrom := "";
     cl_dryRun := false; ignoreEmails := "ops@example.com ,Bob@example.com" |}.

(** A dry-run restore of the backup of one member. *)
Definition restoreCommandLine : CommandLine :=
  {| teamsFile := ""; cl_markObsolete := false; cl_deleteMembers := false;
     cl_backup := true; backupDir := "./backups"; restoreFrom := "/b/one.json";
     cl_dryRun := true; ignoreEmails := "" |}.

Definition teams : list TeamConfig :=
  [{| teamId := "team-7"; tc_apiKey := "key-7" |};
   {| teamId := "team-8"; tc_apiKey := "key-7" |}].

(** The backup directory cannot be created. *)
Definition lockedDisk : World :=
  {| http_get := http_get calm; http_post := http_post calm;
     http_patch := http_patch calm; http_delete := http_delete calm;
     mkdir_fault := fun _ _ => Some "EACCES: permission denied, mkdir";
     write_fault := write_fault calm; now := now calm |}.

(** Bob under another spelling of his email. *)
Definition bobShouting : Member :=
  {| subject := "auth0|bob2"; name := "BOB"; email := "BOB@EXAMPLE.COM";
     picture := None; isTeamAdmin := false; projects := [];
     type := member; memberSince := "2023-01-01T00:00:00.000Z" |}.

(** The disk is full: the backup file is created, and the write fails
    with nothing written. *)
Definition fullDisk : World :=
  {| http_get := http_get calm; http_post := http_post calm;
     http_patch := http_patch calm; http_delete := http_delete calm;
     mkdir_fault := mkdir_fault calm;
     write_fault := fun _ _ =>
       Some (WriteFails "ENOSPC: no space left on device, write" "");
     now := now calm |}.

(** The backup directory is there, with an older file in it. *)
Definition usedDisk : Sys :=
  {| trace := [];
     files := {[ "/work/backups/old.json" := "[]" ]};
     dirs := {[ "/work/backups" ]} |}.

(** A regular file sits at the path of the backup directory. *)
Definition blockedDisk : Sys :=
  {| trace := []; files := {[ "/work/backups" := "not a directory" ]}; dirs := ∅ |}.

End Sample.
(** * Properties *)

#[local] Ltac unfold_monad :=
  unfold bind, ret, throw, try_catch, modify, update, liftSys, getResult,
    onFreshResult in *.

Section Theory.

Context (js : Builtins) (w : World).

(** ** The fetch step *)

Lemma getMembers_trace team key s o s' :
  getMembers w team key s = (o, s') -> s' = log (EvGetMembers team key) s.
Proof.
  unfold getMembers. destruct (http_get w (trace s) team key); congruence.
Qed.

Lemma migrateTeamWith_fetch_refused save opts tc s resp s1 :
  getMembers w (teamId tc) (tc_apiKey tc) s = (Ok resp, s1) ->
  status resp <> 200%Z ->
  migrateTeamWith js w save opts tc s
  = (Ok (pushError ("Failed to get members: " +:+ statusText resp)
                   (emptyResult (teamId tc))), s1).
Proof.
  intros Hget Hne.
  unfold migrateTeamWith, migrateTeamBody. unfold_monad.
  rewrite Hget. rewrite bool_decide_eq_false_2 by assumption. reflexivity.
Qed.

(** ** The backup step *)

Lemma backupStep_abort save opts team members s r o s' :
  enabled (backup opts) = true ->
  deleteMembers opts = true ->
  dryRun opts = false ->
  members <> [] ->
  save team members s = (o, s') ->
  saveFailed o = true ->
  exists r',
    backupStep save opts team members (s, r) = (Ok true, (s', r'))
    /\ errors r' = errors r ++ [saveError o; abortMessage]
    /\ membersFound r' = membersFound r
    /\ membersMarkedObsolete r' = membersMarkedObsolete r
    /\ membersDeleted r' = membersDeleted r
    /\ invitationsSent r' = invitationsSent r
    /\ skippedMembers r' = skippedMembers r.
Proof.
  intros He Hd Hdry Hne Hsave Hfail.
  unfold backupStep, abortIfDeleting. rewrite He, Hd, Hdry.
  rewrite bool_decide_eq_true_2 by (destruct members; [done | simpl; lia]).
  unfold_monad. simpl. rewrite Hsave.
  destruct o as [b | e]; simpl in *.
  - apply negb_true_iff in Hfail. rewrite Hfail. simpl.
    eexists. split; [reflexivity |]. simpl.
    rewrite <- app_assoc. repeat split; reflexivity.
  - eexists. split; [reflexivity |]. simpl.
    rewrite <- app_assoc. repeat split; reflexivity.
Qed.



(** ** The three operations on one member *)

Lemma sendNewInvitation_dry opts m tc st :
  dryRun opts = true ->
  sendNewInvitation w opts m tc st = (Ok tt, (st.1, incInvitationsSent st.2)).
Proof. intros H. unfold sendNewInvitation. rewrite H. by destruct st. Qed.

Lemma markMemberAsObsolete_dry opts m tc st :
  dryRun opts = true ->
  markMemberAsObsolete w opts m tc st = (Ok tt, (st.1, incMembersMarkedObsolete st.2)).
Proof. intros H. unfold markMemberAsObsolete. rewrite H. by destruct st. Qed.

Lemma deleteMember_dry opts m tc st :
  dryRun opts = true ->
  deleteMember w opts m tc st = (Ok tt, (st.1, incMembersDeleted st.2)).
Proof. intros H. unfold deleteMember. rewrite H. by destruct st. Qed.

Lemma sendNewInvitation_live opts m tc s r :
  dryRun opts = false ->
  sendNewInvitation w opts m tc (s, r)
  = match handOn (http_post w (trace s) (inviteRequest m tc) (tc_apiKey tc)) with
    | Ok resp =>
        (Ok tt, (log (EvInviteMember (inviteRequest m tc) (tc_apiKey tc)) s,
                 settle incInvitationsSent (inviteError m resp) resp r))
    | Throw e =>
        (Throw e, (log (EvInviteMember (inviteRequest m tc) (tc_apiKey tc)) s, r))
    end.
Proof.
  intros H. unfold sendNewInvitation, inviteMember, settle, inviteError.
  rewrite H. unfold_monad.
  destruct (handOn _) as [resp | e]; [| reflexivity].
  by destruct (isSuccess (status resp)).
Qed.

Lemma markMemberAsObsolete_live opts m tc s r :
  dryRun opts = false ->
  markMemberAsObsolete w opts m tc (s, r)
  = match handOn (http_patch w (trace s) (updateRequest m tc) (tc_apiKey tc)) with
    | Ok resp =>
        (Ok tt, (log (EvUpdateMember (updateRequest m tc) (tc_apiKey tc)) s,
                 settle incMembersMarkedObsolete (updateError m resp) resp r))
    | Throw e =>
        (Throw e, (log (EvUpdateMember (updateRequest m tc) (tc_apiKey tc)) s, r))
    end.
Proof.
  intros H. unfold markMemberAsObsolete, updateMember, settle, updateError.
  rewrite H. unfold_monad.
  destruct (handOn _) as [resp | e]; [| reflexivity].
  by destruct (isSuccess (status resp)).
Qed.

Lemma deleteMember_live opts m tc s r :
  dryRun opts = false ->
  deleteMember w opts m tc (s, r)
  = match handOn (http_delete w (trace s) (deleteRequest m tc) (tc_apiKey tc)) with
    | Ok resp =>
        (Ok tt, (log (EvDeleteMember (deleteRequest m tc) (tc_apiKey tc)) s,
                 settle incMembersDeleted (deleteError m resp) resp r))
    | Throw e =>
        (Throw e, (log (EvDeleteMember (deleteRequest m tc) (tc_apiKey tc)) s, r))
    end.
Proof.
  intros H. unfold deleteMember, deleteMember_client, settle, deleteError.
  rewrite H. unfold_monad.
  destruct (handOn _) as [resp | e]; [| reflexivity].
  by destruct (isSuccess (status resp)).
Qed.

(** C2, amended. In live mode each of the three operations, once the client
    has handed back a response, counts the member exactly when
    [200 <= status < 300] and leaves the errors alone; for any other status
    (3xx included) it appends one error and leaves the counter alone. *)
Theorem live_counter_iff_2xx opts m tc s r resp s' :
  dryRun opts = false ->
  (updateMember w (updateRequest m tc) (tc_apiKey tc) s = (Ok resp, s') ->
   exists r',
     markMemberAsObsolete w opts m tc (s, r) = (Ok tt, (s', r'))
     /\ ((200 <= status resp < 300)%Z ->
         membersMarkedObsolete r' = S (membersMarkedObsolete r)
         /\ errors r' = errors r)
     /\ (~ (200 <= status resp < 300)%Z ->
         membersMarkedObsolete r' = membersMarkedObsolete r
         /\ errors r' = errors r ++ [updateError m resp]))
  /\ (deleteMember_client w (deleteRequest m tc) (tc_apiKey tc) s = (Ok resp, s') ->
      exists r',
        deleteMember w opts m tc (s, r) = (Ok tt, (s', r'))
        /\ ((200 <= status resp < 300)%Z ->
            membersDeleted r' = S (membersDeleted r)
            /\ errors r' = errors r)
        /\ (~ (200 <= status resp < 300)%Z ->
            membersDeleted r' = membersDeleted r
            /\ errors r' = errors r ++ [deleteError m resp]))
  /\ (inviteMember w (inviteRequest m tc) (tc_apiKey tc) s = (Ok resp, s') ->
      exists r',
        sendNewInvitation w opts m tc (s, r) = (Ok tt, (s', r'))
        /\ ((200 <= status resp < 300)%Z ->
            invitationsSent r' = S (invitationsSent r)
            /\ errors r' = errors r)
        /\ (~ (200 <= status resp < 300)%Z ->
            invitationsSent r' = invitationsSent r
            /\ errors r' = errors r ++ [inviteError m resp])).
Proof.
  intros Hlive.
  assert (Hs : forall c : Z, isSuccess c = true <-> (200 <= c < 300)%Z).
  { intros c. unfold isSuccess. rewrite andb_true_iff, Z.leb_le, Z.ltb_lt. tauto. }
  split; [| split].
  - intros Hcall. rewrite markMemberAsObsolete_live by assumption.
    unfold updateMember in Hcall. injection Hcall as -> <-.
    eexists. split; [reflexivity |]. unfold settle.
    split; intros Hst.
    + apply Hs in Hst. rewrite Hst. split; reflexivity.
    + destruct (isSuccess (status resp)) eqn:E; [apply Hs in E; contradiction |].
      split; reflexivity.
  - intros Hcall. rewrite deleteMember_live by assumption.
    unfold deleteMember_client in Hcall. injection Hcall as -> <-.
    eexists. split; [reflexivity |]. unfold settle.
    split; intros Hst.
    + apply Hs in Hst. rewrite Hst. split; reflexivity.
    + destruct (isSuccess (status resp)) eqn:E; [apply Hs in E; contradiction |].
      split; reflexivity.
  - intros Hcall. rewrite sendNewInvitation_live by assumption.
    unfold inviteMember in Hcall. injection Hcall as -> <-.
    eexists. split; [reflexivity |]. unfold settle.
    split; intros Hst.
    + apply Hs in Hst. rewrite Hst. split; reflexivity.
    + destruct (isSuccess (status resp)) eqn:E; [apply Hs in E; contradiction |].
      split; reflexivity.
Qed.

(** ** One turn of the member loop *)

Lemma memberStep_ignored opts tc m st :
  shouldIgnoreMember js opts m = true ->
  memberStep js w opts tc m st = (Ok tt, (st.1, incSkippedMembers st.2)).
Proof. intros H. unfold memberStep. rewrite H. by destruct st. Qed.

Lemma memberStep_dry opts tc m st :
  dryRun opts = true ->
  shouldIgnoreMember js opts m = false ->
  memberStep js w opts tc m st
  = (Ok tt, (st.1,
             incInvitationsSent
               (if deleteMembers opts then incMembersDeleted st.2
                else if markObsolete opts then incMembersMarkedObsolete st.2
                else st.2))).
Proof.
  intros Hdry Hig. unfold memberStep, processMember. rewrite Hig.
  unfold try_catch, bind.
  destruct (deleteMembers opts); [| destruct (markObsolete opts)].
  - rewrite deleteMember_dry, sendNewInvitation_dry by assumption. reflexivity.
  - rewrite markMemberAsObsolete_dry, sendNewInvitation_dry by assumption. reflexivity.
  - unfold ret. rewrite sendNewInvitation_dry by assumption. by destruct st.
Qed.

(** What one turn of the loop does, in any mode and whatever the host
    answers: it never throws, it touches neither file nor directory, the
    calls it makes are calls for its member, and it makes none for an
    ignored member or in a dry run. *)
Lemma memberStep_calls opts tc m s r :
  exists s' r' evs,
    memberStep js w opts tc m (s, r) = (Ok tt, (s', r'))
    /\ trace s' = trace s ++ evs
    /\ files s' = files s /\ dirs s' = dirs s
    /\ Forall (MemberCall opts tc m) evs
    /\ (shouldIgnoreMember js opts m = true -> evs = [])
    /\ (dryRun opts = true -> evs = [])
    /\ skippedMembers r'
       = (skippedMembers r + onlyIf 1 (shouldIgnoreMember js opts m))%nat
    /\ (deleteMembers opts = true ->
        membersMarkedObsolete r' = membersMarkedObsolete r).
Proof.
  destruct (shouldIgnoreMember js opts m) eqn:Hig.
  { rewrite memberStep_ignored by assumption. simpl.
    exists s, (incSkippedMembers r), []. rewrite app_nil_r.
    repeat split; auto. simpl. lia. }
  destruct (dryRun opts) eqn:Hdry.
  { rewrite memberStep_dry by assumption. simpl.
    eexists s, _, []. rewrite app_nil_r.
    split; [reflexivity |]. repeat split; auto.
    - destruct (deleteMembers opts), (markObsolete opts); simpl; lia.
    - intros ->. reflexivity. }
  unfold memberStep, processMember. rewrite Hig.
  unfold try_catch, bind.
  destruct (deleteMembers opts) eqn:Hd; [| destruct (markObsolete opts) eqn:Hm];
    unfold ret;
    rewrite ?deleteMember_live, ?markMemberAsObsolete_live by assumption;
    try destruct (handOn (http_delete _ _ _ _)) as [resp | e];
    try destruct (handOn (http_patch _ _ _ _)) as [resp | e];
    rewrite ?sendNewInvitation_live by assumption;
    try destruct (handOn (http_post _ _ _ _)) as [resp' | e'];
    (eexists _, _, _; split; [reflexivity |]); simpl;
    rewrite <- ?app_assoc;
    (split; [reflexivity |]);
    repeat split; auto; try discriminate;
    try (repeat constructor; assumption);
    unfold settle; repeat destruct (isSuccess _); simpl; lia.
Qed.

(** ** The member loop *)

(** In any mode the loop runs to its end without throwing; its calls are
    calls for members the ignore check lets through; every ignored member
    is counted once in [skippedMembers]. *)
Lemma memberLoop_calls opts tc ms : forall s r,
  exists s' r' evs,
    forEach ms (memberStep js w opts tc) (s, r) = (Ok tt, (s', r'))
    /\ trace s' = trace s ++ evs
    /\ files s' = files s /\ dirs s' = dirs s
    /\ Forall (fun e => exists m, m ∈ ms /\ shouldIgnoreMember js opts m = false
                                  /\ MemberCall opts tc m e) evs
    /\ (dryRun opts = true -> evs = [])
    /\ skippedMembers r' = (skippedMembers r + length (ignored js opts ms))%nat
    /\ (deleteMembers opts = true ->
        membersMarkedObsolete r' = membersMarkedObsolete r).
Proof.
  induction ms as [| m ms IH]; intros s r.
  - exists s, r, []. simpl. rewrite app_nil_r.
    repeat split; auto.
  - destruct (memberStep_calls opts tc m s r)
      as (s1 & r1 & evs1 & Hstep & Htr1 & Hf1 & Hd1 & Hall1 & Hig1 & Hdry1 & Hsk1 & Hobs1).
    destruct (IH s1 r1)
      as (s2 & r2 & evs2 & Hloop & Htr2 & Hf2 & Hd2 & Hall2 & Hdry2 & Hsk2 & Hobs2).
    exists s2, r2, (evs1 ++ evs2).
    split; [| split; [| split; [| split; [| split; [| split; [| split]]]]]].
    + simpl. unfold bind. rewrite Hstep. exact Hloop.
    + rewrite Htr2, Htr1, app_assoc. reflexivity.
    + congruence.
    + congruence.
    + apply Forall_app. split.
      * destruct (shouldIgnoreMember js opts m) eqn:Hig.
        { rewrite Hig1 by reflexivity. constructor. }
        eapply Forall_impl; [exact Hall1 |]. intros e He.
        exists m. split; [left | split; assumption].
      * eapply Forall_impl; [exact Hall2 |].
        intros e (m' & Hin & Hk & Hc). exists m'. split; [by right | by split].
    + intros Hdry. rewrite Hdry1, Hdry2 by assumption. reflexivity.
    + rewrite Hsk2, Hsk1. unfold ignored. simpl.
      destruct (shouldIgnoreMember js opts m); simpl; lia.
    + intros Hd. rewrite Hobs2, Hobs1 by assumption. reflexivity.
Qed.

(** In a dry run the loop changes nothing but the counters: every member
    the ignore check lets through is counted as invited, and as deleted or
    marked obsolete according to the options. *)
Lemma memberLoop_dry opts tc ms :
  dryRun opts = true ->
  forall s r,
  exists r',
    forEach ms (memberStep js w opts tc) (s, r) = (Ok tt, (s, r'))
    /\ membersDeleted r'
       = (membersDeleted r + onlyIf (length (kept js opts ms)) (deleteMembers opts))%nat
    /\ membersMarkedObsolete r'
       = (membersMarkedObsolete r
          + onlyIf (length (kept js opts ms))
                   (negb (deleteMembers opts) && markObsolete opts))%nat
    /\ invitationsSent r' = (invitationsSent r + length (kept js opts ms))%nat
    /\ skippedMembers r' = (skippedMembers r + length (ignored js opts ms))%nat
    /\ errors r' = errors r
    /\ membersFound r' = membersFound r.
Proof.
  intros Hdry. unfold kept, ignored.
  induction ms as [| m ms IH]; intros s r.
  - exists r. simpl. unfold onlyIf.
    destruct (deleteMembers opts), (markObsolete opts); simpl;
      repeat split; auto; lia.
  - simpl. unfold bind.
    destruct (shouldIgnoreMember js opts m) eqn:Hig.
    + rewrite memberStep_ignored by assumption. simpl.
      destruct (IH s (incSkippedMembers r)) as (r' & -> & H1 & H2 & H3 & H4 & H5 & H6).
      exists r'. simpl in *. repeat split; auto; lia.
    + rewrite memberStep_dry by assumption. simpl.
      match goal with |- context [forEach ms _ (s, ?x)] =>
        destruct (IH s x) as (r' & -> & H1 & H2 & H3 & H4 & H5 & H6) end.
      exists r'. unfold onlyIf in *.
      destruct (deleteMembers opts), (markObsolete opts); simpl in *;
        repeat split; auto; lia.
Qed.

(** The same counts come out of a live pass in which every call succeeds,
    and no error is recorded. *)
Lemma memberLoop_live_all_succeed opts tc ms :
  dryRun opts = false ->
  allSucceed w ->
  forall s r,
  exists s' r',
    forEach ms (memberStep js w opts tc) (s, r) = (Ok tt, (s', r'))
    /\ membersDeleted r'
       = (membersDeleted r + onlyIf (length (kept js opts ms)) (deleteMembers opts))%nat
    /\ membersMarkedObsolete r'
       = (membersMarkedObsolete r
          + onlyIf (length (kept js opts ms))
                   (negb (deleteMembers opts) && markObsolete opts))%nat
    /\ invitationsSent r' = (invitationsSent r + length (kept js opts ms))%nat
    /\ skippedMembers r' = (skippedMembers r + length (ignored js opts ms))%nat
    /\ errors r' = errors r
    /\ membersFound r' = membersFound r.
Proof.
  intros Hlive (Hpost & Hpatch & Hdel). unfold kept, ignored.
  induction ms as [| m ms IH]; intros s r.
  - exists s, r. simpl. unfold onlyIf.
    destruct (deleteMembers opts), (markObsolete opts); simpl;
      repeat split; auto; lia.
  - simpl. unfold bind.
    destruct (shouldIgnoreMember js opts m) eqn:Hig.
    + rewrite memberStep_ignored by assumption. simpl.
      destruct (IH s (incSkippedMembers r))
        as (s' & r' & -> & H1 & H2 & H3 & H4 & H5 & H6).
      exists s', r'. simpl in *. repeat split; auto; lia.
    + unfold memberStep at 1. unfold processMember. rewrite Hig.
      unfold try_catch, bind, ret.
      destruct (deleteMembers opts) eqn:Hd; [| destruct (markObsolete opts) eqn:Hm];
        rewrite ?deleteMember_live, ?markMemberAsObsolete_live by assumption;
        try (destruct (Hdel (trace s) (deleteRequest m tc) (tc_apiKey tc))
               as (resp & -> & Hok); simpl);
        try (destruct (Hpatch (trace s) (updateRequest m tc) (tc_apiKey tc))
               as (resp & -> & Hok); simpl);
        rewrite sendNewInvitation_live by assumption;
        match goal with |- context [http_post w ?t ?q ?k] =>
          destruct (Hpost t q k) as (resp' & -> & Hok') end; simpl;
        unfold settle; simpl; rewrite ?Hok, ?Hok';
        match goal with |- context [forEach ms _ (?x, ?y)] =>
          destruct (IH x y) as (s' & r' & -> & H1 & H2 & H3 & H4 & H5 & H6) end;
        exists s', r'; unfold onlyIf in *; simpl in *;
        repeat split; auto; lia.
Qed.

(** ** The snapshot operation and the backup step *)

(** [backupMembers] always returns; it only creates a directory and writes
    a file. *)
Lemma backupMembers_returns opts team ms s :
  exists b s' evs,
    backupMembers js w opts team ms s = (Ok b, s')
    /\ trace s' = trace s ++ evs
    /\ Forall (fun e => isMemberCall e = false) evs.
Proof.
  unfold backupMembers, existsSync, mkdirSync, toISOString, writeFileSync.
  unfold_monad. simpl.
  destruct (negb _); [destruct (mkdir_fault w (trace s) _) |]; simpl;
    try destruct (write_fault w _ _) as [[? | ? ?] |]; simpl;
    eexists _, _, _; (split; [reflexivity |]); simpl;
    rewrite <- ?app_assoc;
    (split; [try reflexivity; symmetry; apply app_nil_r |]);
    repeat constructor.
Qed.

(** C1. With backup enabled, [deleteMembers] set and [dryRun] unset, when
    the snapshot operation called on the fetched members returns a failure
    or throws, [migrateTeam] returns in the very state the snapshot
    operation ended in (so no delete, update or invite call follows), its
    errors are the backup error followed by the abort error, and no member
    was counted. With the snapshot operation of the class, the calls of the
    whole run are the fetch, and the directory and file calls of the
    snapshot: none is an update, a delete or an invitation. *)
Theorem migrateTeam_backup_failure_aborts save opts tc s resp s1 o s2 :
  enabled (backup opts) = true ->
  deleteMembers opts = true ->
  dryRun opts = false ->
  getMembers w (teamId tc) (tc_apiKey tc) s = (Ok resp, s1) ->
  status resp = 200%Z ->
  data resp <> [] ->
  save (teamId tc) (data resp) s1 = (o, s2) ->
  saveFailed o = true ->
  exists r,
    migrateTeamWith js w save opts tc s = (Ok r, s2)
    /\ errors r = [saveError o; abortMessage]
    /\ membersDeleted r = 0%nat
    /\ membersMarkedObsolete r = 0%nat
    /\ invitationsSent r = 0%nat
    /\ skippedMembers r = 0%nat
    /\ (save = backupMembers js w opts ->
        exists evs, trace s2 = trace s ++ evs
                    /\ Forall (fun e => isMemberCall e = false) evs).
Proof.
  intros He Hd Hdry Hget H200 Hne Hsave Hfail.
  destruct (backupStep_abort save opts (teamId tc) (data resp) s1
              (setMembersFound (length (data resp)) (emptyResult (teamId tc)))
              o s2 He Hd Hdry Hne Hsave Hfail)
    as (r' & Hstep & Herr & _ & Hobs & Hdel & Hinv & Hskip).
  exists r'. split.
  - unfold migrateTeamWith, migrateTeamBody. unfold_monad.
    rewrite Hget. rewrite bool_decide_eq_true_2 by assumption. simpl.
    unfold_monad. rewrite Hstep. reflexivity.
  - repeat split; try assumption.
    intros ->.
    destruct (backupMembers_returns opts (teamId tc) (data resp) s1)
      as (b & s' & evs & Hb & Htr & Hall).
    rewrite Hb in Hsave. injection Hsave as <- <-.
    rewrite (getMembers_trace _ _ _ _ _ Hget) in Htr. simpl in Htr.
    exists (EvGetMembers (teamId tc) (tc_apiKey tc) :: evs).
    split; [rewrite Htr, <- app_assoc; reflexivity |].
    constructor; [reflexivity | assumption].
Qed.

(** When it reports success, the file at the path it reports holds the
    serialised members. *)
Lemma backupMembers_success opts team ms s b s' :
  backupMembers js w opts team ms s = (Ok b, s') ->
  br_success b = true ->
  exists p, br_path b = Some p /\ files s' !! p = Some (JSON_stringify js ms).
Proof.
  unfold backupMembers, existsSync, mkdirSync, toISOString, writeFileSync.
  unfold_monad. simpl.
  destruct (negb _); [destruct (mkdir_fault w (trace s) _) |]; simpl;
    try destruct (write_fault w _ _) as [[? | ? ?] |]; simpl;
    intros [= <- <-] Hs; try discriminate;
    eexists; (split; [reflexivity |]); simpl; apply lookup_insert_eq.
Qed.

(** The backup step never throws, leaves the counters alone, ends in the
    state the snapshot operation ended in, and tells the caller to return
    exactly when [abortsAtBackup] holds. *)
Lemma backupStep_spec save opts team ms s r :
  exists r',
    backupStep save opts team ms (s, r)
    = (Ok (abortsAtBackup opts ms (save team ms s).1),
       (if backupRuns opts ms then (save team ms s).2 else s, r'))
    /\ membersFound r' = membersFound r
    /\ membersMarkedObsolete r' = membersMarkedObsolete r
    /\ membersDeleted r' = membersDeleted r
    /\ invitationsSent r' = invitationsSent r
    /\ skippedMembers r' = skippedMembers r.
Proof.
  unfold backupStep, abortsAtBackup, backupRuns, abortIfDeleting.
  destruct (enabled (backup opts) && bool_decide (0 < length ms)%nat).
  2: { exists r. by repeat split. }
  unfold_monad. simpl.
  destruct (save team ms s) as [[b | e] s']; simpl.
  - destruct (br_success b); simpl.
    + eexists. split; [reflexivity |]. by repeat split.
    + destruct (deleteMembers opts), (dryRun opts); simpl;
        eexists; (split; [reflexivity |]); by repeat split.
  - destruct (deleteMembers opts), (dryRun opts); simpl;
      eexists; (split; [reflexivity |]); by repeat split.
Qed.

(** ** Whole runs of [migrateTeam] *)

Lemma migrateTeamWith_fetch_throws save opts tc s e s1 :
  getMembers w (teamId tc) (tc_apiKey tc) s = (Throw e, s1) ->
  migrateTeamWith js w save opts tc s
  = (Ok (pushError ("Error migrating team " +:+ teamId tc +:+ ": " +:+ e)
                   (emptyResult (teamId tc))), s1).
Proof.
  intros Hget. unfold migrateTeamWith, migrateTeamBody. unfold_monad.
  rewrite Hget. reflexivity.
Qed.

(** A run whose fetch answers 200: either it returns from the backup step
    with all member counters at 0, or it is the member loop started from
    such a result. *)
Lemma migrateTeamWith_fetched save opts tc s resp s1 :
  getMembers w (teamId tc) (tc_apiKey tc) s = (Ok resp, s1) ->
  status resp = 200%Z ->
  exists r1,
    membersFound r1 = length (data resp)
    /\ membersMarkedObsolete r1 = 0%nat /\ membersDeleted r1 = 0%nat
    /\ invitationsSent r1 = 0%nat /\ skippedMembers r1 = 0%nat
    /\ migrateTeamWith js w save opts tc s
       = let s2 := if backupRuns opts (data resp)
                   then (save (teamId tc) (data resp) s1).2 else s1 in
         if abortsAtBackup opts (data resp) (save (teamId tc) (data resp) s1).1
         then (Ok r1, s2)
         else match forEach (data resp) (memberStep js w opts tc) (s2, r1) with
              | (_, (s3, r)) => (Ok r, s3)
              end.
Proof.
  intros Hget H200.
  destruct (backupStep_spec save opts (teamId tc) (data resp) s1
              (setMembersFound (length (data resp)) (emptyResult (teamId tc))))
    as (r1 & Hstep & Hf & Ho & Hd & Hi & Hs).
  exists r1. repeat split; try assumption.
  unfold migrateTeamWith, migrateTeamBody. unfold_monad.
  rewrite Hget. rewrite bool_decide_eq_true_2 by assumption. simpl.
  rewrite Hstep.
  destruct (abortsAtBackup _ _ _); [reflexivity |].
  match goal with |- context [forEach _ _ (?x, ?y)] =>
    destruct (memberLoop_calls opts tc (data resp) x y)
      as (s3 & r & evs & -> & _) end.
  reflexivity.
Qed.

Lemma shouldIgnoreMember_live opts m :
  shouldIgnoreMember js (live opts) m = shouldIgnoreMember js opts m.
Proof. reflexivity. Qed.

Lemma fetchedMembers_200 tc s resp s1 :
  getMembers w (teamId tc) (tc_apiKey tc) s = (Ok resp, s1) ->
  status resp = 200%Z ->
  fetchedMembers w tc s = data resp.
Proof.
  intros Hget H200. unfold fetchedMembers.
  rewrite Hget. by rewrite bool_decide_eq_true_2.
Qed.

(** Every run of [migrateTeam] returns a result. The calls it makes for
    members are calls for fetched members that the ignore check lets
    through; a dry run makes none; with [deleteMembers] set nobody is
    counted as marked obsolete; and unless the run returns from the backup
    step, every ignored member is counted once in [skippedMembers]. *)
Lemma migrateTeam_run opts tc s :
  exists r s' evs,
    migrateTeam js w opts tc s = (Ok r, s')
    /\ trace s' = trace s ++ evs
    /\ Forall (fun e => isMemberCall e = true ->
                 exists m, m ∈ fetchedMembers w tc s
                           /\ shouldIgnoreMember js opts m = false
                           /\ MemberCall opts tc m e) evs
    /\ (dryRun opts = true -> Forall (fun e => isMemberCall e = false) evs)
    /\ (deleteMembers opts = true -> membersMarkedObsolete r = 0%nat)
    /\ (migrationAborts js w opts tc s = false ->
        skippedMembers r = length (ignored js opts (fetchedMembers w tc s))).
Proof.
  unfold migrateTeam, migrationAborts.
  destruct (getMembers w (teamId tc) (tc_apiKey tc) s) as [[resp | e] s1] eqn:Hget.
  2: { rewrite (migrateTeamWith_fetch_throws _ opts tc s e s1 Hget).
       rewrite (getMembers_trace _ _ _ _ _ Hget).
       unfold fetchedMembers. rewrite Hget.
       eexists _, _, [_]. split; [reflexivity |]. split; [reflexivity |].
       repeat split; auto; repeat constructor; discriminate. }
  destruct (decide (status resp = 200%Z)) as [H200 | Hne].
  2: { rewrite (migrateTeamWith_fetch_refused _ opts tc s resp s1 Hget Hne).
       rewrite (getMembers_trace _ _ _ _ _ Hget).
       unfold fetchedMembers. rewrite Hget.
       rewrite bool_decide_eq_false_2 by assumption.
       eexists _, _, [_]. split; [reflexivity |]. split; [reflexivity |].
       repeat split; auto; repeat constructor; discriminate. }
  rewrite (fetchedMembers_200 tc s resp s1 Hget H200).
  destruct (migrateTeamWith_fetched (backupMembers js w opts) opts tc s resp s1
              Hget H200) as (r1 & Hfound & Hobs & Hdel & Hinv & Hskip & ->).
  pose proof (getMembers_trace _ _ _ _ _ Hget) as ->.
  set (s1 := log (EvGetMembers (teamId tc) (tc_apiKey tc)) s).
  destruct (backupMembers_returns opts (teamId tc) (data resp) s1)
    as (b & sb & evb & Hb & Htrb & Hallb).
  rewrite Hb. simpl.
  assert (Hs2 : exists ev2,
             trace (if backupRuns opts (data resp) then sb else s1)
             = trace s ++ EvGetMembers (teamId tc) (tc_apiKey tc) :: ev2
             /\ Forall (fun e => isMemberCall e = false) ev2).
  { destruct (backupRuns opts (data resp)).
    - exists evb. rewrite Htrb. subst s1. simpl.
      rewrite <- app_assoc. by split.
    - exists []. by split. }
  destruct Hs2 as (ev2 & Htr2 & Hall2).
  destruct (abortsAtBackup opts (data resp) (Ok b)) eqn:Hab.
  - eexists _, _, _. split; [reflexivity |]. split; [exact Htr2 |].
    assert (Hnone : Forall (fun e => isMemberCall e = false)
                      (EvGetMembers (teamId tc) (tc_apiKey tc) :: ev2))
      by (constructor; [reflexivity | assumption]).
    repeat split; auto; try discriminate.
    eapply Forall_impl; [exact Hnone |]. simpl. intros e He Hc. congruence.
  - destruct (memberLoop_calls opts tc (data resp)
                (if backupRuns opts (data resp) then sb else s1) r1)
      as (s3 & r & evs & -> & Htr3 & _ & _ & Hall3 & Hdry3 & Hsk3 & Hobs3).
    exists r, s3, ((EvGetMembers (teamId tc) (tc_apiKey tc) :: ev2) ++ evs).
    split; [reflexivity |].
    split; [rewrite Htr3, Htr2, app_assoc; reflexivity |].
    assert (Hnone : Forall (fun e => isMemberCall e = false)
                      (EvGetMembers (teamId tc) (tc_apiKey tc) :: ev2))
      by (constructor; [reflexivity | assumption]).
    repeat split.
    + apply Forall_app. split.
      * eapply Forall_impl; [exact Hnone |]. simpl. intros e He Hc. congruence.
      * eapply Forall_impl; [exact Hall3 |]. simpl. intros e He _. exact He.
    + intros Hdry. rewrite (Hdry3 Hdry), app_nil_r. exact Hnone.
    + intros Hd. rewrite (Hobs3 Hd). exact Hobs.
    + intros _. rewrite Hsk3, Hskip. reflexivity.
Qed.

(** The counters of a dry run. *)
Lemma migrateTeam_dry_counts opts tc s :
  dryRun opts = true ->
  exists r s',
    migrateTeam js w opts tc s = (Ok r, s')
    /\ membersDeleted r
       = onlyIf (length (kept js opts (fetchedMembers w tc s))) (deleteMembers opts)
    /\ membersMarkedObsolete r
       = onlyIf (length (kept js opts (fetchedMembers w tc s)))
                (negb (deleteMembers opts) && markObsolete opts)
    /\ invitationsSent r = length (kept js opts (fetchedMembers w tc s))
    /\ skippedMembers r = length (ignored js opts (fetchedMembers w tc s)).
Proof.
  intros Hdry. unfold migrateTeam.
  destruct (getMembers w (teamId tc) (tc_apiKey tc) s) as [[resp | e] s1] eqn:Hget.
  2: { rewrite (migrateTeamWith_fetch_throws _ opts tc s e s1 Hget).
       unfold fetchedMembers. rewrite Hget.
       eexists _, _. split; [reflexivity |]. simpl.
       by destruct (deleteMembers opts), (markObsolete opts). }
  destruct (decide (status resp = 200%Z)) as [H200 | Hne].
  2: { rewrite (migrateTeamWith_fetch_refused _ opts tc s resp s1 Hget Hne).
       unfold fetchedMembers. rewrite Hget.
       rewrite bool_decide_eq_false_2 by assumption.
       eexists _, _. split; [reflexivity |]. simpl.
       by destruct (deleteMembers opts), (markObsolete opts). }
  rewrite (fetchedMembers_200 tc s resp s1 Hget H200).
  destruct (migrateTeamWith_fetched (backupMembers js w opts) opts tc s resp s1
              Hget H200) as (r1 & Hfound & Hobs & Hdel & Hinv & Hskip & ->).
  simpl. unfold abortsAtBackup. rewrite Hdry, andb_false_r.
  match goal with |- context [forEach _ _ (?x, _)] =>
    destruct (memberLoop_dry opts tc (data resp) Hdry x r1)
      as (r & -> & H1 & H2 & H3 & H4 & _) end.
  exists r. eexists. split; [reflexivity |].
  rewrite H1, H2, H3, H4, Hdel, Hobs, Hinv, Hskip. by repeat split.
Qed.

(** The counters of a live pass in which every call succeeds and which does
    not return from the backup step. *)
Lemma migrateTeam_live_counts opts tc s :
  dryRun opts = false ->
  allSucceed w ->
  migrationAborts js w opts tc s = false ->
  exists r s',
    migrateTeam js w opts tc s = (Ok r, s')
    /\ membersDeleted r
       = onlyIf (length (kept js opts (fetchedMembers w tc s))) (deleteMembers opts)
    /\ membersMarkedObsolete r
       = onlyIf (length (kept js opts (fetchedMembers w tc s)))
                (negb (deleteMembers opts) && markObsolete opts)
    /\ invitationsSent r = length (kept js opts (fetchedMembers w tc s))
    /\ skippedMembers r = length (ignored js opts (fetchedMembers w tc s)).
Proof.
  intros Hlive Hall. unfold migrateTeam, migrationAborts.
  destruct (getMembers w (teamId tc) (tc_apiKey tc) s) as [[resp | e] s1] eqn:Hget.
  2: { rewrite (migrateTeamWith_fetch_throws _ opts tc s e s1 Hget).
       unfold fetchedMembers. rewrite Hget. intros _.
       eexists _, _. split; [reflexivity |]. simpl.
       by destruct (deleteMembers opts), (markObsolete opts). }
  destruct (decide (status resp = 200%Z)) as [H200 | Hne].
  2: { rewrite (migrateTeamWith_fetch_refused _ opts tc s resp s1 Hget Hne).
       unfold fetchedMembers. rewrite Hget.
       rewrite bool_decide_eq_false_2 by assumption. intros _.
       eexists _, _. split; [reflexivity |]. simpl.
       by destruct (deleteMembers opts), (markObsolete opts). }
  rewrite (fetchedMembers_200 tc s resp s1 Hget H200).
  destruct (migrateTeamWith_fetched (backupMembers js w opts) opts tc s resp s1
              Hget H200) as (r1 & Hfound & Hobs & Hdel & Hinv & Hskip & ->).
  pose proof (getMembers_trace _ _ _ _ _ Hget) as ->.
  intros Hab. simpl. rewrite Hab.
  match goal with |- context [forEach _ _ (?x, _)] =>
    destruct (memberLoop_live_all_succeed opts tc (data resp) Hlive Hall x r1)
      as (s3 & r & -> & H1 & H2 & H3 & H4 & _) end.
  exists r, s3. split; [reflexivity |].
  rewrite H1, H2, H3, H4, Hdel, Hobs, Hinv, Hskip. by repeat split.
Qed.
(** C7. If [getMembers] answers with a status other than 200, [migrateTeam]
    returns the empty result with the single error
    ["Failed to get members: <statusText>"] ([membersFound] is 0), and the
    only call made is the fetch itself: no snapshot, no mutation and no
    invitation. This holds whatever the snapshot operation is. *)
Theorem migrateTeam_fetch_failure save opts tc s resp s1 :
  getMembers w (teamId tc) (tc_apiKey tc) s = (Ok resp, s1) ->
  status resp <> 200%Z ->
  exists r,
    migrateTeamWith js w save opts tc s
      = (Ok r, log (EvGetMembers (teamId tc) (tc_apiKey tc)) s)
    /\ errors r = ["Failed to get members: " +:+ statusText resp]
    /\ membersFound r = 0%nat
    /\ backupCreated r = false
    /\ membersDeleted r = 0%nat
    /\ membersMarkedObsolete r = 0%nat
    /\ invitationsSent r = 0%nat
    /\ skippedMembers r = 0%nat.
Proof.
  intros Hget Hne.
  rewrite (migrateTeamWith_fetch_refused save opts tc s resp s1 Hget Hne).
  rewrite (getMembers_trace _ _ _ _ _ Hget).
  eexists. split; [reflexivity |]. repeat split; reflexivity.
Qed.


(** C4. A dry run of [migrateTeam] makes no update, delete or invite call,
    and counts every fetched member the ignore check lets through as
    invited, and as deleted (when [deleteMembers]) or marked obsolete (when
    [markObsolete] and not [deleteMembers]); a live pass from the same
    state in which every call succeeds and which is not stopped at the
    backup step ends with the same counters. *)
Theorem migrateTeam_dry_run opts tc s :
  dryRun opts = true ->
  exists r s' evs,
    migrateTeam js w opts tc s = (Ok r, s')
    /\ trace s' = trace s ++ evs
    /\ Forall (fun e => isMemberCall e = false) evs
    /\ membersDeleted r
       = onlyIf (length (kept js opts (fetchedMembers w tc s))) (deleteMembers opts)
    /\ membersMarkedObsolete r
       = onlyIf (length (kept js opts (fetchedMembers w tc s)))
                (negb (deleteMembers opts) && markObsolete opts)
    /\ invitationsSent r = length (kept js opts (fetchedMembers w tc s))
    /\ skippedMembers r = length (ignored js opts (fetchedMembers w tc s))
    /\ (allSucceed w ->
        migrationAborts js w (live opts) tc s = false ->
        exists r_live s_live,
          migrateTeam js w (live opts) tc s = (Ok r_live, s_live)
          /\ membersDeleted r_live = membersDeleted r
          /\ membersMarkedObsolete r_live = membersMarkedObsolete r
          /\ invitationsSent r_live = invitationsSent r
          /\ skippedMembers r_live = skippedMembers r).
Proof.
  intros Hdry.
  destruct (migrateTeam_run opts tc s) as (r & s' & evs & Hrun & Htr & _ & Hnone & _).
  destruct (migrateTeam_dry_counts opts tc s Hdry)
    as (r0 & s0 & Hrun0 & Hdel & Hobs & Hinv & Hskip).
  rewrite Hrun in Hrun0. injection Hrun0 as <- <-.
  exists r, s', evs.
  split; [exact Hrun |]. split; [exact Htr |]. split; [exact (Hnone Hdry) |].
  split; [exact Hdel |]. split; [exact Hobs |]. split; [exact Hinv |].
  split; [exact Hskip |].
  intros Hall Hab.
  destruct (migrateTeam_live_counts (live opts) tc s eq_refl Hall Hab)
    as (rl & sl & Hrunl & Hdell & Hobsl & Hinvl & Hskipl).
  exists rl, sl. split; [exact Hrunl |].
  rewrite Hdel, Hobs, Hinv, Hskip. by repeat split.
Qed.

(** C5, amended. In a turn of the member loop for a member whose email
    equals, case-insensitively, an entry of [ignoredEmails], the only
    effect is that [skippedMembers] grows by one. In every run of
    [migrateTeam] each update, delete or invite call is a call for a
    fetched member the ignore check lets through; and unless the run
    returns from the backup step (snapshot failed, [deleteMembers] set,
    [dryRun] unset), [skippedMembers] ends as the number of ignored
    fetched members. *)
Theorem ignored_members_skipped opts tc s :
  (forall m st,
      shouldIgnoreMember js opts m = true ->
      memberStep js w opts tc m st = (Ok tt, (st.1, incSkippedMembers st.2))
      /\ skippedMembers (incSkippedMembers st.2) = S (skippedMembers st.2))
  /\ exists r s' evs,
      migrateTeam js w opts tc s = (Ok r, s')
      /\ trace s' = trace s ++ evs
      /\ Forall (fun e => isMemberCall e = true ->
                   exists m, m ∈ fetchedMembers w tc s
                             /\ shouldIgnoreMember js opts m = false
                             /\ MemberCall opts tc m e) evs
      /\ (migrationAborts js w opts tc s = false ->
          skippedMembers r = length (ignored js opts (fetchedMembers w tc s))).
Proof.
  split.
  - intros m st Hig. split; [by apply memberStep_ignored | reflexivity].
  - destruct (migrateTeam_run opts tc s)
      as (r & s' & evs & Hrun & Htr & Hall & _ & _ & Hskip).
    exists r, s', evs. by repeat split.
Qed.

(** C6. With [deleteMembers] set, whatever [markObsolete] is, a run of
    [migrateTeam] makes no update call and leaves [membersMarkedObsolete]
    at 0. *)
Theorem delete_overrides_markObsolete opts tc s :
  deleteMembers opts = true ->
  exists r s' evs,
    migrateTeam js w opts tc s = (Ok r, s')
    /\ trace s' = trace s ++ evs
    /\ Forall (fun e => isUpdateCall e = false) evs
    /\ membersMarkedObsolete r = 0%nat.
Proof.
  intros Hd.
  destruct (migrateTeam_run opts tc s)
    as (r & s' & evs & Hrun & Htr & Hall & _ & Hobs & _).
  exists r, s', evs.
  split; [exact Hrun |]. split; [exact Htr |]. split; [| exact (Hobs Hd)].
  eapply Forall_impl; [exact Hall |]. simpl.
  intros e He. destruct e; try reflexivity.
  destruct (He eq_refl) as (m & _ & _ & Hcall).
  inversion Hcall; congruence.
Qed.

(** ** Restore *)

Lemma restoreStep_ignored opts tc m st :
  shouldIgnoreMember js opts m = true ->
  restoreStep js w opts tc m st = (Ok tt, st).
Proof. intros H. unfold restoreStep. rewrite H. reflexivity. Qed.

(** One turn of the restore loop in live mode: the member is counted as
    restored as soon as the client hands back a response, whatever its
    status; only a thrown error is recorded. *)
Lemma restoreStep_live opts tc m s r :
  dryRun opts = false ->
  shouldIgnoreMember js opts m = false ->
  restoreStep js w opts tc m (s, r)
  = (Ok tt,
     (log (EvInviteMember (inviteRequest m tc) (tc_apiKey tc)) s,
      match handOn (http_post w (trace s) (inviteRequest m tc) (tc_apiKey tc)) with
      | Ok _ => incMembersRestored r
      | Throw e => pushRestoreError (restoreError m e) r
      end)).
Proof.
  intros Hlive Hig. unfold restoreStep. rewrite Hig.
  unfold try_catch, bind, onFreshResult.
  rewrite sendNewInvitation_live by assumption.
  destruct (handOn _); reflexivity.
Qed.

Lemma restoreStep_returns opts tc m st :
  exists st', restoreStep js w opts tc m st = (Ok tt, st')
              /\ success st'.2 = success st.2.
Proof.
  destruct st as [s r].
  destruct (shouldIgnoreMember js opts m) eqn:Hig.
  { rewrite restoreStep_ignored by assumption. by eexists. }
  destruct (dryRun opts) eqn:Hdry.
  - unfold restoreStep. rewrite Hig.
    unfold try_catch, bind, onFreshResult.
    rewrite sendNewInvitation_dry by assumption. by eexists.
  - rewrite restoreStep_live by assumption.
    eexists. split; [reflexivity |]. simpl. by destruct (handOn _).
Qed.

Lemma restoreLoop_returns opts tc ms : forall st,
  exists st', forEach ms (restoreStep js w opts tc) st = (Ok tt, st')
              /\ success st'.2 = success st.2.
Proof.
  induction ms as [| m ms IH]; intros st.
  - by exists st.
  - destruct (restoreStep_returns opts tc m st) as (st1 & Hstep & Hs1).
    destruct (IH st1) as (st2 & Hloop & Hs2).
    exists st2. split; [| congruence].
    simpl. unfold bind. rewrite Hstep. exact Hloop.
Qed.

(** When no invite call throws, the live restore loop counts every member
    the ignore check lets through and records no error. *)
Lemma restoreLoop_no_throw opts tc ms :
  dryRun opts = false ->
  (forall tr req key, exists resp, handOn (http_post w tr req key) = Ok resp) ->
  forall s r,
  exists s' r',
    forEach ms (restoreStep js w opts tc) (s, r) = (Ok tt, (s', r'))
    /\ membersRestored r' = (membersRestored r + length (kept js opts ms))%nat
    /\ rr_errors r' = rr_errors r
    /\ files s' = files s.
Proof.
  intros Hlive Hpost. unfold kept.
  induction ms as [| m ms IH]; intros s r.
  - exists s, r. simpl. repeat split; auto.
  - simpl. unfold bind.
    destruct (shouldIgnoreMember js opts m) eqn:Hig.
    + rewrite restoreStep_ignored by assumption. simpl. apply IH.
    + rewrite restoreStep_live by assumption. simpl.
      destruct (Hpost (trace s) (inviteRequest m tc) (tc_apiKey tc)) as (resp & ->).
      match goal with |- context [forEach ms _ (?x, ?y)] =>
        destruct (IH x y) as (s' & r' & -> & H1 & H2 & H3) end.
      exists s', r'. simpl in *. repeat split; auto; lia.
Qed.

Lemma existsSync_file p s content :
  files s !! p = Some content -> existsSync p s = (Ok true, s).
Proof.
  intros H. unfold existsSync. rewrite H.
  rewrite (bool_decide_eq_true_2 (is_Some (Some content))) by (eexists; reflexivity).
  reflexivity.
Qed.

Lemma existsSync_no_file p s :
  files s !! p = None -> existsSync p s = (Ok (bool_decide (p ∈ dirs s)), s).
Proof.
  intros H. unfold existsSync. rewrite H.
  rewrite (bool_decide_eq_false_2 (is_Some None)) by (intros [? ?]; discriminate).
  reflexivity.
Qed.

Lemma readFileSync_file p s content :
  files s !! p = Some content -> readFileSync p s = (Ok content, s).
Proof. intros H. unfold readFileSync. by rewrite H. Qed.

Lemma readFileSync_directory p s :
  files s !! p = None -> p ∈ dirs s ->
  readFileSync p s = (Throw "EISDIR: illegal operation on a directory, read", s).
Proof.
  intros H Hd. unfold readFileSync. rewrite H.
  by rewrite bool_decide_eq_true_2.
Qed.

(** [restoreFromBackup] once the file is there and parses. *)
Lemma restoreFromBackup_loaded opts p tc s content members :
  files s !! p = Some content ->
  JSON_parse js content = inr members ->
  restoreFromBackup js w opts p tc s
  = if dryRun opts then (Ok (setSuccess true emptyRestore), s)
    else match forEach members (restoreStep js w opts tc) (s, emptyRestore) with
         | (_, (s', r)) =>
             (Ok (setSuccess (bool_decide (0 < membersRestored r)%nat) r), s')
         end.
Proof.
  intros Hfile Hparse.
  unfold restoreFromBackup, restoreBody, parseMembers. unfold_monad.
  rewrite (existsSync_file p s content Hfile). cbv beta iota delta [negb].
  rewrite (readFileSync_file p s content Hfile), Hparse.
  destruct (dryRun opts); [reflexivity |].
  destruct (restoreLoop_returns opts tc members (s, emptyRestore))
    as ([s' r] & Hloop & _).
  fold emptyRestore. rewrite Hloop. reflexivity.
Qed.

(** [restoreFromBackup] when the file is missing, is a directory, or does
    not parse: the flag stays [false] and nobody is restored. *)
Lemma restoreFromBackup_not_loaded opts p tc s :
  (files s !! p = None
   \/ exists content e, files s !! p = Some content
                        /\ JSON_parse js content = inl e) ->
  exists r,
    restoreFromBackup js w opts p tc s = (Ok r, s)
    /\ success r = false /\ membersRestored r = 0%nat.
Proof.
  intros [Hfile | (content & e & Hfile & Hparse)];
    unfold restoreFromBackup, restoreBody, parseMembers; unfold_monad.
  - rewrite (existsSync_no_file p s Hfile). cbv beta iota.
    destruct (bool_decide (p ∈ dirs s)) eqn:Hdir; cbv beta iota delta [negb].
    + apply bool_decide_eq_true in Hdir.
      rewrite (readFileSync_directory p s Hfile Hdir).
      eexists. split; [reflexivity |]. by split.
    + eexists. split; [reflexivity |]. by split.
  - rewrite (existsSync_file p s content Hfile). cbv beta iota delta [negb].
    rewrite (readFileSync_file p s content Hfile), Hparse.
    eexists. split; [reflexivity |]. by split.
Qed.

(** In live mode the flag is the test [membersRestored > 0], whichever way
    the method ends. *)
Lemma restoreFromBackup_live_success opts p tc s :
  dryRun opts = false ->
  exists r s',
    restoreFromBackup js w opts p tc s = (Ok r, s')
    /\ success r = bool_decide (0 < membersRestored r)%nat.
Proof.
  intros Hlive.
  destruct (files s !! p) as [content |] eqn:Hfile.
  - destruct (JSON_parse js content) as [e | members] eqn:Hparse.
    + destruct (restoreFromBackup_not_loaded opts p tc s) as (r & Hrun & Hs & Hn).
      { right. by exists content, e. }
      exists r, s. split; [exact Hrun |]. by rewrite Hs, Hn.
    + rewrite (restoreFromBackup_loaded opts p tc s content members Hfile Hparse).
      rewrite Hlive.
      destruct (restoreLoop_returns opts tc members (s, emptyRestore))
        as ([s' r] & -> & _).
      eexists _, _. split; reflexivity.
  - destruct (restoreFromBackup_not_loaded opts p tc s) as (r & Hrun & Hs & Hn).
    { by left. }
    exists r, s. split; [exact Hrun |]. by rewrite Hs, Hn.
Qed.

(** C8. The flag of [restoreFromBackup]: in live mode it is the test
    [membersRestored > 0]; after a successful load (the file is there and
    parses) a dry run returns [success = true] and [membersRestored = 0]
    in the state it started in, without a turn of the member loop; and a
    live restore of a file that holds the empty array returns
    [membersRestored = 0], [success = false] and no error. *)
Theorem restoreFromBackup_success_flag opts p tc s :
  exists r s',
    restoreFromBackup js w opts p tc s = (Ok r, s')
    /\ (dryRun opts = false ->
        (success r = true <-> (0 < membersRestored r)%nat))
    /\ (forall content members,
          files s !! p = Some content ->
          JSON_parse js content = inr members ->
          (dryRun opts = true ->
           r = {| success := true; membersRestored := 0; rr_errors := [] |}
           /\ s' = s)
          /\ (dryRun opts = false -> members = [] ->
              r = {| success := false; membersRestored := 0; rr_errors := [] |}
              /\ s' = s)).
Proof.
  destruct (dryRun opts) eqn:Hdry.
  - destruct (files s !! p) as [content |] eqn:Hfile;
      [destruct (JSON_parse js content) as [e | members] eqn:Hparse |].
    + destruct (restoreFromBackup_not_loaded opts p tc s) as (r & Hrun & _).
      { right. by exists content, e. }
      exists r, s. split; [exact Hrun |]. split; [discriminate |].
      intros c ms [= <-] Hp. congruence.
    + rewrite (restoreFromBackup_loaded opts p tc s content members Hfile Hparse).
      rewrite Hdry.
      eexists _, _. split; [reflexivity |]. split; [discriminate |].
      intros c ms _ _. split; [by split | discriminate].
    + destruct (restoreFromBackup_not_loaded opts p tc s) as (r & Hrun & _).
      { by left. }
      exists r, s. split; [exact Hrun |]. split; [discriminate |].
      intros c ms Hc. discriminate.
  - destruct (restoreFromBackup_live_success opts p tc s Hdry) as (r & s' & Hrun & Hflag).
    exists r, s'. split; [exact Hrun |]. split.
    + intros _. rewrite Hflag. apply bool_decide_eq_true.
    + intros content members Hfile Hparse. split; [discriminate |].
      intros _ ->.
      rewrite (restoreFromBackup_loaded opts p tc s content [] Hfile Hparse) in Hrun.
      rewrite Hdry in Hrun. simpl in Hrun. injection Hrun as <- <-. by split.
Qed.

Lemma kept_all opts ms :
  Forall (fun m => shouldIgnoreMember js opts m = false) ms ->
  kept js opts ms = ms.
Proof.
  unfold kept. induction 1 as [| m ms Hm _ IH]; [reflexivity |].
  simpl. rewrite Hm. simpl. by rewrite IH.
Qed.

(** With an empty ignore set nobody is ignored. *)
Lemma empty_ignore_set opts ms :
  default [] (ignoredEmails opts) = [] ->
  Forall (fun m => shouldIgnoreMember js opts m = false) ms.
Proof.
  intros He. apply Forall_forall. intros m _. unfold shouldIgnoreMember.
  destruct (ignoredEmails opts) as [l |]; [| reflexivity].
  simpl in He. by subst l.
Qed.

(** A thrown invitation is the one failure the restore loop records: one
    error for the member, and the loop goes on. *)
Lemma restoreStep_invite_throws opts tc m s r e s' :
  dryRun opts = false ->
  shouldIgnoreMember js opts m = false ->
  inviteMember w (inviteRequest m tc) (tc_apiKey tc) s = (Throw e, s') ->
  restoreStep js w opts tc m (s, r)
  = (Ok tt, (s', pushRestoreError (restoreError m e) r)).
Proof.
  intros Hlive Hig Hcall. rewrite restoreStep_live by assumption.
  unfold inviteMember in Hcall. injection Hcall as -> <-. reflexivity.
Qed.

(** One turn of the live restore loop for a member whose invite call
    hands back a response. *)
Lemma restoreStep_any_response opts tc m s r resp s' :
  dryRun opts = false ->
  shouldIgnoreMember js opts m = false ->
  inviteMember w (inviteRequest m tc) (tc_apiKey tc) s = (Ok resp, s') ->
  restoreStep js w opts tc m (s, r) = (Ok tt, (s', incMembersRestored r))
  /\ sendNewInvitation w opts m tc (s, emptyResult (teamId tc))
     = (Ok tt, (s', settle incInvitationsSent (inviteError m resp) resp
                      (emptyResult (teamId tc)))).
Proof.
  intros Hlive Hig Hcall.
  rewrite restoreStep_live, sendNewInvitation_live by assumption.
  unfold inviteMember in Hcall. injection Hcall as -> <-.
  split; reflexivity.
Qed.

(** The live restore loop, member by member: a member is counted when its
    invite call hands back a response, and gets an error when the call
    throws. *)
Lemma restoreLoop_outcomes opts tc ms :
  dryRun opts = false ->
  forall s r,
  exists s' r',
    forEach ms (restoreStep js w opts tc) (s, r) = (Ok tt, (s', r'))
    /\ membersRestored r'
       = (membersRestored r
          + length (List.filter answered
                      (inviteOutcomes w tc (trace s) (kept js opts ms))))%nat
    /\ rr_errors r'
       = rr_errors r ++ faultErrors (inviteOutcomes w tc (trace s) (kept js opts ms))
    /\ success r' = success r.
Proof.
  intros Hlive. unfold kept.
  induction ms as [| m ms IH]; intros s r.
  - exists s, r. simpl. rewrite app_nil_r. repeat split; auto.
  - simpl. unfold bind.
    destruct (shouldIgnoreMember js opts m) eqn:Hig.
    + rewrite restoreStep_ignored by assumption. simpl. apply IH.
    + rewrite restoreStep_live by assumption. simpl.
      match goal with |- context [forEach ms _ (?x, ?y)] =>
        destruct (IH x y) as (s' & r' & -> & Hn & He & Hs) end.
      exists s', r'. split; [reflexivity |]. simpl in *.
      unfold answered at 1. simpl.
      destruct (handOn _) as [resp | e]; simpl in *.
      * split; [lia |]. split; [exact He | exact Hs].
      * split; [lia |]. split; [| exact Hs].
        rewrite He, <- app_assoc. reflexivity.
Qed.

Lemma faultErrors_shape l x :
  x ∈ faultErrors l -> exists m e, x = restoreError m e.
Proof.
  induction l as [| [m [resp | e]] l IH]; simpl; intros Hx.
  - inversion Hx.
  - by apply IH.
  - inversion Hx; subst; [by eexists _, _ | by apply IH].
Qed.

Lemma inviteOutcomes_length tc tr ms :
  length (inviteOutcomes w tc tr ms) = length ms.
Proof.
  revert tr. induction ms as [| m ms IH]; intros tr; simpl; [reflexivity |].
  by rewrite IH.
Qed.

Lemma all_answered tc ms :
  (forall tr req key, exists resp, handOn (http_post w tr req key) = Ok resp) ->
  forall tr,
    List.filter answered (inviteOutcomes w tc tr ms) = inviteOutcomes w tc tr ms
    /\ faultErrors (inviteOutcomes w tc tr ms) = [].
Proof.
  intros Hpost. induction ms as [| m ms IH]; intros tr; simpl; [by split |].
  destruct (Hpost tr (inviteRequest m tc) (tc_apiKey tc)) as (resp & Hr).
  unfold answered at 1. simpl. rewrite Hr.
  destruct (IH (tr ++ [EvInviteMember (inviteRequest m tc) (tc_apiKey tc)]))
    as [-> ->].
  by split.
Qed.

(** C10. In a live [restoreFromBackup] of a backup that loads, the
    members of the file that the ignore check lets through are invited in
    turn, and [membersRestored] of the returned result is the number of
    those whose invite call handed back a response, whatever its status;
    the errors of the returned result are those of the calls that threw,
    and never the failure message of a response. In particular, when no
    invite call throws, every such member is counted and no error is
    returned, even if every response is a failure. For a failure status
    the message is pushed on the result object made for the call, which is
    dropped, while the member is counted. *)
Theorem restore_counts_any_response opts p tc s content members :
  files s !! p = Some content ->
  JSON_parse js content = inr members ->
  dryRun opts = false ->
  exists r s',
    restoreFromBackup js w opts p tc s = (Ok r, s')
    /\ membersRestored r
       = length (List.filter answered
                   (inviteOutcomes w tc (trace s) (kept js opts members)))
    /\ rr_errors r
       = faultErrors (inviteOutcomes w tc (trace s) (kept js opts members))
    /\ (forall m resp, inviteError m resp ∉ rr_errors r)
    /\ ((forall tr req key, exists resp, handOn (http_post w tr req key) = Ok resp) ->
        membersRestored r = length (kept js opts members) /\ rr_errors r = [])
    /\ (forall m s0 resp s1 r0,
          shouldIgnoreMember js opts m = false ->
          inviteMember w (inviteRequest m tc) (tc_apiKey tc) s0 = (Ok resp, s1) ->
          isSuccess (status resp) = false ->
          exists tmp,
            sendNewInvitation w opts m tc (s0, emptyResult (teamId tc))
            = (Ok tt, (s1, tmp))
            /\ errors tmp = [inviteError m resp]
            /\ restoreStep js w opts tc m (s0, r0)
               = (Ok tt, (s1, incMembersRestored r0))).
Proof.
  intros Hfile Hparse Hlive.
  rewrite (restoreFromBackup_loaded opts p tc s content members Hfile Hparse).
  rewrite Hlive.
  destruct (restoreLoop_outcomes opts tc members Hlive s emptyRestore)
    as (s' & r & -> & Hn & He & _).
  simpl in Hn, He.
  eexists _, s'. split; [reflexivity |]. simpl.
  split; [exact Hn |]. split; [exact He |]. split; [| split].
  - intros m resp Hin. rewrite He in Hin.
    apply faultErrors_shape in Hin as (m' & e & Heq).
    unfold inviteError, restoreError in Heq. simpl in Heq. discriminate.
  - intros Hpost.
    destruct (all_answered tc (kept js opts members) Hpost (trace s)) as [Hall Hnone].
    rewrite Hn, He, Hall, Hnone, inviteOutcomes_length. by split.
  - intros m s0 resp s1 r0 Hig Hcall Hfail.
    destruct (restoreStep_any_response opts tc m s0 r0 resp s1 Hlive Hig Hcall)
      as [Hstep Htmp].
    eexists. split; [exact Htmp |]. split; [| exact Hstep].
    unfold settle. rewrite Hfail. reflexivity.
Qed.

(** C9. Round trip: after [backupMembers] has saved a non-empty list of
    members with success, [restoreFromBackup] in live mode on the file it
    produced, with an ignore set that matches none of them (the empty set
    in particular), restores as many members as the list holds and reports
    success, provided every invite call returns a success status and
    [JSON.parse] gives back the list [JSON.stringify] was given. *)
Theorem backup_restore_round_trip opts_b opts_r team tc members s b s1 :
  members <> [] ->
  backupMembers js w opts_b team members s = (Ok b, s1) ->
  br_success b = true ->
  JSON_parse js (JSON_stringify js members) = inr members ->
  dryRun opts_r = false ->
  Forall (fun m => shouldIgnoreMember js opts_r m = false) members ->
  invitesSucceed w ->
  exists p r s2,
    br_path b = Some p
    /\ restoreFromBackup js w opts_r p tc s1 = (Ok r, s2)
    /\ membersRestored r = length members
    /\ success r = true
    /\ rr_errors r = [].
Proof.
  intros Hne Hsave Hok Hjson Hlive Hkept Hinv.
  destruct (backupMembers_success opts_b team members s b s1 Hsave Hok)
    as (p & Hp & Hfile).
  exists p.
  rewrite (restoreFromBackup_loaded opts_r p tc s1 _ members Hfile Hjson), Hlive.
  assert (Hpost : forall tr req key, exists resp,
             handOn (http_post w tr req key) = Ok resp).
  { intros tr req key. destruct (Hinv tr req key) as (resp & -> & _).
    by eexists. }
  destruct (restoreLoop_no_throw opts_r tc members Hlive Hpost s1 emptyRestore)
    as (s2 & r & -> & Hn & He & _).
  rewrite (kept_all opts_r members Hkept) in Hn. simpl in Hn.
  eexists _, s2. split; [exact Hp |]. split; [reflexivity |]. simpl.
  split; [exact Hn |]. split; [| exact He].
  apply bool_decide_eq_true_2. rewrite Hn.
  destruct members; [done | simpl; lia].
Qed.

End Theory.

(** * The program on the sample team *)

Lemma calm_allSucceed : allSucceed Sample.calm.
Proof. repeat split; intros tr req key; eexists; split; reflexivity. Qed.

Lemma calm_invitesSucceed : invitesSucceed Sample.calm.
Proof. intros tr req key. eexists. split; reflexivity. Qed.

(** The scenario of the specification: three members, one of them ignored,
    [markObsolete] set, live, every call succeeds. *)
Example scenario_three_members :
  (migrateTeam Sample.js Sample.calm (Sample.options true false false)
     Sample.team Sample.boot).1
  = Ok {| mr_teamId := "team-7"; membersFound := 3; membersMarkedObsolete := 2;
          membersDeleted := 0; invitationsSent := 2; skippedMembers := 1;
          backupCreated := true; backupPath := Some Sample.backupFile;
          errors := [] |}.
Proof. vm_compute. reflexivity. Qed.

(** C1 on the sample team: the disk refuses the write, deletion is asked
    for, the run is live. *)
Lemma migrateTeam_backup_failure_aborts_witness :
  exists r s2,
    migrateTeam Sample.js Sample.readOnlyDisk (Sample.options true true false)
      Sample.team Sample.boot = (Ok r, s2)
    /\ errors r = ["Failed to create backup: EROFS: read-only file system, open";
                   abortMessage]
    /\ membersDeleted r = 0%nat /\ invitationsSent r = 0%nat
    /\ Forall (fun e => isMemberCall e = false) (trace s2).
Proof.
  edestruct (migrateTeam_backup_failure_aborts Sample.js Sample.readOnlyDisk
               (backupMembers Sample.js Sample.readOnlyDisk
                  (Sample.options true true false))
               (Sample.options true true false) Sample.team Sample.boot)
    as (r & Hrun & Herr & Hdel & _ & Hinv & _ & Hcalls).
  - reflexivity.
  - reflexivity.
  - reflexivity.
  - reflexivity.
  - reflexivity.
  - discriminate.
  - reflexivity.
  - reflexivity.
  - destruct (Hcalls eq_refl) as (evs & Htr & Hnone).
    exists r. eexists. split; [exact Hrun |]. split; [exact Herr |].
    split; [exact Hdel |]. split; [exact Hinv |].
    rewrite Htr. exact Hnone.
Defined.

(** C2 as stated fails: a 3xx answer is within 2xx/3xx, yet the invitation
    is not counted and an error is recorded. *)
Lemma live_counter_3xx_counterexample :
  exists resp s' r',
    inviteMember Sample.redirecting (inviteRequest Sample.ann Sample.team) "key-7"
      Sample.boot = (Ok resp, s')
    /\ (200 <= status resp < 400)%Z
    /\ sendNewInvitation Sample.redirecting (Sample.options true false false)
         Sample.ann Sample.team (Sample.boot, emptyResult "team-7")
       = (Ok tt, (s', r'))
    /\ invitationsSent r' = 0%nat
    /\ errors r' = ["Failed to send invitation to Ann.Lee@example.com: Found"].
Proof.
  eexists _, _, _. split; [reflexivity |]. split; [simpl; lia |].
  split; [reflexivity |]. split; reflexivity.
Qed.

(** C2, amended, on the sample team: a 201 answer counts the invitation. *)
Lemma live_counter_iff_2xx_witness :
  exists s' r',
    sendNewInvitation Sample.calm (Sample.options true false false)
      Sample.ann Sample.team (Sample.boot, emptyResult "team-7")
    = (Ok tt, (s', r'))
    /\ invitationsSent r' = 1%nat /\ errors r' = [].
Proof.
  edestruct (live_counter_iff_2xx Sample.calm (Sample.options true false false)
               Sample.ann Sample.team Sample.boot (emptyResult "team-7"))
    as (_ & _ & Hinvite); [reflexivity |].
  destruct (Hinvite eq_refl) as (r' & Hrun & Hyes & _).
  destruct Hyes as [Hcount Herr]; [simpl; lia |].
  eexists _, r'. split; [exact Hrun |]. by split.
Defined.

(** C3 fails on the code: the backup holds one member, the invitation is
    answered with status 500, and [restoreFromBackup] reports one member
    restored, success, and no error. *)
Example restore_drops_invite_failure :
  (exists s',
      inviteMember Sample.failingInvites (inviteRequest Sample.ann Sample.team)
        "key-7" Sample.disk
      = (Ok (Sample.answer (Some "{}") 500%Z "Internal Server Error"), s'))
  /\ Sample.js.(JSON_parse) (Sample.stringify [Sample.ann]) = inr [Sample.ann]
  /\ shouldIgnoreMember Sample.js Sample.restoreOptions Sample.ann = false
  /\ (restoreFromBackup Sample.js Sample.failingInvites Sample.restoreOptions
        "/b/one.json" Sample.team Sample.disk).1
     = Ok {| success := true; membersRestored := 1; rr_errors := [] |}.
Proof.
  split; [eexists; reflexivity |].
  split; [vm_compute; reflexivity |].
  split; vm_compute; reflexivity.
Qed.

(** C4 on the sample team, marking obsolete. *)
Lemma migrateTeam_dry_run_witness :
  exists r s' r_live s_live,
    migrateTeam Sample.js Sample.calm (Sample.options true false true)
      Sample.team Sample.boot = (Ok r, s')
    /\ Forall (fun e => isMemberCall e = false) (trace s')
    /\ membersDeleted r = 0%nat /\ membersMarkedObsolete r = 2%nat
    /\ invitationsSent r = 2%nat /\ skippedMembers r = 1%nat
    /\ migrateTeam Sample.js Sample.calm (live (Sample.options true false true))
         Sample.team Sample.boot = (Ok r_live, s_live)
    /\ membersMarkedObsolete r_live = 2%nat /\ invitationsSent r_live = 2%nat.
Proof.
  destruct (migrateTeam_dry_run Sample.js Sample.calm (Sample.options true false true)
              Sample.team Sample.boot eq_refl)
    as (r & s' & evs & Hrun & Htr & Hnone & Hdel & Hobs & Hinv & Hskip & Hlive).
  destruct (Hlive calm_allSucceed eq_refl)
    as (rl & sl & Hrunl & _ & Hobsl & Hinvl & _).
  exists r, s', rl, sl.
  split; [exact Hrun |]. split; [rewrite Htr; exact Hnone |].
  split; [exact Hdel |]. split; [exact Hobs |]. split; [exact Hinv |].
  split; [exact Hskip |]. split; [exact Hrunl |].
  split; [by rewrite Hobsl, Hobs | by rewrite Hinvl, Hinv].
Defined.

(** C5 as stated fails: the run is stopped at the backup step, and the
    ignored member that was fetched is not counted in [skippedMembers]. *)
Lemma ignored_member_not_counted_counterexample :
  exists r s',
    migrateTeam Sample.js Sample.readOnlyDisk (Sample.options false true false)
      Sample.team Sample.boot = (Ok r, s')
    /\ Sample.root ∈ fetchedMembers Sample.readOnlyDisk Sample.team Sample.boot
    /\ shouldIgnoreMember Sample.js (Sample.options false true false) Sample.root = true
    /\ skippedMembers r = 0%nat.
Proof.
  eexists _, _. split; [reflexivity |].
  split; [apply list_elem_of_further, list_elem_of_here |].
  split; vm_compute; reflexivity.
Qed.

(** C5, amended, on the sample team. *)
Lemma ignored_members_skipped_witness :
  exists r s',
    migrateTeam Sample.js Sample.calm (Sample.options false true false)
      Sample.team Sample.boot = (Ok r, s')
    /\ skippedMembers r = 1%nat.
Proof.
  destruct (ignored_members_skipped Sample.js Sample.calm
              (Sample.options false true false) Sample.team Sample.boot)
    as (_ & r & s' & evs & Hrun & _ & _ & Hskip).
  exists r, s'. split; [exact Hrun |]. exact (Hskip eq_refl).
Defined.

(** C6 on the sample team, with both flags set. *)
Lemma delete_overrides_markObsolete_witness :
  exists r s' evs,
    migrateTeam Sample.js Sample.calm (Sample.options true true false)
      Sample.team Sample.boot = (Ok r, s')
    /\ trace s' = trace Sample.boot ++ evs
    /\ Forall (fun e => isUpdateCall e = false) evs
    /\ membersMarkedObsolete r = 0%nat.
Proof.
  exact (delete_overrides_markObsolete Sample.js Sample.calm
           (Sample.options true true false) Sample.team Sample.boot eq_refl).
Defined.

(** C7 on the sample team: the fetch is answered with 403. *)
Lemma migrateTeam_fetch_failure_witness :
  exists r,
    migrateTeam Sample.js Sample.forbidden (Sample.options true false false)
      Sample.team Sample.boot
    = (Ok r, log (EvGetMembers "team-7" "key-7") Sample.boot)
    /\ errors r = ["Failed to get members: Forbidden"]
    /\ membersFound r = 0%nat.
Proof.
  edestruct (migrateTeam_fetch_failure Sample.js Sample.forbidden
               (backupMembers Sample.js Sample.forbidden
                  (Sample.options true false false))
               (Sample.options true false false) Sample.team Sample.boot)
    as (r & Hrun & Herr & Hfound & _).
  - reflexivity.
  - discriminate.
  - exists r. split; [exact Hrun |]. by split.
Defined.

(** C8 on the sample disk: a live restore of the empty backup, and a dry
    run on the backup of one member. *)
Lemma restoreFromBackup_success_flag_witness :
  (restoreFromBackup Sample.js Sample.calm Sample.restoreOptions
     "/b/none.json" Sample.team Sample.disk
   = (Ok {| success := false; membersRestored := 0; rr_errors := [] |}, Sample.disk))
  /\ (restoreFromBackup Sample.js Sample.calm (Sample.options true false true)
        "/b/one.json" Sample.team Sample.disk
      = (Ok {| success := true; membersRestored := 0; rr_errors := [] |}, Sample.disk)).
Proof.
  split.
  - destruct (restoreFromBackup_success_flag Sample.js Sample.calm
                Sample.restoreOptions "/b/none.json" Sample.team Sample.disk)
      as (r & s' & Hrun & _ & Hloaded).
    destruct (Hloaded "[]" [] eq_refl eq_refl) as (_ & Hlive).
    destruct (Hlive eq_refl eq_refl) as [-> ->]. exact Hrun.
  - destruct (restoreFromBackup_success_flag Sample.js Sample.calm
                (Sample.options true false true) "/b/one.json" Sample.team Sample.disk)
      as (r & s' & Hrun & _ & Hloaded).
    assert (Hparse : Sample.js.(JSON_parse) (Sample.stringify [Sample.ann])
                     = inr [Sample.ann]) by (vm_compute; reflexivity).
    destruct (Hloaded (Sample.stringify [Sample.ann]) [Sample.ann] eq_refl Hparse)
      as (Hdry & _).
    destruct (Hdry eq_refl) as [-> ->]. exact Hrun.
Defined.

(** C9 on the sample team: two members saved, two restored. *)
Lemma backup_restore_round_trip_witness :
  exists b s1 r s2,
    backupMembers Sample.js Sample.calm (Sample.options true false false)
      "team-7" [Sample.ann; Sample.bob] Sample.boot = (Ok b, s1)
    /\ br_path b = Some Sample.backupFile
    /\ restoreFromBackup Sample.js Sample.calm Sample.restoreOptions
         Sample.backupFile Sample.team s1 = (Ok r, s2)
    /\ membersRestored r = 2%nat
    /\ success r = true.
Proof.
  edestruct (backup_restore_round_trip Sample.js Sample.calm
               (Sample.options true false false) Sample.restoreOptions
               "team-7" Sample.team [Sample.ann; Sample.bob] Sample.boot)
    as (p & r & s2 & Hp & Hrun & Hn & Hs & _).
  - discriminate.
  - reflexivity.
  - reflexivity.
  - vm_compute. reflexivity.
  - reflexivity.
  - apply (empty_ignore_set Sample.js). reflexivity.
  - exact calm_invitesSucceed.
  - injection Hp as <-.
    eexists _, _, r, s2. split; [reflexivity |]. split; [reflexivity |].
    split; [exact Hrun |]. by split.
Defined.

(** C10 on the sample disk: the invitation of the one member of the
    backup is answered with status 500. *)
Lemma restore_counts_any_response_witness :
  exists r s' tmp,
    restoreFromBackup Sample.js Sample.failingInvites Sample.restoreOptions
      "/b/one.json" Sample.team Sample.disk = (Ok r, s')
    /\ membersRestored r = 1%nat
    /\ rr_errors r = []
    /\ sendNewInvitation Sample.failingInvites Sample.restoreOptions Sample.ann
         Sample.team (Sample.disk, emptyResult "team-7") = (Ok tt, (s', tmp))
    /\ errors tmp
       = ["Failed to send invitation to Ann.Lee@example.com: Internal Server Error"].
Proof.
  edestruct (restore_counts_any_response Sample.js Sample.failingInvites
               Sample.restoreOptions "/b/one.json" Sample.team Sample.disk)
    as (r & s' & Hrun & Hn & He & _ & _ & Hturn).
  - reflexivity.
  - vm_compute. reflexivity.
  - reflexivity.
  - destruct (Hturn Sample.ann Sample.disk
                (Sample.answer (Some "{}") 500%Z "Internal Server Error")
                (log (EvInviteMember (inviteRequest Sample.ann Sample.team) "key-7")
                   Sample.disk)
                emptyRestore eq_refl eq_refl eq_refl) as (tmp & Htmp & Hmsg & _).
    assert (Hs : s' = log (EvInviteMember (inviteRequest Sample.ann Sample.team)
                              "key-7") Sample.disk).
    { vm_compute in Hrun. injection Hrun as _ <-. vm_compute. reflexivity. }
    subst s'.
    eexists r, _, tmp. split; [exact Hrun |]. split; [exact Hn |].
    split; [exact He |]. split; [exact Htmp | exact Hmsg].
Defined.

(** * Further properties of the code *)

Section More.

Context (js : Builtins) (w : World).

(** ** The snapshot operation *)

(** [backupMembers]: what it returns and what it does to the disk. It
    never throws, and it never touches a file other than its target, the
    resolved backup directory joined with
    [team-<id>-backup-<timestamp>.json]. On success it reports that path,
    which then holds the serialised members. On failure it reports no
    path and the very message of the error thrown: by the creation of the
    directory or by a file that cannot be opened, and then no file has
    changed; or by the write into the opened file, and then the target
    holds what had been written. *)
Theorem backupMembers_effects opts team ms s :
  let d := path_resolve js (bo_path (backup opts)) in
  let there := bool_decide (is_Some (files s !! d)) || bool_decide (d ∈ dirs s) in
  let tr := if there then trace s else trace s ++ [EvMkdir d] in
  let p := path_join js d (backupFileNameFor team (now w tr)) in
  exists b s',
    backupMembers js w opts team ms s = (Ok b, s')
    /\ (forall q, q <> p -> files s' !! q = files s !! q)
    /\ (br_success b = true ->
        br_path b = Some p /\ br_error b = None
        /\ files s' !! p = Some (JSON_stringify js ms))
    /\ (br_success b = false ->
        br_path b = None
        /\ ((there = false
             /\ exists e, mkdir_fault w (trace s) d = Some e
                          /\ br_error b = Some e /\ files s' = files s)
            \/ (exists e, write_fault w tr p = Some (OpenFails e)
                          /\ br_error b = Some e /\ files s' = files s)
            \/ (exists e written,
                  write_fault w tr p = Some (WriteFails e written)
                  /\ br_error b = Some e
                  /\ files s' = <[p := written]> (files s)))).
Proof.
  intros d there tr p.
  unfold backupMembers, existsSync, mkdirSync, toISOString, writeFileSync.
  unfold_monad. fold d. fold there. subst tr p. unfold backupFileNameFor.
  destruct there; cbv beta iota delta [negb].
  - simpl. destruct (write_fault w _ _) as [[e | e written] |] eqn:Hw; simpl.
    + eexists _, _. split; [reflexivity |]. simpl. split; [reflexivity |].
      split; [discriminate |]. intros _. split; [reflexivity |].
      right; left. by exists e.
    + eexists _, _. split; [reflexivity |]. simpl.
      split; [intros q Hq; by apply lookup_insert_ne |].
      split; [discriminate |]. intros _. split; [reflexivity |].
      right; right. by exists e, written.
    + eexists _, _. split; [reflexivity |]. simpl.
      split; [intros q Hq; by apply lookup_insert_ne |].
      split; [| discriminate]. intros _.
      split; [reflexivity |]. split; [reflexivity | apply lookup_insert_eq].
  - destruct (mkdir_fault w (trace s) d) as [e0 |] eqn:Hm; simpl.
    + eexists _, _. split; [reflexivity |]. simpl. split; [reflexivity |].
      split; [discriminate |]. intros _. split; [reflexivity |].
      left. split; [reflexivity |]. by exists e0.
    + destruct (write_fault w _ _) as [[e | e written] |] eqn:Hw; simpl.
      * eexists _, _. split; [reflexivity |]. simpl. split; [reflexivity |].
        split; [discriminate |]. intros _. split; [reflexivity |].
        right; left. by exists e.
      * eexists _, _. split; [reflexivity |]. simpl.
        split; [intros q Hq; by apply lookup_insert_ne |].
        split; [discriminate |]. intros _. split; [reflexivity |].
        right; right. by exists e, written.
      * eexists _, _. split; [reflexivity |]. simpl.
        split; [intros q Hq; by apply lookup_insert_ne |].
        split; [| discriminate]. intros _.
        split; [reflexivity |]. split; [reflexivity | apply lookup_insert_eq].
Qed.

(** The directory is created only when nothing exists at its path: when
    a directory or a regular file is there, no directory is created; when
    nothing is there and the creation fails, the failure is reported with
    the message of the error and no file is written; when it succeeds the
    directory is there afterwards. *)
Theorem backupMembers_directory opts team ms s :
  let d := path_resolve js (bo_path (backup opts)) in
  (is_Some (files s !! d) \/ d ∈ dirs s ->
   exists b s' evs,
     backupMembers js w opts team ms s = (Ok b, s')
     /\ trace s' = trace s ++ evs
     /\ Forall (fun e => forall p, e <> EvMkdir p) evs
     /\ dirs s' = dirs s)
  /\ (files s !! d = None -> d ∉ dirs s ->
      forall e, mkdir_fault w (trace s) d = Some e ->
      backupMembers js w opts team ms s
      = (Ok {| br_success := false; br_path := None; br_error := Some e |},
         log (EvMkdir d) s))
  /\ (files s !! d = None -> d ∉ dirs s ->
      mkdir_fault w (trace s) d = None ->
      exists b s' evs,
        backupMembers js w opts team ms s = (Ok b, s')
        /\ trace s' = trace s ++ EvMkdir d :: evs
        /\ d ∈ dirs s').
Proof.
  intros d. split; [| split].
  - intros Hd.
    assert (Hthere : bool_decide (is_Some (files s !! d)) || bool_decide (d ∈ dirs s)
                     = true).
    { destruct Hd as [Hd | Hd].
      - rewrite (bool_decide_eq_true_2 (is_Some (files s !! d))) by assumption.
        reflexivity.
      - rewrite (bool_decide_eq_true_2 (d ∈ dirs s)) by assumption.
        apply orb_true_r. }
    unfold backupMembers, existsSync, mkdirSync, toISOString, writeFileSync.
    unfold_monad. fold d. rewrite Hthere. cbv beta iota delta [negb].
    destruct (write_fault w _ _) as [[? | ? ?] |];
      eexists _, _, [_]; (split; [reflexivity |]); simpl;
      (split; [reflexivity |]); split; auto; repeat constructor; discriminate.
  - intros Hf Hd e He.
    unfold backupMembers, mkdirSync. unfold_monad. fold d.
    rewrite (existsSync_no_file d s Hf).
    rewrite (bool_decide_eq_false_2 (d ∈ dirs s)) by assumption.
    cbv beta iota delta [negb]. rewrite He. reflexivity.
  - intros Hf Hd He.
    unfold backupMembers, mkdirSync, toISOString, writeFileSync.
    unfold_monad. fold d.
    rewrite (existsSync_no_file d s Hf).
    rewrite (bool_decide_eq_false_2 (d ∈ dirs s)) by assumption.
    cbv beta iota delta [negb]. rewrite He. simpl.
    destruct (write_fault w _ _) as [[? | ? ?] |];
      eexists _, _, [_]; (split; [reflexivity |]); simpl;
      rewrite <- ?app_assoc; (split; [reflexivity |]); set_solver.
Qed.

(** The timestamp in the file name: [replace(/[:.]/g, '-')] keeps the
    length, leaves no colon and no dot, and changes nothing else. *)
Theorem dashed_spec t :
  String.length (dashed t) = String.length t
  /\ Forall (fun c => c <> ":"%char /\ c <> "."%char)
            (list_ascii_of_string (dashed t))
  /\ Forall2 (fun c c' => c' = c \/ ((c = ":"%char \/ c = "."%char) /\ c' = "-"%char))
             (list_ascii_of_string t) (list_ascii_of_string (dashed t))
  /\ dashed (dashed t) = dashed t.
Proof.
  induction t as [| c t (IHl & IHn & IHs & IHi)]; simpl.
  - repeat split; constructor.
  - repeat case_decide; subst; simpl; repeat case_decide; try congruence;
      (split; [by f_equal |]);
      (split; [constructor; [split; congruence | assumption] |]);
      (split; [constructor; [tauto | assumption] | by f_equal]).
Qed.

(** ** The backup step and the member loop, in full *)

Lemma backupStep_skipped save opts team ms st :
  backupRuns opts ms = false ->
  backupStep save opts team ms st = (Ok false, st).
Proof.
  unfold backupStep, backupRuns. intros ->. reflexivity.
Qed.

Lemma backupStep_ran save opts team ms s r o s' :
  backupRuns opts ms = true ->
  save team ms s = (o, s') ->
  exists r',
    backupStep save opts team ms (s, r)
    = (Ok (saveFailed o && deleteMembers opts && negb (dryRun opts)), (s', r'))
    /\ mr_teamId r' = mr_teamId r
    /\ membersFound r' = membersFound r
    /\ membersMarkedObsolete r' = membersMarkedObsolete r
    /\ membersDeleted r' = membersDeleted r
    /\ invitationsSent r' = invitationsSent r
    /\ skippedMembers r' = skippedMembers r
    /\ backupCreated r' = match o with Ok b => br_success b | Throw _ => backupCreated r end
    /\ backupPath r' = match o with Ok b => br_path b | Throw _ => backupPath r end
    /\ errors r'
       = errors r
         ++ (if saveFailed o
             then saveError o
                  :: (if deleteMembers opts && negb (dryRun opts)
                      then [abortMessage] else [])
             else []).
Proof.
  unfold backupStep, backupRuns, abortIfDeleting. intros -> Hsave.
  unfold_monad. simpl. rewrite Hsave.
  destruct o as [b | e]; simpl.
  - destruct (br_success b); simpl.
    + eexists. split; [reflexivity |]. simpl. rewrite app_nil_r. by repeat split.
    + destruct (deleteMembers opts), (dryRun opts); simpl;
        eexists; (split; [reflexivity |]); simpl; rewrite <- ?app_assoc;
        by repeat split.
  - destruct (deleteMembers opts), (dryRun opts); simpl;
      eexists; (split; [reflexivity |]); simpl; rewrite <- ?app_assoc;
      by repeat split.
Qed.

(** A run whose fetch answers 200, as its backup step followed by its
    member loop. *)
Lemma migrateTeamWith_200 save opts tc s resp s1 :
  getMembers w (teamId tc) (tc_apiKey tc) s = (Ok resp, s1) ->
  status resp = 200%Z ->
  migrateTeamWith js w save opts tc s
  = match backupStep save opts (teamId tc) (data resp)
            (s1, setMembersFound (length (data resp)) (emptyResult (teamId tc))) with
    | (Ok true, (s2, r1)) => (Ok r1, s2)
    | (Ok false, st2) =>
        match forEach (data resp) (memberStep js w opts tc) st2 with
        | (_, (s3, r)) => (Ok r, s3)
        end
    | (Throw e, (s2, r1)) =>
        (Ok (pushError ("Error migrating team " +:+ teamId tc +:+ ": " +:+ e) r1), s2)
    end.
Proof.
  intros Hget H200.
  unfold migrateTeamWith, migrateTeamBody. unfold_monad.
  rewrite Hget. rewrite bool_decide_eq_true_2 by assumption. simpl.
  destruct (backupStep _ _ _ _ _) as [[[|] | e] [s2 r1]]; try reflexivity.
  destruct (memberLoop_calls js w opts tc (data resp) s2 r1)
    as (s3 & r & evs & -> & _).
  reflexivity.
Qed.

Lemma kept_ignored_length opts ms :
  (length (kept js opts ms) + length (ignored js opts ms) = length ms)%nat.
Proof.
  unfold kept, ignored. induction ms as [| m ms IH]; [reflexivity |].
  simpl. destruct (shouldIgnoreMember js opts m); simpl; lia.
Qed.

(** One turn of the member loop, as the result object sees it: the fields
    of the fetch and of the backup stay, errors are only appended, and each
    counter grows by at most one, and only when its flag allows. *)
Lemma memberStep_account opts tc m s r :
  exists s' r' errs,
    memberStep js w opts tc m (s, r) = (Ok tt, (s', r'))
    /\ files s' = files s /\ dirs s' = dirs s
    /\ mr_teamId r' = mr_teamId r
    /\ membersFound r' = membersFound r
    /\ backupCreated r' = backupCreated r
    /\ backupPath r' = backupPath r
    /\ errors r' = errors r ++ errs
    /\ (shouldIgnoreMember js opts m = true \/ dryRun opts = true -> errs = [])
    /\ (invitationsSent r <= invitationsSent r'
        <= invitationsSent r + onlyIf 1 (negb (shouldIgnoreMember js opts m)))%nat
    /\ (membersDeleted r <= membersDeleted r'
        <= membersDeleted r
           + onlyIf 1 (negb (shouldIgnoreMember js opts m) && deleteMembers opts))%nat
    /\ (membersMarkedObsolete r <= membersMarkedObsolete r'
        <= membersMarkedObsolete r
           + onlyIf 1 (negb (shouldIgnoreMember js opts m)
                       && negb (deleteMembers opts) && markObsolete opts))%nat.
Proof.
  destruct (shouldIgnoreMember js opts m) eqn:Hig.
  { rewrite memberStep_ignored by assumption. simpl.
    exists s, (incSkippedMembers r), []. rewrite app_nil_r.
    repeat split; auto; simpl; lia. }
  destruct (dryRun opts) eqn:Hdry.
  { rewrite memberStep_dry by assumption. simpl.
    eexists s, _, []. rewrite app_nil_r.
    split; [reflexivity |].
    destruct (deleteMembers opts), (markObsolete opts); simpl;
      repeat split; auto; lia. }
  unfold memberStep, processMember. rewrite Hig.
  unfold try_catch, bind.
  destruct (deleteMembers opts) eqn:Hd; [| destruct (markObsolete opts) eqn:Hm];
    unfold ret;
    rewrite ?deleteMember_live, ?markMemberAsObsolete_live by assumption;
    try destruct (handOn (http_delete _ _ _ _)) as [resp | e];
    try destruct (handOn (http_patch _ _ _ _)) as [resp | e];
    rewrite ?sendNewInvitation_live by assumption;
    try destruct (handOn (http_post _ _ _ _)) as [resp' | e'];
    unfold settle; repeat destruct (isSuccess _);
    (eexists _, _, _; split; [reflexivity |]); simpl;
    rewrite <- ?app_assoc;
    repeat (split; [first [reflexivity | symmetry; apply app_nil_r
                          | intros [? | ?]; discriminate | lia] |]);
    lia.
Qed.

Lemma memberLoop_account opts tc ms : forall s r,
  exists s' r' errs,
    forEach ms (memberStep js w opts tc) (s, r) = (Ok tt, (s', r'))
    /\ files s' = files s /\ dirs s' = dirs s
    /\ mr_teamId r' = mr_teamId r
    /\ membersFound r' = membersFound r
    /\ backupCreated r' = backupCreated r
    /\ backupPath r' = backupPath r
    /\ errors r' = errors r ++ errs
    /\ (dryRun opts = true -> errs = [])
    /\ (invitationsSent r <= invitationsSent r'
        <= invitationsSent r + length (kept js opts ms))%nat
    /\ (membersDeleted r <= membersDeleted r'
        <= membersDeleted r + onlyIf (length (kept js opts ms)) (deleteMembers opts))%nat
    /\ (membersMarkedObsolete r <= membersMarkedObsolete r'
        <= membersMarkedObsolete r
           + onlyIf (length (kept js opts ms))
                    (negb (deleteMembers opts) && markObsolete opts))%nat.
Proof.
  induction ms as [| m ms IH]; intros s r.
  - exists s, r, []. simpl. rewrite app_nil_r. unfold onlyIf.
    destruct (deleteMembers opts), (markObsolete opts); simpl;
      repeat split; auto; lia.
  - destruct (memberStep_account opts tc m s r)
      as (s1 & r1 & errs1 & Hstep & Hf1 & Hd1 & Ht1 & Hm1 & Hc1 & Hp1 & He1
          & Hn1 & Hi1 & Hdel1 & Ho1).
    destruct (IH s1 r1)
      as (s2 & r2 & errs2 & Hloop & Hf2 & Hd2 & Ht2 & Hm2 & Hc2 & Hp2 & He2
          & Hn2 & Hi2 & Hdel2 & Ho2).
    exists s2, r2, (errs1 ++ errs2).
    split; [simpl; unfold bind; rewrite Hstep; exact Hloop |].
    split; [congruence |]. split; [congruence |]. split; [congruence |].
    split; [congruence |]. split; [congruence |]. split; [congruence |].
    split; [rewrite He2, He1, app_assoc; reflexivity |].
    split; [intros Hdry; rewrite (Hn2 Hdry), Hn1 by (by right); reflexivity |].
    unfold kept in *. simpl. unfold onlyIf in *.
    destruct (shouldIgnoreMember js opts m), (deleteMembers opts),
      (markObsolete opts); simpl in *; repeat split; lia.
Qed.

(** ** Whole runs of [migrateTeam], continued *)

Lemma fetchedMembers_throw tc s e s1 :
  getMembers w (teamId tc) (tc_apiKey tc) s = (Throw e, s1) ->
  fetchedMembers w tc s = [].
Proof. intros H. unfold fetchedMembers. by rewrite H. Qed.

Lemma fetchedMembers_refused tc s resp s1 :
  getMembers w (teamId tc) (tc_apiKey tc) s = (Ok resp, s1) ->
  status resp <> 200%Z ->
  fetchedMembers w tc s = [].
Proof.
  intros H Hne. unfold fetchedMembers. rewrite H.
  by rewrite bool_decide_eq_false_2.
Qed.

(** Bounds on the counters of every run. *)
Lemma migrateTeamWith_bounds save opts tc s :
  exists r s',
    migrateTeamWith js w save opts tc s = (Ok r, s')
    /\ mr_teamId r = teamId tc
    /\ membersFound r = length (fetchedMembers w tc s)
    /\ (skippedMembers r <= length (ignored js opts (fetchedMembers w tc s)))%nat
    /\ (invitationsSent r <= length (kept js opts (fetchedMembers w tc s)))%nat
    /\ (membersDeleted r
        <= onlyIf (length (kept js opts (fetchedMembers w tc s))) (deleteMembers opts))%nat
    /\ (membersMarkedObsolete r
        <= onlyIf (length (kept js opts (fetchedMembers w tc s)))
                  (negb (deleteMembers opts) && markObsolete opts))%nat.
Proof.
  destruct (getMembers w (teamId tc) (tc_apiKey tc) s) as [[resp | e] s1] eqn:Hget.
  2: { rewrite (migrateTeamWith_fetch_throws js w save opts tc s e s1 Hget).
       rewrite (fetchedMembers_throw tc s e s1 Hget).
       eexists _, _. split; [reflexivity |]. simpl.
       destruct (deleteMembers opts), (markObsolete opts); simpl;
         repeat split; auto. }
  destruct (decide (status resp = 200%Z)) as [H200 | Hne].
  2: { rewrite (migrateTeamWith_fetch_refused js w save opts tc s resp s1 Hget Hne).
       rewrite (fetchedMembers_refused tc s resp s1 Hget Hne).
       eexists _, _. split; [reflexivity |]. simpl.
       destruct (deleteMembers opts), (markObsolete opts); simpl;
         repeat split; auto. }
  rewrite (migrateTeamWith_200 save opts tc s resp s1 Hget H200).
  rewrite (fetchedMembers_200 w tc s resp s1 Hget H200).
  pose proof (kept_ignored_length opts (data resp)) as Hlen.
  set (r0 := setMembersFound (length (data resp)) (emptyResult (teamId tc))).
  assert (Hgate : exists flag s2 r1,
             backupStep save opts (teamId tc) (data resp) (s1, r0)
             = (Ok flag, (s2, r1))
             /\ mr_teamId r1 = teamId tc
             /\ membersFound r1 = length (data resp)
             /\ membersMarkedObsolete r1 = 0%nat /\ membersDeleted r1 = 0%nat
             /\ invitationsSent r1 = 0%nat /\ skippedMembers r1 = 0%nat).
  { destruct (backupRuns opts (data resp)) eqn:Hruns.
    - destruct (save (teamId tc) (data resp) s1) as [o sb] eqn:Hsave.
      destruct (backupStep_ran save opts (teamId tc) (data resp) s1 r0 o sb
                  Hruns Hsave)
        as (r1 & -> & Ht & Hf & Ho & Hd & Hi & Hs & _).
      eexists _, _, r1. split; [reflexivity |]. by repeat split.
    - rewrite backupStep_skipped by assumption.
      eexists _, _, r0. split; [reflexivity |]. by repeat split. }
  destruct Hgate as (flag & s2 & r1 & -> & Ht & Hf & Ho & Hd & Hi & Hs).
  destruct flag.
  - exists r1, s2. split; [reflexivity |].
    rewrite Ht, Hf, Ho, Hd, Hi, Hs. unfold onlyIf.
    destruct (deleteMembers opts), (markObsolete opts); simpl;
      repeat split; auto; lia.
  - destruct (memberLoop_calls js w opts tc (data resp) s2 r1)
      as (s3 & r & evs & Hloop & _ & _ & _ & _ & _ & Hskip & _).
    destruct (memberLoop_account opts tc (data resp) s2 r1)
      as (s3' & r' & errs & Hloop' & _ & _ & Ht' & Hf' & _ & _ & _ & _
          & Hi' & Hd' & Ho').
    rewrite Hloop in Hloop'. injection Hloop' as <- <-.
    rewrite Hloop. exists r, s3. split; [reflexivity |].
    unfold onlyIf in *.
    destruct (deleteMembers opts), (markObsolete opts); simpl in *;
      repeat split; try lia; congruence.
Qed.

(** The counters of every run, whatever the host and the snapshot
    operation do: [membersFound] is the number of fetched members; no
    counter exceeds the number of members it can count; skipped and
    invited members together never exceed the members found; and a run
    never counts both deleted and marked-obsolete members. *)
Theorem migrateTeam_accounting save opts tc s :
  exists r s',
    migrateTeamWith js w save opts tc s = (Ok r, s')
    /\ mr_teamId r = teamId tc
    /\ membersFound r = length (fetchedMembers w tc s)
    /\ (skippedMembers r + invitationsSent r <= membersFound r)%nat
    /\ (membersDeleted r <= membersFound r)%nat
    /\ (membersMarkedObsolete r <= membersFound r)%nat
    /\ (membersDeleted r = 0%nat \/ membersMarkedObsolete r = 0%nat).
Proof.
  destruct (migrateTeamWith_bounds save opts tc s)
    as (r & s' & Hrun & Ht & Hf & Hs & Hi & Hd & Ho).
  pose proof (kept_ignored_length opts (fetchedMembers w tc s)) as Hlen.
  exists r, s'. split; [exact Hrun |]. split; [exact Ht |]. split; [exact Hf |].
  unfold onlyIf in *.
  destruct (deleteMembers opts), (markObsolete opts); simpl in *;
    repeat split; lia.
Qed.

(** When the fetch is rejected without any response, the fault does not
    leave [migrateTeam]: the result carries the single error
    ["Error migrating team <id>: <message>"], every counter is 0, no
    backup is made, and the fetch is the only call. *)
Theorem migrateTeam_fetch_fault save opts tc s e :
  http_get w (trace s) (teamId tc) (tc_apiKey tc) = AxReject e ->
  exists r,
    migrateTeamWith js w save opts tc s
    = (Ok r, log (EvGetMembers (teamId tc) (tc_apiKey tc)) s)
    /\ errors r = ["Error migrating team " +:+ teamId tc +:+ ": " +:+ e]
    /\ membersFound r = 0%nat /\ membersDeleted r = 0%nat
    /\ membersMarkedObsolete r = 0%nat /\ invitationsSent r = 0%nat
    /\ skippedMembers r = 0%nat /\ backupCreated r = false.
Proof.
  intros Hax.
  assert (Hget : getMembers w (teamId tc) (tc_apiKey tc) s
                 = (Throw e, log (EvGetMembers (teamId tc) (tc_apiKey tc)) s)).
  { unfold getMembers. rewrite Hax. reflexivity. }
  rewrite (migrateTeamWith_fetch_throws js w save opts tc s e _ Hget).
  eexists. split; [reflexivity |]. by repeat split.
Qed.

(** With backup disabled, or when the fetch brings no member, the snapshot
    operation is not called: the run creates no directory and writes no
    file, and reports no backup. *)
Theorem migrateTeam_without_backup save opts tc s :
  backupRuns opts (fetchedMembers w tc s) = false ->
  exists r s' evs,
    migrateTeamWith js w save opts tc s = (Ok r, s')
    /\ files s' = files s /\ dirs s' = dirs s
    /\ trace s' = trace s ++ evs
    /\ Forall (fun e => isDiskCall e = false) evs
    /\ backupCreated r = false /\ backupPath r = None.
Proof.
  destruct (getMembers w (teamId tc) (tc_apiKey tc) s) as [[resp | e] s1] eqn:Hget.
  2: { intros _.
       rewrite (migrateTeamWith_fetch_throws js w save opts tc s e s1 Hget).
       rewrite (getMembers_trace w _ _ _ _ _ Hget).
       eexists _, _, [_]. split; [reflexivity |]. simpl.
       repeat split; auto. }
  destruct (decide (status resp = 200%Z)) as [H200 | Hne].
  2: { intros _.
       rewrite (migrateTeamWith_fetch_refused js w save opts tc s resp s1 Hget Hne).
       rewrite (getMembers_trace w _ _ _ _ _ Hget).
       eexists _, _, [_]. split; [reflexivity |]. simpl.
       repeat split; auto. }
  rewrite (fetchedMembers_200 w tc s resp s1 Hget H200). intros Hruns.
  rewrite (migrateTeamWith_200 save opts tc s resp s1 Hget H200).
  rewrite backupStep_skipped by assumption.
  rewrite (getMembers_trace w _ _ _ _ _ Hget).
  match goal with |- context [forEach _ _ (?x, ?y)] =>
    destruct (memberLoop_calls js w opts tc (data resp) x y)
      as (s3 & r & evs & Hloop & Htr & _ & _ & Hall & _);
    destruct (memberLoop_account opts tc (data resp) x y)
      as (s3' & r' & errs & Hloop' & Hf & Hd & _ & _ & Hc & Hp & _) end.
  rewrite Hloop in Hloop'. injection Hloop' as <- <-. rewrite Hloop.
  exists r, s3, (EvGetMembers (teamId tc) (tc_apiKey tc) :: evs).
  split; [reflexivity |]. split; [exact Hf |]. split; [exact Hd |].
  split; [rewrite Htr; simpl; rewrite <- app_assoc; reflexivity |].
  split; [| by split].
  constructor; [reflexivity |].
  eapply Forall_impl; [exact Hall |].
  intros ev (m & _ & _ & Hcall). by destruct Hcall.
Qed.

(** On a disk that takes every write, [backupMembers] succeeds. *)
Lemma backupMembers_no_fault opts team ms s :
  noDiskFault w ->
  exists p s',
    backupMembers js w opts team ms s
    = (Ok {| br_success := true; br_path := Some p; br_error := None |}, s')
    /\ files s' !! p = Some (JSON_stringify js ms).
Proof.
  intros [Hmk Hwr].
  unfold backupMembers, existsSync, mkdirSync, toISOString, writeFileSync.
  unfold_monad. simpl.
  destruct (negb _); simpl; rewrite ?Hmk; simpl; rewrite Hwr; simpl;
    eexists _, _; (split; [reflexivity |]); simpl; apply lookup_insert_eq.
Qed.

(** The backup is real in every mode, a dry run included: when the fetch
    brings members, backup is enabled and the disk takes the write, the
    run ends with the serialised members in the file the result names. *)
Theorem migrateTeam_writes_backup opts tc s resp s1 :
  getMembers w (teamId tc) (tc_apiKey tc) s = (Ok resp, s1) ->
  status resp = 200%Z ->
  data resp <> [] ->
  enabled (backup opts) = true ->
  noDiskFault w ->
  exists r s' p,
    migrateTeam js w opts tc s = (Ok r, s')
    /\ backupCreated r = true
    /\ backupPath r = Some p
    /\ files s' !! p = Some (JSON_stringify js (data resp)).
Proof.
  intros Hget H200 Hne Hen Hdisk. unfold migrateTeam.
  rewrite (migrateTeamWith_200 _ opts tc s resp s1 Hget H200).
  assert (Hruns : backupRuns opts (data resp) = true).
  { unfold backupRuns. rewrite Hen. simpl. apply bool_decide_eq_true_2.
    destruct (data resp); [done | simpl; lia]. }
  destruct (backupMembers_no_fault opts (teamId tc) (data resp) s1 Hdisk)
    as (p & sb & Hsave & Hfile).
  match goal with |- context [backupStep _ _ _ _ (_, ?r0)] =>
    destruct (backupStep_ran (backupMembers js w opts) opts (teamId tc) (data resp)
                s1 r0 _ sb Hruns Hsave)
      as (r1 & -> & _ & _ & _ & _ & _ & _ & Hc & Hp & _) end.
  simpl in *.
  destruct (memberLoop_account opts tc (data resp) sb r1)
    as (s3 & r & errs & -> & Hf & _ & _ & _ & Hc' & Hp' & _).
  exists r, s3, p. split; [reflexivity |].
  split; [congruence |]. split; [congruence |]. by rewrite Hf.
Qed.

(** A failed snapshot stops the run only when deleting for real. In a dry
    run, or without [deleteMembers], the failure is the first error of the
    result, no backup is reported, and the member loop still runs over all
    the members: every ignored member is counted, and in a dry run every
    other member is counted as invited and nothing else is recorded. *)
Theorem backup_failure_is_not_fatal save opts tc s resp s1 o sb :
  getMembers w (teamId tc) (tc_apiKey tc) s = (Ok resp, s1) ->
  status resp = 200%Z ->
  backupRuns opts (data resp) = true ->
  save (teamId tc) (data resp) s1 = (o, sb) ->
  saveFailed o = true ->
  deleteMembers opts = false \/ dryRun opts = true ->
  exists r s' errs,
    migrateTeamWith js w save opts tc s = (Ok r, s')
    /\ backupCreated r = false
    /\ errors r = saveError o :: errs
    /\ skippedMembers r = length (ignored js opts (data resp))
    /\ (dryRun opts = true ->
        errs = [] /\ invitationsSent r = length (kept js opts (data resp))).
Proof.
  intros Hget H200 Hruns Hsave Hfail Hmode.
  rewrite (migrateTeamWith_200 save opts tc s resp s1 Hget H200).
  match goal with |- context [backupStep _ _ _ _ (_, ?r0)] =>
    destruct (backupStep_ran save opts (teamId tc) (data resp) s1 r0 o sb
                Hruns Hsave)
      as (r1 & -> & _ & _ & _ & _ & Hi1 & Hs1 & Hc1 & _ & He1) end.
  rewrite Hfail in *. simpl in *.
  assert (Hgo : deleteMembers opts && negb (dryRun opts) = false)
    by (destruct Hmode as [-> | ->]; [reflexivity | apply andb_false_r]).
  rewrite Hgo in *. simpl in He1.
  destruct (memberLoop_calls js w opts tc (data resp) sb r1)
    as (s3 & r & evs & Hloop & _ & _ & _ & _ & _ & Hskip & _).
  destruct (memberLoop_account opts tc (data resp) sb r1)
    as (s3' & r' & errs & Hloop' & _ & _ & _ & _ & Hc & _ & He & Hnone & _).
  rewrite Hloop in Hloop'. injection Hloop' as <- <-. rewrite Hloop.
  exists r, s3, errs. split; [reflexivity |].
  split.
  { rewrite Hc, Hc1. destruct o as [b | e]; [| reflexivity].
    simpl in Hfail. by apply negb_true_iff in Hfail. }
  split; [rewrite He, He1; reflexivity |].
  split; [rewrite Hskip, Hs1; reflexivity |].
  intros Hdry. split; [exact (Hnone Hdry) |].
  destruct (memberLoop_dry js w opts tc (data resp) Hdry sb r1)
    as (r'' & Hloop'' & _ & _ & Hinv & _).
  rewrite Hloop in Hloop''. injection Hloop'' as _ <-.
  rewrite Hinv, Hi1. reflexivity.
Qed.

(** ** Failures while one member is processed *)

(** When the delete or the update call of a member is rejected without a
    response, the member is not invited: the turn makes that single call,
    records the single error ["Error processing member <email>: <message>"]
    and counts nothing. *)
Theorem mutation_fault_skips_invitation opts tc m s r e :
  dryRun opts = false ->
  shouldIgnoreMember js opts m = false ->
  (deleteMembers opts = true ->
   http_delete w (trace s) (deleteRequest m tc) (tc_apiKey tc) = AxReject e ->
   memberStep js w opts tc m (s, r)
   = (Ok tt, (log (EvDeleteMember (deleteRequest m tc) (tc_apiKey tc)) s,
              pushError (memberError m e) r)))
  /\ (deleteMembers opts = false -> markObsolete opts = true ->
      http_patch w (trace s) (updateRequest m tc) (tc_apiKey tc) = AxReject e ->
      memberStep js w opts tc m (s, r)
      = (Ok tt, (log (EvUpdateMember (updateRequest m tc) (tc_apiKey tc)) s,
                 pushError (memberError m e) r))).
Proof.
  intros Hlive Hig. split.
  - intros Hd Hax.
    unfold memberStep, processMember. rewrite Hig, Hd.
    unfold try_catch, bind. rewrite deleteMember_live by assumption.
    rewrite Hax. reflexivity.
  - intros Hd Hm Hax.
    unfold memberStep, processMember. rewrite Hig, Hd, Hm.
    unfold try_catch, bind. rewrite markMemberAsObsolete_live by assumption.
    rewrite Hax. reflexivity.
Qed.

(** Once the delete or the update call has come back with a response, of
    whatever status, the invitation is attempted: a failed mutation does
    not stop it (the failure is recorded and the member is invited all the
    same), and an invitation rejected without a response leaves the
    mutation counted, with the error of the member as the only trace. *)
Theorem invitation_follows_any_response opts tc m s r resp :
  dryRun opts = false ->
  shouldIgnoreMember js opts m = false ->
  (deleteMembers opts = true ->
   handOn (http_delete w (trace s) (deleteRequest m tc) (tc_apiKey tc)) = Ok resp ->
   let s1 := log (EvDeleteMember (deleteRequest m tc) (tc_apiKey tc)) s in
   let r1 := settle incMembersDeleted (deleteError m resp) resp r in
   memberStep js w opts tc m (s, r)
   = (Ok tt,
      (log (EvInviteMember (inviteRequest m tc) (tc_apiKey tc)) s1,
       match handOn (http_post w (trace s1) (inviteRequest m tc) (tc_apiKey tc)) with
       | Ok resp' => settle incInvitationsSent (inviteError m resp') resp' r1
       | Throw e => pushError (memberError m e) r1
       end)))
  /\ (deleteMembers opts = false -> markObsolete opts = true ->
      handOn (http_patch w (trace s) (updateRequest m tc) (tc_apiKey tc)) = Ok resp ->
      let s1 := log (EvUpdateMember (updateRequest m tc) (tc_apiKey tc)) s in
      let r1 := settle incMembersMarkedObsolete (updateError m resp) resp r in
      memberStep js w opts tc m (s, r)
      = (Ok tt,
         (log (EvInviteMember (inviteRequest m tc) (tc_apiKey tc)) s1,
          match handOn (http_post w (trace s1) (inviteRequest m tc) (tc_apiKey tc)) with
          | Ok resp' => settle incInvitationsSent (inviteError m resp') resp' r1
          | Throw e => pushError (memberError m e) r1
          end))).
Proof.
  intros Hlive Hig. split.
  - intros Hd Hax s1 r1.
    unfold memberStep, processMember. rewrite Hig, Hd.
    unfold try_catch, bind. rewrite deleteMember_live by assumption.
    rewrite Hax. rewrite sendNewInvitation_live by assumption.
    fold s1 r1. by destruct (handOn (http_post _ _ _ _)).
  - intros Hd Hm Hax s1 r1.
    unfold memberStep, processMember. rewrite Hig, Hd, Hm.
    unfold try_catch, bind. rewrite markMemberAsObsolete_live by assumption.
    rewrite Hax. rewrite sendNewInvitation_live by assumption.
    fold s1 r1. by destruct (handOn (http_post _ _ _ _)).
Qed.

(** ** The calls of a live run, in order *)

Lemma memberStep_answered opts tc m s r :
  dryRun opts = false ->
  answersAll w ->
  shouldIgnoreMember js opts m = false ->
  exists s' r',
    memberStep js w opts tc m (s, r) = (Ok tt, (s', r'))
    /\ trace s' = trace s ++ callsFor opts tc m.
Proof.
  intros Hlive (Hpost & Hpatch & Hdel) Hig.
  unfold memberStep, processMember, callsFor. rewrite Hig.
  unfold try_catch, bind, ret.
  destruct (deleteMembers opts) eqn:Hd; [| destruct (markObsolete opts) eqn:Hm];
    rewrite ?deleteMember_live, ?markMemberAsObsolete_live by assumption;
    try (destruct (Hdel (trace s) (deleteRequest m tc) (tc_apiKey tc)) as (resp & ->));
    try (destruct (Hpatch (trace s) (updateRequest m tc) (tc_apiKey tc)) as (resp & ->));
    rewrite sendNewInvitation_live by assumption;
    match goal with |- context [http_post w ?t ?q ?k] =>
      destruct (Hpost t q k) as (resp' & ->) end;
    eexists _, _; (split; [reflexivity |]); simpl;
    rewrite <- ?app_assoc; reflexivity.
Qed.

Lemma memberLoop_answered opts tc ms :
  dryRun opts = false ->
  answersAll w ->
  forall s r,
  exists s' r',
    forEach ms (memberStep js w opts tc) (s, r) = (Ok tt, (s', r'))
    /\ trace s' = trace s ++ concat (map (callsFor opts tc) (kept js opts ms)).
Proof.
  intros Hlive Hall. unfold kept.
  induction ms as [| m ms IH]; intros s r.
  - exists s, r. simpl. by rewrite app_nil_r.
  - simpl. unfold bind.
    destruct (shouldIgnoreMember js opts m) eqn:Hig.
    + rewrite memberStep_ignored by assumption. simpl. apply IH.
    + destruct (memberStep_answered opts tc m s r Hlive Hall Hig)
        as (s1 & r1 & -> & Htr1).
      destruct (IH s1 r1) as (s2 & r2 & -> & Htr2).
      exists s2, r2. split; [reflexivity |].
      simpl. rewrite Htr2, Htr1, app_assoc. reflexivity.
Qed.

(** In a live run that the backup step does not stop, and in which the
    server answers every call, the update, delete and invite calls are
    exactly these, in this order: for each fetched member the ignore check
    lets through, in the order of the fetch, the delete or the update
    according to the flags, then the invitation. They come after the
    fetch and the backup. *)
Theorem migrateTeam_call_order opts tc s :
  dryRun opts = false ->
  answersAll w ->
  migrationAborts js w opts tc s = false ->
  exists r s' before,
    migrateTeam js w opts tc s = (Ok r, s')
    /\ trace s'
       = trace s ++ before
         ++ concat (map (callsFor opts tc) (kept js opts (fetchedMembers w tc s)))
    /\ Forall (fun e => isMemberCall e = false) before.
Proof.
  intros Hlive Hall. unfold migrateTeam, migrationAborts.
  destruct (getMembers w (teamId tc) (tc_apiKey tc) s) as [[resp | e] s1] eqn:Hget.
  2: { rewrite (migrateTeamWith_fetch_throws js w _ opts tc s e s1 Hget).
       rewrite (getMembers_trace w _ _ _ _ _ Hget).
       rewrite (fetchedMembers_throw tc s e s1 Hget). intros _.
       eexists _, _, [_]. split; [reflexivity |]. split; [reflexivity |].
       repeat constructor. }
  destruct (decide (status resp = 200%Z)) as [H200 | Hne].
  2: { rewrite (migrateTeamWith_fetch_refused js w _ opts tc s resp s1 Hget Hne).
       rewrite (getMembers_trace w _ _ _ _ _ Hget).
       rewrite (fetchedMembers_refused tc s resp s1 Hget Hne). intros _.
       eexists _, _, [_]. split; [reflexivity |]. split; [reflexivity |].
       repeat constructor. }
  rewrite (fetchedMembers_200 w tc s resp s1 Hget H200).
  destruct (migrateTeamWith_fetched js w (backupMembers js w opts) opts tc s resp s1
              Hget H200) as (r1 & _ & _ & _ & _ & _ & ->).
  pose proof (getMembers_trace w _ _ _ _ _ Hget) as ->.
  intros Hab. simpl. rewrite Hab.
  set (s1 := log (EvGetMembers (teamId tc) (tc_apiKey tc)) s).
  destruct (backupMembers_returns js w opts (teamId tc) (data resp) s1)
    as (b & sb & evb & Hb & Htrb & Hallb).
  rewrite Hb. simpl.
  match goal with |- context [forEach _ _ (?x, _)] =>
    destruct (memberLoop_answered opts tc (data resp) Hlive Hall x r1)
      as (s3 & r & -> & Htr) end.
  destruct (backupRuns opts (data resp)).
  - exists r, s3, (EvGetMembers (teamId tc) (tc_apiKey tc) :: evb).
    split; [reflexivity |]. split.
    + rewrite Htr, Htrb. subst s1. simpl. by rewrite <- !app_assoc.
    + constructor; [reflexivity | assumption].
  - exists r, s3, [EvGetMembers (teamId tc) (tc_apiKey tc)].
    split; [reflexivity |]. split.
    + rewrite Htr. subst s1. simpl. by rewrite <- !app_assoc.
    + repeat constructor.
Qed.

(** The flags select the calls: without [deleteMembers] a run makes no
    delete call and counts no deleted member; without [markObsolete] it
    makes no update call and counts no member as marked obsolete. With
    neither flag the members are only invited. *)
Theorem migrateTeam_flags_select_calls opts tc s :
  exists r s' evs,
    migrateTeam js w opts tc s = (Ok r, s')
    /\ trace s' = trace s ++ evs
    /\ (deleteMembers opts = false ->
        Forall (fun e => isDeleteCall e = false) evs /\ membersDeleted r = 0%nat)
    /\ (markObsolete opts = false ->
        Forall (fun e => isUpdateCall e = false) evs
        /\ membersMarkedObsolete r = 0%nat).
Proof.
  destruct (migrateTeam_run js w opts tc s)
    as (r & s' & evs & Hrun & Htr & Hall & _).
  destruct (migrateTeamWith_bounds (backupMembers js w opts) opts tc s)
    as (r' & s'' & Hrun' & _ & _ & _ & _ & Hdel & Hobs).
  unfold migrateTeam in Hrun. rewrite Hrun in Hrun'. injection Hrun' as <- <-.
  exists r, s', evs. split; [exact Hrun |]. split; [exact Htr |]. split.
  - intros Hd. rewrite Hd in Hdel. simpl in Hdel. split; [| lia].
    eapply Forall_impl; [exact Hall |]. simpl.
    intros e He. destruct e; try reflexivity.
    destruct (He eq_refl) as (m & _ & _ & Hcall). inversion Hcall; congruence.
  - intros Hm. rewrite Hm, andb_false_r in Hobs. simpl in Hobs. split; [| lia].
    eapply Forall_impl; [exact Hall |]. simpl.
    intros e He. destruct e; try reflexivity.
    destruct (He eq_refl) as (m & _ & _ & Hcall). inversion Hcall; congruence.
Qed.

(** ** The ignore check and the constructor *)

(** The ignore check looks at the email only, through [toLowerCase]: two
    members whose emails differ by case at most get the same answer; and
    it looks at the ignore list as a set: order and repetitions of its
    entries do not matter. *)
Theorem shouldIgnoreMember_email_only opts opts' m m' :
  (toLowerCase js (email m) = toLowerCase js (email m') ->
   shouldIgnoreMember js opts m = shouldIgnoreMember js opts m')
  /\ ((forall e, e ∈ default [] (ignoredEmails opts)
                 <-> e ∈ default [] (ignoredEmails opts')) ->
      shouldIgnoreMember js opts m = shouldIgnoreMember js opts' m).
Proof.
  split.
  - intros He. unfold shouldIgnoreMember. by rewrite He.
  - intros Hsame.
    assert (Hspec : forall o,
               shouldIgnoreMember js o m = true
               <-> exists e, e ∈ default [] (ignoredEmails o)
                             /\ toLowerCase js e = toLowerCase js (email m)).
    { intros o. unfold shouldIgnoreMember.
      destruct (ignoredEmails o) as [l |]; simpl.
      - rewrite existsb_exists. split.
        + intros (e & Hin & He). exists e. split; [by apply list_elem_of_In |].
          by apply bool_decide_eq_true in He.
        + intros (e & Hin & He). exists e. split; [by apply list_elem_of_In |].
          by apply bool_decide_eq_true.
      - split; [discriminate |]. intros (e & Hin & _). inversion Hin. }
    destruct (shouldIgnoreMember js opts m) eqn:H1,
             (shouldIgnoreMember js opts' m) eqn:H2; try reflexivity.
    + apply Hspec in H1 as (e & Hin & He).
      assert (shouldIgnoreMember js opts' m = true) as Habs
        by (apply Hspec; exists e; split; [by apply Hsame | exact He]).
      congruence.
    + apply Hspec in H2 as (e & Hin & He).
      assert (shouldIgnoreMember js opts m = true) as Habs
        by (apply Hspec; exists e; split; [by apply Hsame | exact He]).
      congruence.
Qed.

(** The constructor only normalises the ignore list: the service built
    from some options always has a list, ignores the same members, and
    migrates and restores as those options do. *)
Theorem MigrationService_transparent options tc p s :
  ignoredEmails (MigrationService options)
  = Some (default [] (ignoredEmails options))
  /\ (forall m, shouldIgnoreMember js (MigrationService options) m
                = shouldIgnoreMember js options m)
  /\ migrateTeam js w (MigrationService options) tc s = migrateTeam js w options tc s
  /\ restoreFromBackup js w (MigrationService options) p tc s
     = restoreFromBackup js w options p tc s.
Proof.
  destruct options as [mo de dr bk [l |]]; unfold MigrationService; simpl.
  - unfold defaultIgnoredEmails. rewrite app_nil_r. by repeat split.
  - repeat split; reflexivity.
Qed.

(** ** Restore, continued *)

(** A backup that cannot be loaded: when nothing is at the path the result
    is the single error ["Backup file not found: <path>"]; when the file
    does not parse it is ["Error restoring from backup: <message>"]. In
    both cases nothing is restored, the flag is [false], and no call is
    made, in any mode. *)
Theorem restoreFromBackup_load_failure opts p tc s :
  (files s !! p = None -> p ∉ dirs s ->
   restoreFromBackup js w opts p tc s
   = (Ok {| success := false; membersRestored := 0;
            rr_errors := ["Backup file not found: " +:+ p] |}, s))
  /\ (forall content e,
        files s !! p = Some content ->
        JSON_parse js content = inl e ->
        restoreFromBackup js w opts p tc s
        = (Ok {| success := false; membersRestored := 0;
                 rr_errors := ["Error restoring from backup: " +:+ e] |}, s)).
Proof.
  split.
  - intros Hfile Hdir.
    unfold restoreFromBackup, restoreBody. unfold_monad.
    rewrite (existsSync_no_file p s Hfile).
    rewrite (bool_decide_eq_false_2 (p ∈ dirs s)) by assumption.
    reflexivity.
  - intros content e Hfile Hparse.
    unfold restoreFromBackup, restoreBody, parseMembers. unfold_monad.
    rewrite (existsSync_file p s content Hfile). cbv beta iota delta [negb].
    rewrite (readFileSync_file p s content Hfile), Hparse. reflexivity.
Qed.

Lemma restoreLoop_account opts tc ms :
  dryRun opts = false ->
  forall s r,
  exists s' r',
    forEach ms (restoreStep js w opts tc) (s, r) = (Ok tt, (s', r'))
    /\ trace s' = trace s ++ map (inviteCall tc) (kept js opts ms)
    /\ files s' = files s /\ dirs s' = dirs s
    /\ (membersRestored r' + length (rr_errors r')
        = membersRestored r + length (rr_errors r) + length (kept js opts ms))%nat
    /\ (membersRestored r <= membersRestored r')%nat.
Proof.
  intros Hlive. unfold kept.
  induction ms as [| m ms IH]; intros s r.
  - exists s, r. simpl. rewrite app_nil_r. repeat split; auto; lia.
  - simpl. unfold bind.
    destruct (shouldIgnoreMember js opts m) eqn:Hig.
    + rewrite restoreStep_ignored by assumption. simpl. apply IH.
    + rewrite restoreStep_live by assumption. simpl.
      match goal with |- context [forEach ms _ (?x, ?y)] =>
        destruct (IH x y) as (s' & r' & -> & Htr & Hf & Hd & Hsum & Hle) end.
      exists s', r'. split; [reflexivity |].
      split; [rewrite Htr; simpl; rewrite <- app_assoc; reflexivity |].
      split; [exact Hf |]. split; [exact Hd |].
      destruct (handOn _); simpl in *; rewrite ?length_app in *; simpl in *;
        split; lia.
Qed.

(** A live restore of a backup that loads: the calls made are exactly one
    invitation for each member of the backup that the ignore check lets
    through, in the order of the file, and nothing else (no update, no
    delete, no write); each of these members is either counted as restored
    or has one error, so both together number as many as those members. *)
Theorem restoreFromBackup_live_calls opts p tc s content members :
  files s !! p = Some content ->
  JSON_parse js content = inr members ->
  dryRun opts = false ->
  exists r s',
    restoreFromBackup js w opts p tc s = (Ok r, s')
    /\ trace s' = trace s ++ map (inviteCall tc) (kept js opts members)
    /\ files s' = files s /\ dirs s' = dirs s
    /\ (membersRestored r + length (rr_errors r)
        = length (kept js opts members))%nat.
Proof.
  intros Hfile Hparse Hlive.
  rewrite (restoreFromBackup_loaded js w opts p tc s content members Hfile Hparse).
  rewrite Hlive.
  destruct (restoreLoop_account opts tc members Hlive s emptyRestore)
    as (s' & r & -> & Htr & Hf & Hd & Hsum & _).
  eexists _, s'. split; [reflexivity |]. simpl in *.
  repeat split; auto.
Qed.

(** ** The transport client *)

(** The invitations built from a member: one for each project, in the
    order of the projects, each with the id, the roles and the custom
    permissions of its project; [useCustom] is a boolean, set exactly when
    the project has at least one custom permission. A member without
    projects gives no invitation. *)
Theorem convertMemberProjectsToInvites_spec m :
  Forall2 (fun kv i =>
             projectId i = fst kv
             /\ pi_roles i = roles (snd kv)
             /\ permissions i = customPermissions (snd kv)
             /\ (useCustom i = Some true \/ useCustom i = Some false)
             /\ (useCustom i = Some true
                 <-> exists q qs, customPermissions (snd kv) = Some (q :: qs)))
          (projects m) (convertMemberProjectsToInvites m)
  /\ (projects m = [] -> convertMemberProjectsToInvites m = []).
Proof.
  unfold convertMemberProjectsToInvites. split.
  - induction (projects m) as [| [k pr] l IH]; simpl; constructor; [| exact IH].
    simpl. split; [reflexivity |]. split; [reflexivity |]. split; [reflexivity |].
    destruct (customPermissions pr) as [[| q qs] |]; simpl.
    + split; [by right |].
      split; [discriminate | intros (? & ? & ?); discriminate].
    + split; [by left |]. split; [intros _; by eauto | reflexivity].
    + split; [by right |].
      split; [discriminate | intros (? & ? & ?); discriminate].
  - intros ->. reflexivity.
Qed.

(** An HTTP error answer is not a fault. When axios rejects a delete, an
    update or an invitation with an error that carries a response whose
    status is not 2xx, the operation records one error that ends with the
    status text of the response, or with ["Unknown Error"] when that text
    is empty, and counts nothing. *)
Theorem error_response_is_recorded opts m tc s r resp :
  dryRun opts = false ->
  isSuccess (status resp) = false ->
  (http_post w (trace s) (inviteRequest m tc) (tc_apiKey tc) = AxRejectResponse resp ->
   sendNewInvitation w opts m tc (s, r)
   = (Ok tt, (log (EvInviteMember (inviteRequest m tc) (tc_apiKey tc)) s,
              pushError ("Failed to send invitation to " +:+ email m +:+ ": "
                         +:+ shownStatus resp) r)))
  /\ (http_patch w (trace s) (updateRequest m tc) (tc_apiKey tc) = AxRejectResponse resp ->
      markMemberAsObsolete w opts m tc (s, r)
      = (Ok tt, (log (EvUpdateMember (updateRequest m tc) (tc_apiKey tc)) s,
                 pushError ("Failed to mark " +:+ email m +:+ " as obsolete: "
                            +:+ shownStatus resp) r)))
  /\ (http_delete w (trace s) (deleteRequest m tc) (tc_apiKey tc) = AxRejectResponse resp ->
      deleteMember w opts m tc (s, r)
      = (Ok tt, (log (EvDeleteMember (deleteRequest m tc) (tc_apiKey tc)) s,
                 pushError ("Failed to delete " +:+ email m +:+ ": "
                            +:+ shownStatus resp) r))).
Proof.
  intros Hlive Hfail. split; [| split]; intros Hax.
  - rewrite sendNewInvitation_live by assumption. rewrite Hax. simpl.
    unfold settle. simpl. rewrite Hfail. reflexivity.
  - rewrite markMemberAsObsolete_live by assumption. rewrite Hax. simpl.
    unfold settle. simpl. rewrite Hfail. reflexivity.
  - rewrite deleteMember_live by assumption. rewrite Hax. simpl.
    unfold settle. simpl. rewrite Hfail. reflexivity.
Qed.

End More.

(** * The driver *)

Section DriverTheory.

Context (js : Builtins) (w : World) (trim : string -> string).

Lemma seen_spec (x : string) (seen : list string) :
  existsb (String.eqb x) seen = true <-> x ∈ seen.
Proof.
  rewrite existsb_exists. split.
  - intros (y & Hin & Heq). apply String.eqb_eq in Heq as ->.
    by apply list_elem_of_In.
  - intros Hin. exists x. split; [by apply list_elem_of_In | apply String.eqb_refl].
Qed.

Lemma unique_from (l : list string) : forall seen,
  NoDup seen ->
  NoDup (fold_left (fun seen x => if existsb (String.eqb x) seen
                                  then seen else seen ++ [x]) l seen)
  /\ (forall x, x ∈ fold_left (fun seen x => if existsb (String.eqb x) seen
                                             then seen else seen ++ [x]) l seen
                <-> x ∈ seen \/ x ∈ l).
Proof.
  induction l as [| y l IH]; intros seen Hnd; simpl.
  - split; [exact Hnd |]. intros x. split; [by left | intros [H | H]; [exact H | inversion H]].
  - destruct (existsb (String.eqb y) seen) eqn:Hy.
    + destruct (IH seen Hnd) as [Hn Hm]. split; [exact Hn |].
      intros x. rewrite Hm. apply seen_spec in Hy.
      split; [intros [H | H]; [by left | right; by right] |].
      intros [H | H]; [by left |].
      inversion H; subst; [by left | by right].
    + assert (Hnot : y ∉ seen).
      { intros Hin. apply seen_spec in Hin. congruence. }
      assert (Hnd' : NoDup (seen ++ [y])).
      { apply NoDup_app. split; [exact Hnd |]. split.
        - intros x Hx Hx'. apply list_elem_of_singleton in Hx'. by subst.
        - apply NoDup_singleton. }
      destruct (IH (seen ++ [y]) Hnd') as [Hn Hm]. split; [exact Hn |].
      intros x. rewrite Hm, elem_of_app, list_elem_of_singleton.
      split.
      * intros [[H | ->] | H]; [by left | right; left | right; by right].
      * intros [H | H]; [left; by left |].
        inversion H; subst; [left; by right | by right].
Qed.

(** [[...new Set(l)]] has the elements of [l], each once. *)
Lemma unique_spec (l : list string) :
  NoDup (unique l) /\ (forall x, x ∈ unique l <-> x ∈ l).
Proof.
  destruct (unique_from l [] (NoDup_nil_2 : NoDup []))  as [Hn Hm].
  split; [exact Hn |]. intros x. unfold unique. rewrite Hm.
  split; [intros [H | H]; [inversion H | exact H] | by right].
Qed.

Lemma commaList_nonempty (s : string) : Forall (fun x => x <> "") (commaList trim s).
Proof.
  unfold commaList. apply Forall_forall. intros x Hin.
  apply list_elem_of_In, filter_In in Hin as [_ Hx].
  intros ->. discriminate.
Qed.

(** The ignore list the driver builds has no repetition and no empty
    entry; it holds exactly the trimmed, non-empty entries of
    [IGNORED_EMAILS] and of [--ignore-emails]; and the service built from
    the driver's options ignores a member exactly when one of these
    entries equals its email up to case. *)
Theorem combinedIgnoredEmails_spec env cl :
  trim "" = "" ->
  NoDup (combinedIgnoredEmails trim env cl)
  /\ Forall (fun e => e <> "") (combinedIgnoredEmails trim env cl)
  /\ (forall e, e ∈ combinedIgnoredEmails trim env cl
                <-> e ∈ commaList trim (default "" (IGNORED_EMAILS env))
                    \/ e ∈ commaList trim (ignoreEmails cl))
  /\ (forall m,
        shouldIgnoreMember js (MigrationService (migrationOptions trim env cl)) m = true
        <-> exists e,
              (e ∈ commaList trim (default "" (IGNORED_EMAILS env))
               \/ e ∈ commaList trim (ignoreEmails cl))
              /\ toLowerCase js e = toLowerCase js (email m)).
Proof.
  intros Htrim.
  assert (Hempty : commaList trim "" = []).
  { unfold commaList. simpl. rewrite Htrim. reflexivity. }
  assert (Hmem : forall e, e ∈ combinedIgnoredEmails trim env cl
                           <-> e ∈ commaList trim (default "" (IGNORED_EMAILS env))
                               \/ e ∈ commaList trim (ignoreEmails cl)).
  { intros e. unfold combinedIgnoredEmails.
    destruct (unique_spec
                ((match IGNORED_EMAILS env with
                  | Some list => if String.eqb list "" then [] else commaList trim list
                  | None => []
                  end)
                 ++ (if String.eqb (ignoreEmails cl) "" then []
                     else commaList trim (ignoreEmails cl)))) as [_ ->].
    rewrite elem_of_app.
    assert (H1 : (match IGNORED_EMAILS env with
                  | Some list => if String.eqb list "" then [] else commaList trim list
                  | None => []
                  end) = commaList trim (default "" (IGNORED_EMAILS env))).
    { destruct (IGNORED_EMAILS env) as [l |]; simpl; [| by rewrite Hempty].
      destruct (String.eqb l "") eqn:E; [| reflexivity].
      apply String.eqb_eq in E as ->. by rewrite Hempty. }
    assert (H2 : (if String.eqb (ignoreEmails cl) "" then []
                  else commaList trim (ignoreEmails cl))
                 = commaList trim (ignoreEmails cl)).
    { destruct (String.eqb (ignoreEmails cl) "") eqn:E; [| reflexivity].
      apply String.eqb_eq in E. rewrite E. by rewrite Hempty. }
    rewrite H1, H2. reflexivity. }
  split; [apply unique_spec |]. split; [| split; [exact Hmem |]].
  - apply Forall_forall. intros e He. apply Hmem in He.
    destruct He as [He | He];
      exact (proj1 (Forall_forall _ _) (commaList_nonempty _) e He).
  - intros m. unfold shouldIgnoreMember, MigrationService. simpl.
    unfold defaultIgnoredEmails. rewrite app_nil_r, existsb_exists. split.
    + intros (e & Hin & He). exists e.
      split; [apply Hmem; by apply list_elem_of_In |].
      by apply bool_decide_eq_true in He.
    + intros (e & Hin & He). exists e.
      split; [apply list_elem_of_In; by apply Hmem |].
      by apply bool_decide_eq_true.
Qed.

(** The team list taken from the environment: the script stops when
    [TEAM_IDS] holds no identifier or when [UNIFORM_API_KEY] is missing or
    empty; otherwise there is one team for each non-empty trimmed
    identifier, in the order given, all with the one key. *)
Theorem teamConfigsFromEnvironment_spec env :
  match teamConfigsFromEnvironment trim env with
  | inr teamConfigs =>
      teamConfigs <> []
      /\ map teamId teamConfigs = commaList trim (default "" (TEAM_IDS env))
      /\ Forall (fun tc => teamId tc <> "" /\ tc_apiKey tc <> ""
                           /\ UNIFORM_API_KEY env = Some (tc_apiKey tc)) teamConfigs
  | inl _ =>
      match TEAM_IDS env with
      | Some ids => commaList trim ids = []
      | None => True
      end
      \/ UNIFORM_API_KEY env = None \/ UNIFORM_API_KEY env = Some ""
  end.
Proof.
  unfold teamConfigsFromEnvironment.
  destruct (TEAM_IDS env) as [ids |]; simpl; [| by left].
  pose proof (commaList_nonempty ids) as Hne.
  destruct (commaList trim ids) as [| t ts] eqn:Hids; simpl; [by left |].
  destruct (UNIFORM_API_KEY env) as [key |]; [| right; by left].
  destruct (String.eqb key "") eqn:Hkey.
  { apply String.eqb_eq in Hkey as ->. right; by right. }
  apply String.eqb_neq in Hkey.
  split; [discriminate |]. split.
  - simpl. f_equal. rewrite map_map. simpl. apply map_id.
  - inversion Hne as [| ? ? Ht Hts]; subst.
    constructor; [by repeat split |].
    apply Forall_map. eapply Forall_impl; [exact Hts |].
    intros x Hx. by repeat split.
Qed.

(** ** The two loops of the driver *)

Lemma migrateTeam_respects service tc s :
  exists r s' evs,
    migrateTeam js w service tc s = (Ok r, s')
    /\ mr_teamId r = teamId tc
    /\ trace s' = trace s ++ evs
    /\ resultRespects service r
    /\ Forall (callRespects service) evs.
Proof.
  destruct (migrateTeam_run js w service tc s)
    as (r & s' & evs & Hrun & Htr & Hall & Hdry & _).
  destruct (migrateTeamWith_bounds js w (backupMembers js w service) service tc s)
    as (r' & s'' & Hrun' & Ht & Hf & Hs & Hi & Hd & Ho).
  unfold migrateTeam in Hrun. rewrite Hrun in Hrun'. injection Hrun' as <- <-.
  pose proof (kept_ignored_length js service (fetchedMembers w tc s)) as Hlen.
  exists r, s', evs. split; [exact Hrun |]. split; [exact Ht |].
  split; [exact Htr |]. split.
  - unfold resultRespects, onlyIf in *.
    split; [lia |]. split.
    + intros E. rewrite E in Hd. lia.
    + intros [E | E]; rewrite E in Ho; simpl in Ho; rewrite ?andb_false_r in Ho; lia.
  - apply Forall_forall. intros e He. unfold callRespects.
    pose proof (proj1 (Forall_forall _ _) Hall e He) as Horigin.
    split; [| split].
    + intros E. destruct e; try reflexivity.
      destruct (Horigin eq_refl) as (m & _ & _ & Hcall). inversion Hcall; congruence.
    + intros E. destruct e; try reflexivity.
      destruct (Horigin eq_refl) as (m & _ & _ & Hcall).
      inversion Hcall; destruct E; congruence.
    + intros E. exact (proj1 (Forall_forall _ _) (Hdry E) e He).
Qed.

Lemma migrateTeams_spec service teamConfigs : forall s results,
  exists s' new evs,
    migrateTeams js w service teamConfigs (s, results) = (Ok tt, (s', results ++ new))
    /\ map mr_teamId new = map teamId teamConfigs
    /\ trace s' = trace s ++ evs
    /\ Forall (resultRespects service) new
    /\ Forall (callRespects service) evs.
Proof.
  induction teamConfigs as [| tc tcs IH]; intros s results.
  - exists s, [], []. simpl. rewrite !app_nil_r. by repeat split.
  - destruct (migrateTeam_respects service tc s)
      as (r & s1 & evs1 & Hrun & Ht & Htr & Hr & He).
    destruct (IH s1 (results ++ [r])) as (s2 & new & evs2 & Hloop & Hn & Htr2 & Hr2 & He2).
    exists s2, (r :: new), (evs1 ++ evs2).
    split.
    { unfold migrateTeams in *. simpl. unfold_monad. rewrite Hrun. simpl.
      rewrite Hloop. by rewrite <- app_assoc. }
    split; [simpl; by rewrite Ht, Hn |].
    split; [rewrite Htr2, Htr, app_assoc; reflexivity |].
    split; [by constructor | by apply Forall_app].
Qed.

Lemma migrationTotals_respects service (results : list MigrationResult) :
  Forall (resultRespects service) results ->
  forall t n,
    ((totalSkipped t + totalInvitations t <= totalMembers t)%nat
     /\ (totalBackups t <= n)%nat
     /\ (deleteMembers service = false -> totalDeleted t = 0%nat)
     /\ (deleteMembers service = true \/ markObsolete service = false ->
         totalMarkedObsolete t = 0%nat)) ->
    let t' := fold_left
                (fun t result =>
                   {| totalMembers := totalMembers t + membersFound result;
                      totalSkipped := totalSkipped t + skippedMembers result;
                      totalMarkedObsolete :=
                        totalMarkedObsolete t + membersMarkedObsolete result;
                      totalDeleted := totalDeleted t + membersDeleted result;
                      totalInvitations := totalInvitations t + invitationsSent result;
                      totalBackups :=
                        totalBackups t + (if backupCreated result then 1 else 0);
                      totalErrors := totalErrors t + length (errors result) |})
                results t in
    (totalSkipped t' + totalInvitations t' <= totalMembers t')%nat
    /\ (totalBackups t' <= n + length results)%nat
    /\ (deleteMembers service = false -> totalDeleted t' = 0%nat)
    /\ (deleteMembers service = true \/ markObsolete service = false ->
        totalMarkedObsolete t' = 0%nat).
Proof.
  induction 1 as [| r rs (Hsum & Hdel & Hobs) _ IH]; intros t n (H1 & H2 & H3 & H4).
  - simpl. repeat split; auto. lia.
  - simpl.
    match goal with |- context [fold_left _ rs ?t0] =>
      destruct (IH t0 (S n)) as (I1 & I2 & I3 & I4) end.
    { simpl. split; [lia |]. split; [destruct (backupCreated r); lia |].
      split; [intros E; rewrite (H3 E), (Hdel E); reflexivity |].
      intros E. rewrite (H4 E), (Hobs E). reflexivity. }
    repeat split; auto. lia.
Qed.

(** A batch gives one result for each team, in the order of the teams;
    no team stops the others, whatever the host does. The totals add up:
    skipped and invited members never exceed the members found, and there
    are at most as many backups as teams. *)
Theorem runMigration_one_result_per_team env cl teamConfigs s :
  exists results s',
    runMigration js w trim env cl teamConfigs s
    = (Ok (results, migrationTotals results), s')
    /\ map mr_teamId results = map teamId teamConfigs
    /\ (totalSkipped (migrationTotals results)
        + totalInvitations (migrationTotals results)
        <= totalMembers (migrationTotals results))%nat
    /\ (totalBackups (migrationTotals results) <= length teamConfigs)%nat.
Proof.
  unfold runMigration.
  destruct (migrateTeams_spec (MigrationService (migrationOptions trim env cl))
              teamConfigs s [])
    as (s' & new & evs & -> & Hn & _ & Hr & _).
  simpl. exists new, s'. split; [reflexivity |]. split; [exact Hn |].
  destruct (migrationTotals_respects _ new Hr
              {| totalMembers := 0; totalSkipped := 0; totalMarkedObsolete := 0;
                 totalDeleted := 0; totalInvitations := 0; totalBackups := 0;
                 totalErrors := 0 |} 0%nat) as (I1 & I2 & _).
  { simpl. repeat split; auto. }
  split; [exact I1 |].
  assert (length new = length teamConfigs) as <-
    by (rewrite <- (length_map mr_teamId new), Hn; apply length_map).
  exact I2.
Qed.

(** Through the driver the two ways of retiring a member exclude each
    other over the whole batch: with [--delete-members] no update call is
    made and nobody is counted as marked obsolete, whatever
    [--mark-obsolete] says; without it no delete call is made and nobody
    is counted as deleted. In a dry run no update, delete or invite call
    is made for any team. *)
Theorem runMigration_delete_excludes_obsolete env cl teamConfigs s :
  exists results s' evs,
    runMigration js w trim env cl teamConfigs s
    = (Ok (results, migrationTotals results), s')
    /\ trace s' = trace s ++ evs
    /\ (cl_deleteMembers cl = true ->
        Forall (fun e => isUpdateCall e = false) evs
        /\ totalMarkedObsolete (migrationTotals results) = 0%nat)
    /\ (cl_deleteMembers cl = false ->
        Forall (fun e => isDeleteCall e = false) evs
        /\ totalDeleted (migrationTotals results) = 0%nat)
    /\ (cl_dryRun cl = true -> Forall (fun e => isMemberCall e = false) evs).
Proof.
  unfold runMigration.
  destruct (migrateTeams_spec (MigrationService (migrationOptions trim env cl))
              teamConfigs s [])
    as (s' & new & evs & -> & _ & Htr & Hr & He).
  simpl. exists new, s', evs. split; [reflexivity |]. split; [exact Htr |].
  destruct (migrationTotals_respects _ new Hr
              {| totalMembers := 0; totalSkipped := 0; totalMarkedObsolete := 0;
                 totalDeleted := 0; totalInvitations := 0; totalBackups := 0;
                 totalErrors := 0 |} 0%nat) as (_ & _ & I3 & I4).
  { simpl. repeat split; auto. }
  simpl in I3, I4.
  split; [| split].
  - intros Hd. split; [| apply I4; by left].
    eapply Forall_impl; [exact He |]. intros e (_ & Hu & _). apply Hu. by left.
  - intros Hd. split; [| by apply I3].
    eapply Forall_impl; [exact He |]. intros e (Hdel & _). by apply Hdel.
  - intros Hdry. eapply Forall_impl; [exact He |]. intros e (_ & _ & Hm). by apply Hm.
Qed.

Lemma restoreFromBackup_calls opts p tc s :
  exists r s' evs,
    restoreFromBackup js w opts p tc s = (Ok r, s')
    /\ trace s' = trace s ++ evs
    /\ Forall (fun e => isInviteCall e = true) evs
    /\ files s' = files s /\ dirs s' = dirs s
    /\ (dryRun opts = true -> s' = s /\ membersRestored r = 0%nat).
Proof.
  assert (Hnot : (files s !! p = None
                  \/ exists content e, files s !! p = Some content
                                       /\ JSON_parse js content = inl e) ->
                 exists r s' evs,
                   restoreFromBackup js w opts p tc s = (Ok r, s')
                   /\ trace s' = trace s ++ evs
                   /\ Forall (fun e => isInviteCall e = true) evs
                   /\ files s' = files s /\ dirs s' = dirs s
                   /\ (dryRun opts = true -> s' = s /\ membersRestored r = 0%nat)).
  { intros H.
    destruct (restoreFromBackup_not_loaded js w opts p tc s H) as (r & Hrun & _ & Hn).
    exists r, s, []. rewrite app_nil_r. by repeat split. }
  destruct (files s !! p) as [content |] eqn:Hfile; [| apply Hnot; by left].
  destruct (JSON_parse js content) as [e | members] eqn:Hparse.
  { apply Hnot. right. by exists content, e. }
  rewrite (restoreFromBackup_loaded js w opts p tc s content members Hfile Hparse).
  destruct (dryRun opts) eqn:Hdry.
  - eexists _, s, []. rewrite app_nil_r. by repeat split.
  - destruct (restoreLoop_account js w opts tc members Hdry s emptyRestore)
      as (s' & r & -> & Htr & Hf & Hd & _).
    eexists _, s', _. split; [reflexivity |]. split; [exact Htr |].
    split; [| by repeat split].
    apply Forall_map, Forall_forall. reflexivity.
Qed.

Lemma restoreTeams_spec service file teamConfigs : forall s results,
  exists s' new evs,
    restoreTeams js w service file teamConfigs (s, results)
    = (Ok tt, (s', results ++ new))
    /\ map fst new = map teamId teamConfigs
    /\ trace s' = trace s ++ evs
    /\ Forall (fun e => isInviteCall e = true) evs
    /\ files s' = files s /\ dirs s' = dirs s
    /\ (dryRun service = true ->
        s' = s /\ Forall (fun x => membersRestored (snd x) = 0%nat) new).
Proof.
  induction teamConfigs as [| tc tcs IH]; intros s results.
  - exists s, [], []. simpl. rewrite !app_nil_r. by repeat split.
  - destruct (restoreFromBackup_calls service file tc s)
      as (r & s1 & evs1 & Hrun & Htr & He & Hf & Hd & Hdry).
    destruct (IH s1 (results ++ [(teamId tc, r)]))
      as (s2 & new & evs2 & Hloop & Hn & Htr2 & He2 & Hf2 & Hd2 & Hdry2).
    exists s2, ((teamId tc, r) :: new), (evs1 ++ evs2).
    split.
    { unfold restoreTeams in *. simpl. unfold_monad. rewrite Hrun. simpl.
      rewrite Hloop. by rewrite <- app_assoc. }
    split; [simpl; by rewrite Hn |].
    split; [rewrite Htr2, Htr, app_assoc; reflexivity |].
    split; [by apply Forall_app |].
    split; [congruence |]. split; [congruence |].
    intros E. destruct (Hdry E) as [-> Hr]. destruct (Hdry2 E) as [-> Hrs].
    split; [reflexivity | by constructor].
Qed.

(** A restore batch gives one result for each team, under the team's id,
    in order. The only calls it makes are invitations; it writes nothing.
    In a dry run it makes no call at all: the batch ends in the state it
    started in, and nobody is counted as restored. *)
Theorem runRestore_batch env cl teamConfigs s :
  exists results s' evs,
    runRestore js w trim env cl teamConfigs s
    = (Ok (results, restoreTotals results), s')
    /\ map fst results = map teamId teamConfigs
    /\ trace s' = trace s ++ evs
    /\ Forall (fun e => isInviteCall e = true) evs
    /\ files s' = files s /\ dirs s' = dirs s
    /\ (cl_dryRun cl = true ->
        s' = s /\ totalRestored (restoreTotals results) = 0%nat).
Proof.
  unfold runRestore.
  destruct (restoreTeams_spec (MigrationService (migrationOptions trim env cl))
              (restoreFrom cl) teamConfigs s [])
    as (s' & new & evs & -> & Hn & Htr & He & Hf & Hd & Hdry).
  simpl. exists new, s', evs. split; [reflexivity |].
  split; [exact Hn |]. split; [exact Htr |]. split; [exact He |].
  split; [exact Hf |]. split; [exact Hd |].
  intros E. destruct (Hdry E) as [-> Hzero]. split; [reflexivity |].
  unfold restoreTotals.
  assert (Hfold : forall t, totalRestored t = 0%nat ->
            totalRestored
              (fold_left
                 (fun t result =>
                    {| totalRestored := totalRestored t + membersRestored (snd result);
                       totalRestoreErrors :=
                         totalRestoreErrors t + length (rr_errors (snd result)) |})
                 new t) = 0%nat).
  { clear -Hzero. induction Hzero as [| x xs Hx _ IH]; intros t Ht; [exact Ht |].
    simpl. apply IH. simpl. lia. }
  by apply Hfold.
Qed.

End DriverTheory.

(** * The further properties on the sample team *)

Lemma calm_answersAll : answersAll Sample.calm.
Proof. repeat split; intros tr req key; eexists; reflexivity. Qed.

Lemma calm_noDiskFault : noDiskFault Sample.calm.
Proof. split; reflexivity. Qed.

(** The disk is full: the backup file is left empty, the older file is
    not touched, and the message of the error is reported. *)
Lemma backupMembers_effects_witness :
  exists b s',
    backupMembers Sample.js Sample.fullDisk (Sample.options true false false)
      "team-7" [Sample.ann] Sample.usedDisk = (Ok b, s')
    /\ br_success b = false
    /\ br_error b = Some "ENOSPC: no space left on device, write"
    /\ files s' !! "/work/backups/team-team-7-backup-2023-05-01T12-00-00-000Z.json"
       = Some ""
    /\ files s' !! "/work/backups/old.json" = Some "[]".
Proof.
  destruct (backupMembers_effects Sample.js Sample.fullDisk
              (Sample.options true false false) "team-7" [Sample.ann] Sample.usedDisk)
    as (b & s' & Hrun & Hother & _ & Hfail).
  assert (Hb : br_success b = false).
  { vm_compute in Hrun. injection Hrun as <- _. reflexivity. }
  destruct (Hfail Hb) as (_ & [(Hthere & _) | [(e & He & _) | (e & wr & He & Herr & Hf)]]).
  - vm_compute in Hthere. discriminate.
  - vm_compute in He. discriminate.
  - injection He as <- <-.
    exists b, s'. split; [exact Hrun |]. split; [exact Hb |]. split; [exact Herr |].
    split.
    + rewrite Hf. apply lookup_insert_eq.
    + rewrite Hother by (vm_compute; discriminate). reflexivity.
Defined.

(** A regular file sits at the path of the directory: no directory is
    created. The directory is missing and its creation is refused: the
    failure is reported and nothing is written. *)
Lemma backupMembers_directory_witness :
  (exists b s' evs,
      backupMembers Sample.js Sample.calm (Sample.options true false false)
        "team-7" [Sample.ann] Sample.blockedDisk = (Ok b, s')
      /\ trace s' = trace Sample.blockedDisk ++ evs
      /\ Forall (fun e => forall p, e <> EvMkdir p) evs
      /\ dirs s' = dirs Sample.blockedDisk)
  /\ backupMembers Sample.js Sample.lockedDisk (Sample.options true false false)
       "team-7" [Sample.ann] Sample.boot
     = (Ok {| br_success := false; br_path := None;
              br_error := Some "EACCES: permission denied, mkdir" |},
        log (EvMkdir "/work/backups") Sample.boot).
Proof.
  split.
  - destruct (backupMembers_directory Sample.js Sample.calm
                (Sample.options true false false) "team-7" [Sample.ann]
                Sample.blockedDisk) as (Hthere & _).
    apply Hthere. left. eexists. reflexivity.
  - destruct (backupMembers_directory Sample.js Sample.lockedDisk
                (Sample.options true false false) "team-7" [Sample.ann] Sample.boot)
      as (_ & Hfault & _).
    apply Hfault.
    + reflexivity.
    + set_solver.
    + reflexivity.
Defined.

Lemma migrateTeam_fetch_fault_witness :
  exists r,
    migrateTeam Sample.js Sample.offline (Sample.options true false false)
      Sample.team Sample.boot
    = (Ok r, log (EvGetMembers "team-7" "key-7") Sample.boot)
    /\ errors r = ["Error migrating team team-7: connect ECONNREFUSED"]
    /\ membersFound r = 0%nat.
Proof.
  destruct (migrateTeam_fetch_fault Sample.js Sample.offline
              (backupMembers Sample.js Sample.offline (Sample.options true false false))
              (Sample.options true false false) Sample.team Sample.boot
              "connect ECONNREFUSED" eq_refl)
    as (r & Hrun & Herr & Hfound & _).
  exists r. split; [exact Hrun |]. by split.
Defined.

Lemma migrateTeam_without_backup_witness :
  exists r s',
    migrateTeam Sample.js Sample.calm (Sample.optionsWithoutBackup true false false)
      Sample.team Sample.boot = (Ok r, s')
    /\ files s' = files Sample.boot
    /\ backupCreated r = false.
Proof.
  destruct (migrateTeam_without_backup Sample.js Sample.calm
              (backupMembers Sample.js Sample.calm
                 (Sample.optionsWithoutBackup true false false))
              (Sample.optionsWithoutBackup true false false) Sample.team Sample.boot
              eq_refl)
    as (r & s' & evs & Hrun & Hf & _ & _ & _ & Hc & _).
  exists r, s'. split; [exact Hrun |]. by split.
Defined.

(** A dry run writes the backup. *)
Lemma migrateTeam_writes_backup_witness :
  exists r s',
    migrateTeam Sample.js Sample.calm (Sample.options true false true)
      Sample.team Sample.boot = (Ok r, s')
    /\ backupCreated r = true
    /\ backupPath r = Some Sample.backupFile
    /\ files s' !! Sample.backupFile
       = Some (Sample.stringify [Sample.ann; Sample.root; Sample.bob]).
Proof.
  edestruct (migrateTeam_writes_backup Sample.js Sample.calm
               (Sample.options true false true) Sample.team Sample.boot)
    as (r & s' & p & Hrun & Hc & Hp & Hfile).
  - reflexivity.
  - reflexivity.
  - discriminate.
  - reflexivity.
  - exact calm_noDiskFault.
  - assert (Hpath : backupPath r = Some Sample.backupFile).
    { vm_compute in Hrun. injection Hrun as <- _. reflexivity. }
    rewrite Hp in Hpath. injection Hpath as ->.
    exists r, s'. split; [exact Hrun |]. split; [exact Hc |].
    split; [exact Hp |]. exact Hfile.
Defined.

(** A dry run on a disk that refuses the write. *)
Lemma backup_failure_is_not_fatal_witness :
  exists r s',
    migrateTeam Sample.js Sample.readOnlyDisk (Sample.options true true true)
      Sample.team Sample.boot = (Ok r, s')
    /\ backupCreated r = false
    /\ errors r = ["Failed to create backup: EROFS: read-only file system, open"]
    /\ skippedMembers r = 1%nat
    /\ invitationsSent r = 2%nat.
Proof.
  edestruct (backup_failure_is_not_fatal Sample.js Sample.readOnlyDisk
               (backupMembers Sample.js Sample.readOnlyDisk
                  (Sample.options true true true))
               (Sample.options true true true) Sample.team Sample.boot)
    as (r & s' & errs & Hrun & Hc & Herr & Hskip & Hdry).
  - reflexivity.
  - reflexivity.
  - reflexivity.
  - reflexivity.
  - reflexivity.
  - by right.
  - destruct (Hdry eq_refl) as [-> Hinv].
    exists r, s'. split; [exact Hrun |]. split; [exact Hc |].
    split; [exact Herr |]. split; [exact Hskip | exact Hinv].
Defined.

Lemma mutation_fault_skips_invitation_witness :
  memberStep Sample.js Sample.dropping (Sample.options true true false) Sample.team
    Sample.ann (Sample.boot, emptyResult "team-7")
  = (Ok tt, (log (EvDeleteMember (deleteRequest Sample.ann Sample.team) "key-7")
               Sample.boot,
             pushError "Error processing member Ann.Lee@example.com: socket hang up"
               (emptyResult "team-7"))).
Proof.
  destruct (mutation_fault_skips_invitation Sample.js Sample.dropping
              (Sample.options true true false) Sample.team Sample.ann Sample.boot
              (emptyResult "team-7") "socket hang up" eq_refl eq_refl)
    as (Hdelete & _).
  exact (Hdelete eq_refl eq_refl).
Defined.

(** The delete is answered with 302; the invitation is attempted and
    refused too. *)
Lemma invitation_follows_any_response_witness :
  exists s' r',
    memberStep Sample.js Sample.redirecting (Sample.options true true false)
      Sample.team Sample.ann (Sample.boot, emptyResult "team-7") = (Ok tt, (s', r'))
    /\ Forall (fun e => isMemberCall e = true) (trace s')
    /\ length (trace s') = 2%nat
    /\ errors r' = ["Failed to delete Ann.Lee@example.com: Found";
                    "Failed to send invitation to Ann.Lee@example.com: Found"].
Proof.
  edestruct (invitation_follows_any_response Sample.js Sample.redirecting
               (Sample.options true true false) Sample.team Sample.ann Sample.boot
               (emptyResult "team-7"))
    as (Hdelete & _).
  - reflexivity.
  - reflexivity.
  - eexists _, _. split; [apply Hdelete; reflexivity |].
    split; [repeat constructor |]. split; reflexivity.
Defined.

Lemma migrateTeam_call_order_witness :
  exists r s' before,
    migrateTeam Sample.js Sample.calm (Sample.options true false false)
      Sample.team Sample.boot = (Ok r, s')
    /\ trace s'
       = before
         ++ [EvUpdateMember (updateRequest Sample.ann Sample.team) "key-7";
             EvInviteMember (inviteRequest Sample.ann Sample.team) "key-7";
             EvUpdateMember (updateRequest Sample.bob Sample.team) "key-7";
             EvInviteMember (inviteRequest Sample.bob Sample.team) "key-7"]
    /\ Forall (fun e => isMemberCall e = false) before.
Proof.
  destruct (migrateTeam_call_order Sample.js Sample.calm
              (Sample.options true false false) Sample.team Sample.boot
              eq_refl calm_answersAll eq_refl)
    as (r & s' & before & Hrun & Htr & Hnone).
  exists r, s', before. split; [exact Hrun |]. split; [exact Htr | exact Hnone].
Defined.

(** Neither flag: the members are only invited. *)
Lemma migrateTeam_flags_select_calls_witness :
  exists r s' evs,
    migrateTeam Sample.js Sample.calm (Sample.options false false false)
      Sample.team Sample.boot = (Ok r, s')
    /\ trace s' = trace Sample.boot ++ evs
    /\ Forall (fun e => isDeleteCall e = false) evs
    /\ Forall (fun e => isUpdateCall e = false) evs
    /\ membersDeleted r = 0%nat /\ membersMarkedObsolete r = 0%nat.
Proof.
  destruct (migrateTeam_flags_select_calls Sample.js Sample.calm
              (Sample.options false false false) Sample.team Sample.boot)
    as (r & s' & evs & Hrun & Htr & Hdel & Hobs).
  destruct (Hdel eq_refl) as [Hd1 Hd2]. destruct (Hobs eq_refl) as [Ho1 Ho2].
  exists r, s', evs. by repeat split.
Defined.

(** Bob under another spelling of his email, and an ignore list that
    holds it. *)
Lemma shouldIgnoreMember_email_only_witness :
  shouldIgnoreMember Sample.js
    (MigrationService (migrationOptions Sample.trim Sample.environment
                         Sample.commandLine)) Sample.bob
  = shouldIgnoreMember Sample.js
      (MigrationService (migrationOptions Sample.trim Sample.environment
                           Sample.commandLine)) Sample.bobShouting.
Proof.
  destruct (shouldIgnoreMember_email_only Sample.js
              (MigrationService (migrationOptions Sample.trim Sample.environment
                                   Sample.commandLine))
              (MigrationService (migrationOptions Sample.trim Sample.environment
                                   Sample.commandLine))
              Sample.bob Sample.bobShouting) as (Hsame & _).
  apply Hsame. reflexivity.
Defined.

Lemma restoreFromBackup_load_failure_witness :
  restoreFromBackup Sample.js Sample.calm Sample.restoreOptions "/b/missing.json"
    Sample.team Sample.disk
  = (Ok {| success := false; membersRestored := 0;
           rr_errors := ["Backup file not found: /b/missing.json"] |}, Sample.disk)
  /\ restoreFromBackup Sample.js Sample.calm Sample.restoreOptions "/b/bad.json"
       Sample.team Sample.disk
     = (Ok {| success := false; membersRestored := 0;
              rr_errors := ["Error restoring from backup: Unexpected token in JSON"] |},
        Sample.disk).
Proof.
  split.
  - destruct (restoreFromBackup_load_failure Sample.js Sample.calm
                Sample.restoreOptions "/b/missing.json" Sample.team Sample.disk)
      as (Hmissing & _).
    apply Hmissing; [reflexivity |]. vm_compute. set_solver.
  - destruct (restoreFromBackup_load_failure Sample.js Sample.calm
                Sample.restoreOptions "/b/bad.json" Sample.team Sample.disk)
      as (_ & Hbad).
    apply (Hbad "oops"); reflexivity.
Defined.

Lemma restoreFromBackup_live_calls_witness :
  exists r s',
    restoreFromBackup Sample.js Sample.failingInvites Sample.restoreOptions
      "/b/one.json" Sample.team Sample.disk = (Ok r, s')
    /\ trace s' = [EvInviteMember (inviteRequest Sample.ann Sample.team) "key-7"]
    /\ files s' = files Sample.disk
    /\ (membersRestored r + length (rr_errors r) = 1)%nat.
Proof.
  edestruct (restoreFromBackup_live_calls Sample.js Sample.failingInvites
               Sample.restoreOptions "/b/one.json" Sample.team Sample.disk)
    as (r & s' & Hrun & Htr & Hf & _ & Hsum).
  - reflexivity.
  - vm_compute. reflexivity.
  - reflexivity.
  - exists r, s'. split; [exact Hrun |]. split; [exact Htr |]. by split.
Defined.

(** A gateway error without status text. *)
Lemma error_response_is_recorded_witness :
  sendNewInvitation Sample.silent (Sample.options false false false) Sample.ann
    Sample.team (Sample.boot, emptyResult "team-7")
  = (Ok tt, (log (EvInviteMember (inviteRequest Sample.ann Sample.team) "key-7")
               Sample.boot,
             pushError "Failed to send invitation to Ann.Lee@example.com: Unknown Error"
               (emptyResult "team-7"))).
Proof.
  destruct (error_response_is_recorded Sample.silent (Sample.options false false false)
              Sample.ann Sample.team Sample.boot (emptyResult "team-7")
              (Sample.answer None 502%Z "") eq_refl eq_refl)
    as (Hinvite & _).
  exact (Hinvite eq_refl).
Defined.

Lemma combinedIgnoredEmails_spec_witness :
  NoDup (combinedIgnoredEmails Sample.trim Sample.environment Sample.commandLine)
  /\ combinedIgnoredEmails Sample.trim Sample.environment Sample.commandLine
     = ["root@example.COM"; "ops@example.com"; "Bob@example.com"].
Proof.
  destruct (combinedIgnoredEmails_spec Sample.js Sample.trim Sample.environment
              Sample.commandLine eq_refl) as (Hnd & _).
  split; [exact Hnd | reflexivity].
Defined.

(** Both flags on the command line, two teams. *)
Lemma runMigration_delete_excludes_obsolete_witness :
  exists results s' evs,
    runMigration Sample.js Sample.calm Sample.trim Sample.environment
      Sample.commandLine Sample.teams Sample.boot
    = (Ok (results, migrationTotals results), s')
    /\ trace s' = trace Sample.boot ++ evs
    /\ Forall (fun e => isUpdateCall e = false) evs
    /\ totalMarkedObsolete (migrationTotals results) = 0%nat.
Proof.
  destruct (runMigration_delete_excludes_obsolete Sample.js Sample.calm Sample.trim
              Sample.environment Sample.commandLine Sample.teams Sample.boot)
    as (results & s' & evs & Hrun & Htr & Hdel & _).
  destruct (Hdel eq_refl) as [Hnone Hzero].
  exists results, s', evs. by repeat split.
Defined.

Lemma runRestore_batch_witness :
  exists results,
    runRestore Sample.js Sample.calm Sample.trim Sample.environment
      Sample.restoreCommandLine Sample.teams Sample.disk
    = (Ok (results, restoreTotals results), Sample.disk)
    /\ map fst results = ["team-7"; "team-8"]
    /\ totalRestored (restoreTotals results) = 0%nat.
Proof.
  destruct (runRestore_batch Sample.js Sample.calm Sample.trim Sample.environment
              Sample.restoreCommandLine Sample.teams Sample.disk)
    as (results & s' & evs & Hrun & Hteams & _ & _ & _ & _ & Hdry).
  destruct (Hdry eq_refl) as [-> Hzero].
  exists results. split; [exact Hrun |]. by split.
Defined.
